(** * fyrebot-backend: retrieval and admission-control pipeline

    A shallow embedding of the chunker ([utils/helpers.js]), the ingestion
    path ([services/data.service.js]), the tiered search
    ([services/vector-search.service.js]), the Redis wrapper
    ([db/redis.js]) and the quota middleware ([middleware/rate-limit.js]),
    together with the properties the specification states about them.

    Conventions of the embedding:
    - a JavaScript string is a [string] whose characters are code units
      in the range 0..255;
    - a JavaScript integer-valued number is a [Z]; a score is a [Q], the
      exact value of the double, and the keyword tier adds and multiplies
      scores with the rounding of IEEE 754 ([Double]);
    - [null] is [None];
    - a function that may throw returns [Exc]; a function that also
      mutates a store threads the store explicitly. *)

From Stdlib Require Import ZArith QArith Qminmax Qround Qabs Qpower.
From Stdlib Require Import SpecFloat Lia Lqa Bool Ascii String Sorted.
From stdpp Require Import base option list gmap strings pretty.

Local Open Scope string_scope.
Local Open Scope Z_scope.

(** ** JavaScript string primitives *)

Module JS.

(** [\s] and the characters stripped by [String.prototype.trim], on code
    units below 256: TAB, LF, VT, FF, CR, SPACE and NBSP. *)
Definition isWhitespace (c : ascii) : bool :=
  let n := N_of_ascii c in
  (((9 <=? n) && (n <=? 13)) || (n =? 32) || (n =? 160))%N.

(** [String.prototype.toLowerCase] on code units below 256. *)
Definition lowerChar (c : ascii) : ascii :=
  let n := N_of_ascii c in
  if (((65 <=? n) && (n <=? 90))
      || ((192 <=? n) && (n <=? 222) && negb (n =? 215)))%N
  then ascii_of_N (n + 32) else c.

Fixpoint toLowerCase (s : string) : string :=
  match s with
  | EmptyString => EmptyString
  | String c s' => String (lowerChar c) (toLowerCase s')
  end.

Fixpoint revString (s acc : string) : string :=
  match s with
  | EmptyString => acc
  | String c s' => revString s' (String c acc)
  end.

Fixpoint trimStart (s : string) : string :=
  match s with
  | EmptyString => EmptyString
  | String c s' => if isWhitespace c then trimStart s' else s
  end.

(** [s.trim()] *)
Definition trim (s : string) : string :=
  revString (trimStart (revString (trimStart s) "")) "".

(** [s.split(/\s+/)]: [cur] is the token being read, reversed; [inWs]
    says that the previous character belonged to a separator. *)
Fixpoint splitLoop (s : string) (cur : string) (inWs : bool) : list string :=
  match s with
  | EmptyString => [revString cur ""]
  | String c s' =>
      if isWhitespace c
      then if inWs then splitLoop s' cur true
           else revString cur "" :: splitLoop s' "" true
      else splitLoop s' (String c cur) false
  end.

Definition splitWhitespace (s : string) : list string := splitLoop s "" false.

(** [arr.join(sep)] *)
Fixpoint join (sep : string) (l : list string) : string :=
  match l with
  | [] => ""
  | [x] => x
  | x :: rest => x +:+ sep +:+ join sep rest
  end.

(** [arr.slice(start, stop)] with the relative-index rules of
    [Array.prototype.slice]: a negative index counts from the end. *)
Definition slice {A} (l : list A) (start stop : Z) : list A :=
  let len := Z.of_nat (length l) in
  let k := if start <? 0 then Z.max (len + start) 0 else Z.min start len in
  let fin := if stop <? 0 then Z.max (len + stop) 0 else Z.min stop len in
  take (Z.to_nat (fin - k)) (drop (Z.to_nat k) l).

(** [s.length > 0] *)
Definition nonEmpty (s : string) : bool :=
  match s with EmptyString => false | _ => true end.



End JS.

(** ** JavaScript numbers: IEEE 754 binary64

    A finite double is written as the rational it denotes.  An operation
    returns the double nearest to its exact result, ties going to the even
    significand; a decimal literal denotes the double nearest to it.  A
    result beyond the largest double is Infinity in JavaScript and stays
    finite here: the one place that adds doubles caps the sum at 1.0, which
    both give alike. *)

Module Double.

(** The nearest integer, ties to the even one. *)
Definition rne (x : Q) : Z :=
  let f := Qfloor x in
  match (x - inject_Z f ?= 1 # 2)%Q with
  | Lt => f
  | Gt => f + 1
  | Eq => if Z.even f then f else f + 1
  end.

(** [floor (log2 q)] for [0 < q]: [2^ilog2 q <= q < 2^(ilog2 q + 1)]. *)
Definition ilog2 (q : Q) : Z :=
  let d := Z.log2 (Qnum q) - Z.log2 (Z.pos (Qden q)) in
  if Qle_bool (2 ^ d) q then d else d - 1.

(** The exponent of the unit in the last place of the doubles around [q]:
    53 significant bits, and 2^-1074 in the subnormal range. *)
Definition ulpExp (q : Q) : Z := Z.max (ilog2 (Qabs q) - 52) (-1074).

(** Rounding to the nearest double. *)
Definition round (q : Q) : Q :=
  let u := ulpExp q in
  Qred (inject_Z (rne (q * 2 ^ (- u))) * 2 ^ u).

(** [x + y], [x * y] and a decimal literal. *)
Definition add (x y : Q) : Q := round (x + y).
Definition mul (x y : Q) : Q := round (x * y).
Definition literal (q : Q) : Q := round q.

(** The value of a finite float of the Standard Library's reference model
    of IEEE 754, against which the examples check [round]. *)
Definition ofFloat (f : spec_float) : Q :=
  match f with
  | S754_finite s m e =>
      Qred (inject_Z (if s then Z.neg m else Z.pos m) * 2 ^ e)
  | _ => 0%Q
  end.

Definition binary64 (n : Z) : spec_float := binary_normalize 53 1024 n 0 false.

End Double.

#[global] Instance Q_eq_dec : EqDecision Q.
Proof. solve_decision. Defined.

(** ** Configuration constants ([utils/constants.js]) *)

Record Limits := {
  apiCallsPerMonth : Z;
  sectionsPerTenant : Z;
  tokensPerRequest : Z;
  requestsPerMinute : Z;
  requestsPerHour : Z
}.

Inductive Plan := FREE | PRO | ENTERPRISE.

Definition PLANS (p : Plan) : Limits :=
  match p with
  | FREE => {| apiCallsPerMonth := 1000; sectionsPerTenant := 10;
               tokensPerRequest := 2000; requestsPerMinute := 10;
               requestsPerHour := 100 |}
  | PRO => {| apiCallsPerMonth := 10000; sectionsPerTenant := 100;
              tokensPerRequest := 4000; requestsPerMinute := 30;
              requestsPerHour := 500 |}
  | ENTERPRISE => {| apiCallsPerMonth := 100000; sectionsPerTenant := 1000;
                     tokensPerRequest := 8000; requestsPerMinute := 100;
                     requestsPerHour := 2000 |}
  end.

Module CHUNK_CONFIG.
Definition size : Z := 500.
Definition overlap : Z := 50.
Definition minSize : Z := 100.
End CHUNK_CONFIG.

Module VECTOR_SEARCH.
Definition numCandidates : nat := 100.
Definition limit : nat := 5.
Definition similarityThreshold : Q := 70 # 100.
End VECTOR_SEARCH.

(** ** The chunker ([chunkText] in [utils/helpers.js]) *)

Module Chunker.

(** One iteration of the body of the [for] loop, at index [i]. *)
Definition pushWindow (words : list string) (chunkSize i : Z)
    (chunks : list string) : list string :=
  let chunk := JS.join " " (JS.slice words i (i + chunkSize)) in
  if JS.nonEmpty (JS.trim chunk) then chunks ++ [JS.trim chunk] else chunks.

(** The [for] loop; [fuel] bounds the number of evaluations of the loop
    test, and [None] means that the loop is still running. *)
Fixpoint chunkLoop (fuel : nat) (words : list string) (chunkSize overlap : Z)
    (i : Z) (chunks : list string) : option (list string) :=
  match fuel with
  | O => None
  | S fuel' =>
      if i <? Z.of_nat (length words)
      then chunkLoop fuel' words chunkSize overlap
             (i + (chunkSize - overlap)) (pushWindow words chunkSize i chunks)
      else Some chunks
  end.

Definition chunkTextFuel (fuel : nat) (text : string) (chunkSize overlap : Z)
    : option (list string) :=
  chunkLoop fuel (JS.splitWhitespace text) chunkSize overlap 0 [].

(** [chunkText(text, chunkSize, overlap)], run for one more test than
    there are words: enough whenever the index advances. *)
Definition chunkText (text : string) (chunkSize overlap : Z)
    : option (list string) :=
  chunkTextFuel (S (length (JS.splitWhitespace text))) text chunkSize overlap.

(** The sliding-window definition of the specification: the windows that
    start at 0, step, 2*step, ... below the number of tokens, each of up to
    [windowSize] consecutive tokens, joined, trimmed, and kept when not
    empty. *)
Definition windowStarts (n step : nat) : list nat :=
  (fun k => k * step)%nat <$> seq 0 ((n + step - 1) / step)%nat.

Definition windowAt (tokens : list string) (windowSize start : nat) : string :=
  JS.trim (JS.join " " (take windowSize (drop start tokens))).

Definition chunk_reference (text : string) (windowSize : nat) (overlap : Z)
    : list string :=
  let tokens := JS.splitWhitespace text in
  let step := Z.to_nat (Z.of_nat windowSize - overlap) in
  filter (fun s => JS.nonEmpty s = true)
    (windowAt tokens windowSize <$> windowStarts (length tokens) step).

End Chunker.

(** ** Exceptions *)

(** The result of a call that may throw. *)
Inductive Exc (A : Type) : Type :=
| Ret (a : A)
| Throw (msg : string).
Arguments Ret {A} a.
Arguments Throw {A} msg.

Definition isRet {A} (x : Exc A) : bool :=
  match x with Ret _ => true | Throw _ => false end.

Definition excBind {A B} (m : Exc A) (k : A -> Exc B) : Exc B :=
  match m with Ret a => k a | Throw e => Throw e end.

(** [try { m } catch (error) { h error }] without a store. *)
Definition excCatch {A} (m : Exc A) (h : string -> Exc A) : Exc A :=
  match m with Ret a => Ret a | Throw e => h e end.

(** [l.forEach] with a body that may throw, threading an accumulator. *)
Fixpoint excFold {A B} (f : B -> A -> Exc B) (l : list A) (acc : B) : Exc B :=
  match l with
  | [] => Ret acc
  | x :: rest => excBind (f acc x) (excFold f rest)
  end.

(** [l.map] with a body that may throw. *)
Fixpoint excMap {A B} (f : A -> Exc B) (l : list A) : Exc (list B) :=
  match l with
  | [] => Ret []
  | x :: rest =>
      excBind (f x) (fun y => excBind (excMap f rest) (fun ys => Ret (y :: ys)))
  end.

(** ** Computations over a store that may throw *)

Definition StateExc (S A : Type) : Type := S -> Exc A * S.

Definition ret {S A} (a : A) : StateExc S A := fun r => (Ret a, r).

Definition throw {S A} (msg : string) : StateExc S A := fun r => (Throw msg, r).

Definition liftExc {S A} (x : Exc A) : StateExc S A := fun r => (x, r).

Definition bind {S A B} (m : StateExc S A) (k : A -> StateExc S B)
    : StateExc S B :=
  fun r => match m r with
           | (Ret a, r') => k a r'
           | (Throw e, r') => (Throw e, r')
           end.

(** [try { m } catch (error) { h error }] *)
Definition tryCatch {S A} (m : StateExc S A) (h : string -> StateExc S A)
    : StateExc S A :=
  fun r => match m r with
           | (Ret a, r') => (Ret a, r')
           | (Throw e, r') => h e r'
           end.

(** [if (b) { await m }]: the value of a skipped step is not used. *)
Definition when {S A} (b : bool) (m : StateExc S (option A))
    : StateExc S (option A) :=
  if b then m else ret None.

Notation "x <- m ;; k" := (bind m (fun x => k))
  (at level 100, m at next level, right associativity).

(** ** The Redis wrapper ([db/redis.js]) *)

Module Redis.

(** The wrapper object and the server behind it.  [client] says that
    [this.client] is not null; [data] holds the integer value of every
    counter key and [ttl] the expiry set on it; [faults] is the schedule of
    the coming commands of the underlying client: [true] rejects the
    command, [false] (or an exhausted schedule) lets it run. *)
Record Client := {
  client : bool;
  isConnected : bool;
  data : gmap string Z;
  ttl : gmap string Z;
  faults : list bool
}.

Definition withData (d : gmap string Z) (r : Client) : Client :=
  {| client := client r; isConnected := isConnected r; data := d;
     ttl := ttl r; faults := faults r |}.

Definition withTtl (t : gmap string Z) (r : Client) : Client :=
  {| client := client r; isConnected := isConnected r; data := data r;
     ttl := t; faults := faults r |}.

Definition withFaults (f : list bool) (r : Client) : Client :=
  {| client := client r; isConnected := isConnected r; data := data r;
     ttl := ttl r; faults := f |}.

Definition M (A : Type) : Type := StateExc Client A.

(** A command sent through the underlying client: rejected when the
    schedule says so, run on the server otherwise. *)
Definition command {A} (run : Client -> A * Client) : M A :=
  fun r => match faults r with
           | true :: fs => (Throw "command rejected", withFaults fs r)
           | false :: fs => let '(a, r') := run (withFaults fs r) in (Ret a, r')
           | [] => let '(a, r') := run r in (Ret a, r')
           end.

(** Server side of GET, INCR and EXPIRE. *)
Definition serverGet (key : string) (r : Client) : option Z * Client :=
  (data r !! key, r).

Definition serverIncr (key : string) (r : Client) : Z * Client :=
  let v := default 0 (data r !! key) + 1 in
  (v, withData (<[key := v]> (data r)) r).

Definition serverExpire (key : string) (seconds : Z) (r : Client)
    : Z * Client :=
  match data r !! key with
  | Some _ => (1, withTtl (<[key := seconds]> (ttl r)) r)
  | None => (0, r)
  end.

(** The guard [if (!this.client || !this.isConnected) return null;]
    followed by [try { return await this.client.op(..) } catch { return
    null }]. *)
Definition guarded {A} (op : M A) : M (option A) :=
  fun r =>
    if negb (client r) || negb (isConnected r) then (Ret None, r)
    else tryCatch (a <- op ;; ret (Some a)) (fun _ => ret None) r.

(** [redis.get(key)]: the stored string, here already the integer that
    [parseInt] reads from it. *)
Definition get (key : string) : M (option Z) :=
  r <- guarded (command (serverGet key)) ;; ret (mjoin r).

(** [redis.incr(key)] *)
Definition incr (key : string) : M (option Z) :=
  guarded (command (serverIncr key)).

(** [redis.expire(key, seconds)] *)
Definition expire (key : string) (seconds : Z) : M (option Z) :=
  guarded (command (serverExpire key seconds)).

(** The store is reachable and no coming command is rejected. *)
Definition healthy (r : Client) : Prop :=
  client r = true /\ isConnected r = true /\ faults r = [].

(** The wrapper has no client, or has lost its connection. *)
Definition unavailable (r : Client) : Prop :=
  client r = false \/ isConnected r = false.

(** The store is down for the next [n] commands: unavailable, or
    rejecting each of them. *)
Definition down (n : nat) (r : Client) : Prop :=
  unavailable r \/ exists fs, faults r = (replicate n true ++ fs)%list.

End Redis.

(** ** The quota middleware ([middleware/rate-limit.js]) *)

Module RateLimit.

Record Tenant := {
  tenantId : string;
  limits : Limits
}.

(** What the handler needs of the request and of the clock: the tenant
    attached by the authentication middleware, the two readings of
    [Date.now()] (one per key) and the first seven characters of
    [new Date().toISOString()]. *)
Record Request := {
  tenant : option Tenant;
  nowMinute : Z;
  nowHour : Z;
  currentMonth : string
}.

Record Usage := { used : Z; limit : Z }.

Record Body := {
  error : string;
  message : string;
  retryAfter : option Z;
  usage : option Usage
}.

(** The handler either sends a reply, or returns and lets the request go
    on with the headers it set. *)
Inductive Outcome :=
| Next (headers : list (string * Z))
| Send (code : Z) (body : Body).

(** ToNumber of a counter value: [null] counts as 0. *)
Definition toNumber (o : option Z) : Z := default 0 o.

(** [count === 1] *)
Definition isOne (o : option Z) : bool :=
  match o with Some 1 => true | _ => false end.

Definition minuteKey (t : Tenant) (now : Z) : string :=
  "ratelimit:" +:+ tenantId t +:+ ":minute:" +:+ pretty (now / 60000).

Definition hourKey (t : Tenant) (now : Z) : string :=
  "ratelimit:" +:+ tenantId t +:+ ":hour:" +:+ pretty (now / 3600000).

Definition monthKey (t : Tenant) (month : string) : string :=
  "usage:" +:+ tenantId t +:+ ":month:" +:+ month.

Definition minuteDenial (l : Limits) : Outcome :=
  Send 429 {| error := "Rate limit exceeded";
              message := "Rate limit: " +:+ pretty (requestsPerMinute l)
                         +:+ " requests per minute";
              retryAfter := Some 60; usage := None |}.

Definition hourDenial (l : Limits) : Outcome :=
  Send 429 {| error := "Rate limit exceeded";
              message := "Rate limit: " +:+ pretty (requestsPerHour l)
                         +:+ " requests per hour";
              retryAfter := Some 3600; usage := None |}.

Definition monthDenial (l : Limits) (usageCount : Z) : Outcome :=
  Send 429 {| error := "Monthly limit exceeded";
              message := "Monthly limit of " +:+ pretty (apiCallsPerMonth l)
                         +:+ " API calls exceeded. Please upgrade your plan.";
              retryAfter := None;
              usage := Some {| used := usageCount;
                               limit := apiCallsPerMonth l |} |}.

Definition rateHeaders (l : Limits) (minuteCount hourCount : option Z)
    : list (string * Z) :=
  [ ("X-RateLimit-Limit-Minute", requestsPerMinute l);
    ("X-RateLimit-Remaining-Minute",
       Z.max 0 (requestsPerMinute l - toNumber minuteCount));
    ("X-RateLimit-Limit-Hour", requestsPerHour l);
    ("X-RateLimit-Remaining-Hour",
       Z.max 0 (requestsPerHour l - toNumber hourCount)) ].

(** [rateLimiter(request, reply)] *)
Definition rateLimiter (req : Request) : Redis.M Outcome :=
  tryCatch
    (match tenant req with
     | None => ret (Next [])
     | Some t =>
         let l := limits t in
         let mKey := minuteKey t (nowMinute req) in
         minuteCount <- Redis.incr mKey ;;
         _ <- when (isOne minuteCount) (Redis.expire mKey 60) ;;
         if toNumber minuteCount >? requestsPerMinute l
         then ret (minuteDenial l)
         else
           let hKey := hourKey t (nowHour req) in
           hourCount <- Redis.incr hKey ;;
           _ <- when (isOne hourCount) (Redis.expire hKey 3600) ;;
           if toNumber hourCount >? requestsPerHour l
           then ret (hourDenial l)
           else ret (Next (rateHeaders l minuteCount hourCount))
     end)
    (fun _ => ret (Next [])).

(** [checkMonthlyLimit(request, reply)] *)
Definition checkMonthlyLimit (req : Request) : Redis.M Outcome :=
  tryCatch
    (match tenant req with
     | None => ret (Next [])
     | Some t =>
         let l := limits t in
         let key := monthKey t (currentMonth req) in
         monthlyUsage <- Redis.get key ;;
         let usageCount := toNumber monthlyUsage in
         if usageCount >=? apiCallsPerMonth l
         then ret (monthDenial l usageCount)
         else
           _ <- Redis.incr key ;;
           _ <- when (usageCount =? 0) (Redis.expire key (60 * 24 * 3600)) ;;
           ret (Next [])
     end)
    (fun _ => ret (Next [])).

(** The request goes on to the next handler. *)
Definition admitted (o : Exc Outcome) : bool :=
  match o with Ret (Next _) => true | _ => false end.

(** The calls of one tenant, one after the other, on the same store. *)
Fixpoint rateLimiterSeq (reqs : list Request) (r : Redis.Client)
    : list (Exc Outcome) * Redis.Client :=
  match reqs with
  | [] => ([], r)
  | req :: rest =>
      let '(o, r') := rateLimiter req r in
      let '(os, r'') := rateLimiterSeq rest r' in
      (o :: os, r'')
  end.

(** Limits a plan can carry: no negative rate, and a monthly quota of at
    least one call. *)
Definition plausible (l : Limits) : Prop :=
  0 <= requestsPerMinute l /\ 0 <= requestsPerHour l
  /\ 0 < apiCallsPerMonth l.

(** What the [k]-th call of a minute returns, given the value [h] the
    hour counter has after it. *)
Definition kthOutcome (l : Limits) (k h : Z) : Exc Outcome :=
  Ret (if k >? requestsPerMinute l then minuteDenial l
       else if h >? requestsPerHour l then hourDenial l
       else Next (rateHeaders l (Some k) (Some h))).

Definition sameBuckets (t : Tenant) (now : Z) (req : Request) : Prop :=
  tenant req = Some t
  /\ nowMinute req / 60000 = now / 60000
  /\ nowHour req / 3600000 = now / 3600000.

End RateLimit.

(** ** Documents of the [chunks] and [sections] collections

    The [metadata] object and the timestamps of the documents play no part
    in what follows and are left out. *)

Definition Embedding : Type := list Q.

Record ChunkDoc := {
  c_tenantId : string;
  c_sectionId : string;
  c_chunkId : string;
  c_sectionType : string;
  c_sectionTitle : string;
  c_text : string;
  c_embedding : option Embedding;
  c_position : nat
}.

Record SectionDoc := {
  s_tenantId : string;
  s_sectionId : string;
  s_type : string;
  s_title : string;
  s_content : string;
  s_chunkCount : nat;
  s_status : string
}.

(** ** The tiered search ([services/vector-search.service.js]) *)

Module Search.

(** A projected chunk with the score its tier gave it. *)
Record Passage := {
  chunkId : string;
  sectionId : string;
  sectionType : string;
  sectionTitle : string;
  text : string;
  score : Q
}.

Record Options := {
  optLimit : option nat;
  optMinScore : option Q;
  optSectionType : option string
}.

(** The two regular-expression engines the keyword tier relies on.
    [mongoRegex p] compiles [{ $regex: p, $options: 'i' }] into its test on
    a field value; [jsRegExp p] compiles [new RegExp(p, 'gi')] into the
    number of matches [subject.match] returns.  [None]: the pattern is
    rejected (the query fails, the constructor throws). *)
Class RegexEngine := {
  mongoRegex : string -> option (string -> bool);
  jsRegExp : string -> option (string -> nat)
}.

(** What the search uses of MongoDB and of the embedding service: the
    chunk rows in natural order, whether the server answers a [find], the
    result of the [$vectorSearch] aggregation run on the embedding of the
    query, and the result of the [$text] query. *)
Record Backend := {
  chunksCollection : list ChunkDoc;
  findRejects : bool;
  vectorTier : string -> string -> nat -> Q -> option string
               -> Exc (list Passage);
  textTier : string -> string -> nat -> option string -> Exc (list Passage)
}.

(** The characters of [/[.*+?^${}()|[\]\\]/]. *)
Definition isMeta (c : ascii) : bool :=
  existsb (Ascii.eqb c)
    ["."; "*"; "+"; "?"; "^"; "$"; "{"; "}"; "("; ")"; "|"; "["; "]"; "\"]%char.

(** [k.replace(/[.*+?^${}()|[\]\\]/g, '\\$&')] *)
Fixpoint escapeRegex (k : string) : string :=
  match k with
  | EmptyString => EmptyString
  | String c k' =>
      if isMeta c then String "\" (String c (escapeRegex k'))
      else String c (escapeRegex k')
  end.

(** [queryText.toLowerCase().split(/\s+/).filter(k => k.length > 2)] *)
Definition keywordsOf (queryText : string) : list string :=
  filter (fun k => (2 < String.length k)%nat)
    (JS.splitWhitespace (JS.toLowerCase queryText)).

Definition regexPatternOf (keywords : list string) : string :=
  JS.join "" ((fun k => "(?=.*" +:+ escapeRegex k +:+ ")") <$> keywords).

(** [cursor.limit(n)]: 0 means no limit. *)
Definition mongoLimit {A} (n : nat) (l : list A) : list A :=
  match n with O => l | _ => take n l end.

Definition project (d : ChunkDoc) (sc : Q) : Passage :=
  {| chunkId := c_chunkId d; sectionId := c_sectionId d;
     sectionType := c_sectionType d; sectionTitle := c_sectionTitle d;
     text := c_text d; score := sc |}.

(** [arr.sort((a, b) => b.score - a.score)]: a stable sort. *)
Fixpoint insertByScore (x : Passage) (l : list Passage) : list Passage :=
  match l with
  | [] => [x]
  | y :: rest =>
      if Qle_bool (score y) (score x) then x :: y :: rest
      else y :: insertByScore x rest
  end.

Fixpoint sortByScore (l : list Passage) : list Passage :=
  match l with
  | [] => []
  | x :: rest => insertByScore x (sortByScore rest)
  end.

(** Output order of a ranked result: scores never increase. *)
Definition scoreDesc (a b : Passage) : Prop := (score b <= score a)%Q.

(** The literals [0.15] and [0.1] of the keyword tier. *)
Definition matchWeight : Q := Double.literal (15 # 100).
Definition minRelevance : Q := Double.literal (1 # 10).

(** [score += matches * 0.15] *)
Definition addMatches (sc : Q) (matches : nat) : Q :=
  Double.add sc (Double.mul (inject_Z (Z.of_nat matches)) matchWeight).

(** The ways of writing [n] as an ordered sum of positive counts. *)
Fixpoint compositions (n : nat) : list (list nat) :=
  match n with
  | O => [[]]
  | S n' =>
      flat_map (fun c => match c with
                         | [] => [[1%nat]]
                         | k :: rest => [1%nat :: k :: rest; S k :: rest]
                         end) (compositions n')
  end.

(** The values [score] can hold once [n] matches have been added. *)
Definition sums (n : nat) : list Q :=
  remove_dups (foldl addMatches 0%Q <$> compositions n).

(** What [score] can be after [n] matches: one of the sums of up to six
    matches, or 1 and more. *)
Definition reached (n : nat) (sc : Q) : Prop :=
  ((n <= 6)%nat /\ sc ∈ sums n) \/ ((7 <= n)%nat /\ (1 <= sc)%Q).

Section WithEngine.
Context {engine : RegexEngine}.

(** The total number of matches of the keywords in a subject, as the
    specification counts them; [None] when a keyword is not a valid
    pattern. *)
Fixpoint totalMatches (keywords : list string) (subject : string)
    : option nat :=
  match keywords with
  | [] => Some O
  | k :: rest =>
      count ← jsRegExp k;
      n ← totalMatches rest subject;
      Some (count subject + n)%nat
  end.

(** The tenant and type filter of the query: [{ tenantId }], to which
    [if (sectionType)] adds the type unless it is [null] or the empty
    string. *)
Definition baseFilter (tenantId : string) (sectionType : option string)
    (d : ChunkDoc) : bool :=
  bool_decide (c_tenantId d = tenantId)
  && match sectionType with
     | Some ty =>
         if JS.nonEmpty ty then bool_decide (c_sectionType d = ty) else true
     | None => true
     end.

(** The [$or] of the regex query, once its patterns are compiled. *)
Definition orFilter (every : string -> bool) (each : list (string -> bool))
    (d : ChunkDoc) : bool :=
  every (c_text d) || every (c_sectionTitle d)
  || existsb (fun m => m (c_text d)) each.

(** [chunksCollection.find({...query, $or: [...]}).limit(limit * 2)
    .project({...}).toArray()] *)
Definition regexFind (b : Backend) (tenantId : string)
    (sectionType : option string) (keywords : list string) (limit : nat)
    : Exc (list ChunkDoc) :=
  if findRejects b then Throw "find rejected"
  else
    match mongoRegex (regexPatternOf keywords),
          excMap (fun k => match mongoRegex k with
                           | Some m => Ret m
                           | None => Throw "Regular expression is invalid"
                           end) keywords with
    | Some every, Ret each =>
        Ret (mongoLimit (limit * 2)
               (filter (fun d => baseFilter tenantId sectionType d
                                 && orFilter every each d = true)
                  (chunksCollection b)))
    | _, _ => Throw "Regular expression is invalid"
    end.

(** The sum the [forEach] over the keywords leaves in [score]: each
    keyword, unescaped, is the pattern of a [RegExp] whose matches in
    [textLower] are counted. *)
Definition keywordScore (keywords : list string) (textLower : string)
    : Exc Q :=
  excFold (fun sc keyword =>
             match jsRegExp keyword with
             | Some count => Ret (addMatches sc (count textLower))
             | None => Throw "Invalid regular expression"
             end) keywords 0%Q.

(** The callback of [results.map]. *)
Definition scoreResult (keywords : list string) (result : ChunkDoc)
    : Exc Passage :=
  let textLower :=
    JS.toLowerCase (c_text result +:+ " " +:+ c_sectionTitle result) in
  excBind (keywordScore keywords textLower)
    (fun sc => Ret (project result (Qmin sc 1))).

(** The keyword-regex tier: lines 145-199 of the service. *)
Definition regexTier (b : Backend) (tenantId queryText : string)
    (limit : nat) (sectionType : option string) : Exc (list Passage) :=
  let keywords := keywordsOf queryText in
  excBind (regexFind b tenantId sectionType keywords limit) (fun results =>
  excBind (excMap (scoreResult keywords) results) (fun scoredResults =>
  Ret (take limit
         (sortByScore
            (filter (fun r => Qle_bool (score r) minRelevance = false)
               scoredResults))))).

(** [fallbackTextSearch(tenantId, queryText, options)] *)
Definition fallbackTextSearch (b : Backend) (tenantId queryText : string)
    (options : Options) : Exc (list Passage) :=
  excCatch
    (let limit := default VECTOR_SEARCH.limit (optLimit options) in
     let sectionType := optSectionType options in
     match excCatch
             (excBind (textTier b tenantId queryText limit sectionType)
                (fun results => Ret (Some results)))
             (fun _ => Ret None) with
     | Ret (Some (r :: rs)) => Ret (r :: rs)
     | Ret _ => regexTier b tenantId queryText limit sectionType
     | Throw e => Throw e
     end)
    (fun _ => Ret []).

(** [search(tenantId, queryText, options)] *)
Definition search (b : Backend) (tenantId queryText : string)
    (options : Options) : Exc (list Passage) :=
  excCatch
    (let limit := default VECTOR_SEARCH.limit (optLimit options) in
     let minScore :=
       default VECTOR_SEARCH.similarityThreshold (optMinScore options) in
     let sectionType := optSectionType options in
     excBind (vectorTier b tenantId queryText limit minScore sectionType)
       (fun results =>
          match results with
          | [] => fallbackTextSearch b tenantId queryText options
          | _ => Ret results
          end))
    (fun _ => fallbackTextSearch b tenantId queryText options).

End WithEngine.

End Search.

(** ** A regular-expression engine for literal keywords

    Both engines agree with this one on patterns without metacharacters
    (case-insensitive search for the pattern itself) and on the lookahead
    pattern [regexPatternOf] builds; any other pattern is rejected here.
    The examples below only use such patterns. *)

Module LiteralEngine.

Fixpoint prefixCI (k s : string) : bool :=
  match k, s with
  | EmptyString, _ => true
  | String a k', String b s' =>
      Ascii.eqb (JS.lowerChar a) (JS.lowerChar b) && prefixCI k' s'
  | String _ _, EmptyString => false
  end.

(** Number of matches of a global search: after a match the search
    resumes behind it ([skip] characters are still part of it). *)
Fixpoint countFrom (k s : string) (skip : nat) : nat :=
  match s with
  | EmptyString => match k with EmptyString => 1%nat | _ => O end
  | String _ s' =>
      match skip with
      | S n => countFrom k s' n
      | O => if prefixCI k s
             then S (countFrom k s' (String.length k - 1))
             else countFrom k s' 0
      end
  end.

Definition occurs (k s : string) : bool := (0 <? countFrom k s 0)%nat.

Fixpoint isLiteral (p : string) : bool :=
  match p with
  | EmptyString => true
  | String c p' => negb (Search.isMeta c) && isLiteral p'
  end.

Fixpoint stripPrefix (pre s : string) : option string :=
  match pre, s with
  | EmptyString, _ => Some s
  | String a pre', String b s' =>
      if Ascii.eqb a b then stripPrefix pre' s' else None
  | String _ _, EmptyString => None
  end.

(** Reads an escaped literal up to the closing parenthesis. *)
Fixpoint readLiteral (s acc : string) : option (string * string) :=
  match s with
  | EmptyString => None
  | String c s' =>
      if Ascii.eqb c ")" then Some (JS.revString acc "", s')
      else if Ascii.eqb c "\" then
        match s' with
        | String d s'' => readLiteral s'' (String d acc)
        | EmptyString => None
        end
      else if Search.isMeta c then None
      else readLiteral s' (String c acc)
  end.

Fixpoint parseLookaheads (fuel : nat) (p : string) : option (list string) :=
  match fuel with
  | O => None
  | S fuel' =>
      match p with
      | EmptyString => Some []
      | _ =>
          rest ← stripPrefix "(?=.*" p;
          '(lit, rest') ← readLiteral rest "";
          lits ← parseLookaheads fuel' rest';
          Some (lit :: lits)
      end
  end.

(** The lines of the subject: [.] does not match a line feed. *)
Fixpoint linesLoop (s cur : string) : list string :=
  match s with
  | EmptyString => [JS.revString cur ""]
  | String c s' =>
      if Ascii.eqb c (ascii_of_N 10)
      then JS.revString cur "" :: linesLoop s' ""
      else linesLoop s' (String c cur)
  end.

Definition mongoRegex (p : string) : option (string -> bool) :=
  if isLiteral p then Some (occurs p)
  else
    lits ← parseLookaheads (S (String.length p)) p;
    Some (fun subject =>
            existsb (fun line => forallb (fun k => occurs k line) lits)
              (linesLoop subject "")).

Definition jsRegExp (p : string) : option (string -> nat) :=
  if isLiteral p then Some (fun subject => countFrom p subject 0) else None.

End LiteralEngine.

Definition literalEngine : Search.RegexEngine :=
  {| Search.mongoRegex := LiteralEngine.mongoRegex;
     Search.jsRegExp := LiteralEngine.jsRegExp |}.

(** ** Ingestion ([services/data.service.js]) *)

Module Data.

Record SectionInput := {
  type : string;
  title : string;
  content : string
}.

(** The two collections in insertion order, the supply that stands for
    the fresh identifiers of [nanoid], and the schedule of the coming
    database commands ([true] rejects the command). *)
Record Db := {
  sectionsCollection : list SectionDoc;
  chunksCollection : list ChunkDoc;
  nextId : nat;
  faults : list bool
}.

Definition M (A : Type) : Type := StateExc Db A.

Record SectionResult := {
  r_sectionId : string;
  r_type : string;
  r_title : string;
  r_chunkCount : nat;
  r_status : string
}.

Record Registered := {
  sectionsCreated : nat;
  chunksCreated : nat;
  sections : list SectionResult
}.

Definition withFaults (f : list bool) (db : Db) : Db :=
  {| sectionsCollection := sectionsCollection db;
     chunksCollection := chunksCollection db;
     nextId := nextId db; faults := f |}.

(** A command sent to the database. *)
Definition command {A} (run : Db -> A * Db) : M A :=
  fun db => match faults db with
            | true :: fs => (Throw "database command rejected", withFaults fs db)
            | false :: fs =>
                let '(a, db') := run (withFaults fs db) in (Ret a, db')
            | [] => let '(a, db') := run db in (Ret a, db')
            end.

(** [sectionsCollection.countDocuments({ tenantId })] *)
Definition countDocuments (tenantId : string) : M nat :=
  command (fun db =>
    (length (filter (fun d => s_tenantId d = tenantId) (sectionsCollection db)),
     db)).

(** [sectionsCollection.insertOne(doc)] *)
Definition insertOne (doc : SectionDoc) : M unit :=
  command (fun db =>
    (tt, {| sectionsCollection := sectionsCollection db ++ [doc];
            chunksCollection := chunksCollection db;
            nextId := nextId db; faults := faults db |})).

(** [chunksCollection.insertMany(docs)] *)
Definition insertMany (docs : list ChunkDoc) : M unit :=
  command (fun db =>
    (tt, {| sectionsCollection := sectionsCollection db;
            chunksCollection := chunksCollection db ++ docs;
            nextId := nextId db; faults := faults db |})).

(** The documents a [{ tenantId, sectionId }] filter selects. *)
Definition docsOf (tenantId sectionId : string) (docs : list SectionDoc)
    : list SectionDoc :=
  filter (fun d => s_tenantId d = tenantId /\ s_sectionId d = sectionId) docs.

Definition rowsOf (tenantId sectionId : string) (rows : list ChunkDoc)
    : list ChunkDoc :=
  filter (fun c => c_tenantId c = tenantId /\ c_sectionId c = sectionId) rows.

(** [sectionsCollection.findOne({ tenantId, sectionId })] *)
Definition findSection (tenantId sectionId : string) (db : Db)
    : option SectionDoc :=
  head (docsOf tenantId sectionId (sectionsCollection db)).

(** The chunk rows of a section:
    [chunksCollection.find({ tenantId, sectionId })]. *)
Definition chunkRows (tenantId sectionId : string) (db : Db) : list ChunkDoc :=
  rowsOf tenantId sectionId (chunksCollection db).

(** [generateId.section()] and [generateId.chunk()] *)
Definition freshId (prefix : string) : M string :=
  fun db => (Ret (prefix +:+ pretty (nextId db)),
             {| sectionsCollection := sectionsCollection db;
                chunksCollection := chunksCollection db;
                nextId := S (nextId db); faults := faults db |}).

(** An identifier that the supply, at [n], will not hand out again. *)
Definition spent (n : nat) (id : string) : Prop :=
  forall m, (n <= m)%nat -> id <> "sec_" +:+ pretty m.

(** No stored row carries a section identifier still to be generated
    (identifiers of [nanoid] do not collide). *)
Definition fresh (db : Db) : Prop :=
  Forall (fun d => spent (nextId db) (s_sectionId d)) (sectionsCollection db)
  /\ Forall (fun c => spent (nextId db) (c_sectionId c)) (chunksCollection db).

(** An identifier the supply hands out at [n0] or later. *)
Definition generatedFrom (n0 : nat) (id : string) : Prop :=
  exists n, (n0 <= n)%nat /\ id = "sec_" +:+ pretty n.

Definition generateSectionId : M string := freshId "sec_".
Definition generateChunkId : M string := freshId "chk_".

Definition quote : string := String (ascii_of_N 34) "".

Section WithEmbedder.

(** [embeddingService.generateEmbeddings] *)
Variable generateEmbeddings : list string -> Exc (list Embedding).

(** [chunks.map((text, index) => ({...}))], from position [index] on. *)
Fixpoint chunkDocsFrom (tenantId sectionId : string) (section : SectionInput)
    (embeddings : list Embedding) (index : nat) (chunks : list string)
    : M (list ChunkDoc) :=
  match chunks with
  | [] => ret []
  | text :: rest =>
      chunkId <- generateChunkId ;;
      docs <- chunkDocsFrom tenantId sectionId section embeddings
                (S index) rest ;;
      ret ({| c_tenantId := tenantId; c_sectionId := sectionId;
              c_chunkId := chunkId; c_sectionType := type section;
              c_sectionTitle := title section; c_text := text;
              c_embedding := embeddings !! index;
              c_position := index |} :: docs)
  end.

(** The body of the [for (const section of sections)] loop. *)
Definition processSection (tenantId : string) (section : SectionInput)
    : M SectionResult :=
  if negb (JS.nonEmpty (content section))
     || negb (JS.nonEmpty (JS.trim (content section)))
  then throw ("Section " +:+ quote +:+ title section +:+ quote
              +:+ " has empty content")
  else
    sectionId <- generateSectionId ;;
    match Chunker.chunkText (content section)
            CHUNK_CONFIG.size CHUNK_CONFIG.overlap with
    | None => throw "chunkText does not return"
    | Some chunks =>
        if (length chunks =? 0)%nat
        then throw ("Section " +:+ quote +:+ title section +:+ quote
                    +:+ " produced no chunks. Content may be too short or invalid.")
        else
          embeddings <- liftExc (generateEmbeddings chunks) ;;
          _ <- insertOne {| s_tenantId := tenantId; s_sectionId := sectionId;
                            s_type := type section; s_title := title section;
                            s_content := content section;
                            s_chunkCount := length chunks;
                            s_status := "completed" |} ;;
          chunkDocs <- chunkDocsFrom tenantId sectionId section embeddings
                         0 chunks ;;
          _ <- (if (0 <? length chunkDocs)%nat then insertMany chunkDocs
                else ret tt) ;;
          ret {| r_sectionId := sectionId; r_type := type section;
                 r_title := title section; r_chunkCount := length chunks;
                 r_status := "completed" |}
    end.

Fixpoint processSections (tenantId : string) (todo : list SectionInput)
    (results : list SectionResult) (totalChunks : nat)
    : M (list SectionResult * nat) :=
  match todo with
  | [] => ret (results, totalChunks)
  | section :: rest =>
      r <- processSection tenantId section ;;
      processSections tenantId rest (results ++ [r])
        (totalChunks + r_chunkCount r)
  end.

(** [registerData(tenantId, sections, limits)] *)
Definition registerData (tenantId : string) (batch : list SectionInput)
    (limits : Limits) : M Registered :=
  tryCatch
    (currentCount <- countDocuments tenantId ;;
     if Z.of_nat currentCount + Z.of_nat (length batch)
        >? sectionsPerTenant limits
     then throw ("Section limit exceeded. Your plan allows "
                 +:+ pretty (sectionsPerTenant limits) +:+ " sections. "
                 +:+ "Current: " +:+ pretty currentCount
                 +:+ ", Attempting to add: " +:+ pretty (length batch))
     else
       done <- processSections tenantId batch [] 0 ;;
       ret {| sectionsCreated := length batch;
              chunksCreated := snd done;
              sections := fst done |})
    (fun e => throw e).

(** The checks a section has to pass before anything is written for
    it. *)
Definition accepts (section : SectionInput) : bool :=
  JS.nonEmpty (content section)
  && JS.nonEmpty (JS.trim (content section))
  && match Chunker.chunkText (content section)
             CHUNK_CONFIG.size CHUNK_CONFIG.overlap with
     | Some (c :: chunks) => isRet (generateEmbeddings (c :: chunks))
     | _ => false
     end.

(** What a stored document keeps of the section it was made from. *)
Definition storedFrom (section : SectionInput) (doc : SectionDoc) : Prop :=
  s_type doc = type section /\ s_title doc = title section
  /\ s_content doc = content section
  /\ exists chunks,
       Chunker.chunkText (content section)
         CHUNK_CONFIG.size CHUNK_CONFIG.overlap = Some chunks
       /\ s_chunkCount doc = length chunks.

(** The sections of a batch up to the first one that is refused. *)
Fixpoint acceptedPrefix (batch : list SectionInput) : list SectionInput :=
  match batch with
  | [] => []
  | section :: rest =>
      if accepts section then section :: acceptedPrefix rest else []
  end.

End WithEmbedder.

(** What the loop has written when it stops: the documents of the
    accepted prefix, each with its rows. *)
Definition written (tenantId : string) (n0 : nat)
    (created : list SectionDoc) (rows : list ChunkDoc) : Prop :=
  Forall (fun doc =>
            s_tenantId doc = tenantId
            /\ generatedFrom n0 (s_sectionId doc)
            /\ (0 < s_chunkCount doc)%nat
            /\ s_chunkCount doc
               = length (rowsOf tenantId (s_sectionId doc) rows)
            /\ head (docsOf tenantId (s_sectionId doc) created) = Some doc)
    created
  /\ Forall (fun c =>
               c_tenantId c = tenantId
               /\ exists doc, doc ∈ created
                              /\ c_sectionId c = s_sectionId doc) rows.

(** A test double of the embedding service: one (empty) vector per text. *)
Definition testEmbeddings (texts : list string) : Exc (list Embedding) :=
  Ret ((fun _ => []) <$> texts).

End Data.

(** ** Tenants, stores and requests of the examples *)

Module Fixtures.

Definition acme : RateLimit.Tenant :=
  {| RateLimit.tenantId := "ten_acme"; RateLimit.limits := PLANS FREE |}.

Definition requestAt (now : Z) : RateLimit.Request :=
  {| RateLimit.tenant := Some acme; RateLimit.nowMinute := now;
     RateLimit.nowHour := now; RateLimit.currentMonth := "2026-11" |}.

Definition store (d : gmap string Z) (f : list bool) : Redis.Client :=
  {| Redis.client := true; Redis.isConnected := true; Redis.data := d;
     Redis.ttl := ∅; Redis.faults := f |}.

Definition offline : Redis.Client :=
  {| Redis.client := false; Redis.isConnected := false; Redis.data := ∅;
     Redis.ttl := ∅; Redis.faults := [] |}.

Definition shippingChunk : ChunkDoc :=
  {| c_tenantId := "ten_acme"; c_sectionId := "sec_1"; c_chunkId := "chk_1";
     c_sectionType := "policy"; c_sectionTitle := "Delivery";
     c_text := "We offer free shipping on orders over $50";
     c_embedding := None; c_position := 0 |}.

Definition returnsChunk : ChunkDoc :=
  {| c_tenantId := "ten_acme"; c_sectionId := "sec_2"; c_chunkId := "chk_2";
     c_sectionType := "policy"; c_sectionTitle := "Returns";
     c_text := "Free returns within 30 days";
     c_embedding := None; c_position := 0 |}.

(** Another tenant's chunk and a chunk of another type, both about free
    shipping. *)
Definition foreignChunk : ChunkDoc :=
  {| c_tenantId := "ten_other"; c_sectionId := "sec_9"; c_chunkId := "chk_9";
     c_sectionType := "policy"; c_sectionTitle := "Members";
     c_text := "Free shipping for members";
     c_embedding := None; c_position := 0 |}.

Definition faqChunk : ChunkDoc :=
  {| c_tenantId := "ten_acme"; c_sectionId := "sec_5"; c_chunkId := "chk_5";
     c_sectionType := "faq"; c_sectionTitle := "Questions";
     c_text := "Is shipping free for every order";
     c_embedding := None; c_position := 0 |}.

(** A chunk whose title, but not its text, holds one of the keywords of
    "free shipping". *)
Definition titleOnlyChunk : ChunkDoc :=
  {| c_tenantId := "ten_acme"; c_sectionId := "sec_6"; c_chunkId := "chk_6";
     c_sectionType := "policy"; c_sectionTitle := "Shipping";
     c_text := "Contact our team for a quote";
     c_embedding := None; c_position := 0 |}.



(** Only the keyword tier is available: the vector index is empty and
    there is no text index. *)
Definition keywordOnly (rows : list ChunkDoc) : Search.Backend :=
  {| Search.chunksCollection := rows;
     Search.findRejects := false;
     Search.vectorTier := fun _ _ _ _ _ => Ret [];
     Search.textTier := fun _ _ _ _ => Throw "text index required" |}.

(** The database does not answer at all. *)
Definition unreachable (rows : list ChunkDoc) : Search.Backend :=
  {| Search.chunksCollection := rows;
     Search.findRejects := true;
     Search.vectorTier := fun _ _ _ _ _ => Throw "server selection timed out";
     Search.textTier := fun _ _ _ _ => Throw "server selection timed out" |}.

Definition emptyDb (f : list bool) : Data.Db :=
  {| Data.sectionsCollection := []; Data.chunksCollection := [];
     Data.nextId := 0; Data.faults := f |}.

Definition shippingSection : Data.SectionInput :=
  {| Data.type := "policy"; Data.title := "Delivery";
     Data.content := "We offer free shipping on orders over $50" |}.

(** Ten spaces: long enough for the request schema, empty once trimmed. *)
Definition blankSection : Data.SectionInput :=
  {| Data.type := "policy"; Data.title := "Returns";
     Data.content := "          " |}.

Definition noOptions : Search.Options :=
  {| Search.optLimit := None; Search.optMinScore := None;
     Search.optSectionType := None |}.

End Fixtures.

(** ** Retry and token estimate ([utils/helpers.js]) *)

Module Helpers.

(** [estimateTokens(text)]: [Math.ceil(text.length / 4)]. *)
Definition estimateTokens (text : string) : Z :=
  (Z.of_nat (String.length text) + 3) / 4.

(** How a promise settles; [lastError] is [undefined] until an attempt
    has failed. *)
Inductive Settled (A : Type) : Type :=
| Resolved (a : A)
| Rejected (error : option string).
Arguments Resolved {A} a.
Arguments Rejected {A} error.

(** What a run of [retryWithBackoff] did: how it settled, how many times
    it called [fn], and the delays it waited for, in order. *)
Record RetryRun (A : Type) : Type := {
  settled : Settled A;
  calls : nat;
  delays : list Z
}.
Arguments settled {A} r.
Arguments calls {A} r.
Arguments delays {A} r.

(** The [for] loop of [retryWithBackoff], at index [i] with [remaining]
    iterations to go; [fn i] is the outcome of the call of [fn] made in
    iteration [i]. *)
Fixpoint retryLoop {A} (fn : nat -> Exc A) (maxRetries initialDelay : Z)
    (remaining i : nat) (lastError : option string) (slept : list Z)
    : RetryRun A :=
  match remaining with
  | O => {| settled := Rejected lastError; calls := i; delays := slept |}
  | S remaining' =>
      match fn i with
      | Ret a => {| settled := Resolved a; calls := S i; delays := slept |}
      | Throw error =>
          let slept' :=
            if Z.of_nat i <? maxRetries - 1
            then (slept ++ [initialDelay * 2 ^ Z.of_nat i])%list
            else slept in
          retryLoop fn maxRetries initialDelay remaining' (S i)
            (Some error) slept'
      end
  end.

(** [retryWithBackoff(fn, maxRetries, initialDelay)] *)
Definition retryWithBackoff {A} (fn : nat -> Exc A)
    (maxRetries initialDelay : Z) : RetryRun A :=
  retryLoop fn maxRetries initialDelay (Z.to_nat maxRetries) 0 None [].

(** The delays of the first [k] failed attempts. *)
Definition backoffDelays (initialDelay : Z) (k : nat) : list Z :=
  (fun i => initialDelay * 2 ^ Z.of_nat i) <$> seq 0 k.

Definition sumZ (l : list Z) : Z := foldr Z.add 0 l.

End Helpers.

(** ** The hooks of a route, run in order *)

Module Hooks.

(** What the chain of [preHandler] hooks leaves: the headers set on the
    reply, and the reply sent by the hook that stopped the chain, if one
    did. *)
Record ChainResult := {
  headersSet : list (string * Z);
  sent : option (Z * RateLimit.Body)
}.

(** Fastify runs the [preHandler] hooks one after the other and skips the
    rest, and the route handler, once a hook has sent the reply. *)
Fixpoint runPreHandlers
    (hooks : list (RateLimit.Request -> Redis.M RateLimit.Outcome))
    (req : RateLimit.Request) (headers : list (string * Z))
    : Redis.M ChainResult :=
  match hooks with
  | [] => ret {| headersSet := headers; sent := None |}
  | hook :: rest =>
      o <- hook req ;;
      match o with
      | RateLimit.Send code body =>
          ret {| headersSet := headers; sent := Some (code, body) |}
      | RateLimit.Next hs => runPreHandlers rest req (headers ++ hs)
      end
  end.

(** The quota hooks of [POST /api/chat], after authentication has attached
    the tenant to the request. *)
Definition chatQuotaHooks
    : list (RateLimit.Request -> Redis.M RateLimit.Outcome) :=
  [RateLimit.rateLimiter; RateLimit.checkMonthlyLimit].

(** The calls of [checkMonthlyLimit] of one tenant, one after the other,
    on the same store. *)
Fixpoint checkMonthlyLimitSeq (reqs : list RateLimit.Request)
    (r : Redis.Client) : list (Exc RateLimit.Outcome) * Redis.Client :=
  match reqs with
  | [] => ([], r)
  | req :: rest =>
      let '(o, r') := RateLimit.checkMonthlyLimit req r in
      let '(os, r'') := checkMonthlyLimitSeq rest r' in
      (o :: os, r'')
  end.

(** The requests of one tenant in one calendar month. *)
Definition sameMonth (t : RateLimit.Tenant) (month : string)
    (req : RateLimit.Request) : Prop :=
  RateLimit.tenant req = Some t /\ RateLimit.currentMonth req = month.

End Hooks.

(** ** What an ingestion writes *)

Module Ingest.

(** One section written by [registerData]: the submitted section, the
    identifier it was given, its chunks, their embeddings and the
    identifiers given to the chunk rows. *)
Record Entry := {
  e_section : Data.SectionInput;
  e_id : string;
  e_chunks : list string;
  e_embeddings : list Embedding;
  e_chunkIds : list string
}.

(** The section document of an entry. *)
Definition docOf (tenantId : string) (e : Entry) : SectionDoc :=
  {| s_tenantId := tenantId; s_sectionId := e_id e;
     s_type := Data.type (e_section e); s_title := Data.title (e_section e);
     s_content := Data.content (e_section e);
     s_chunkCount := length (e_chunks e); s_status := "completed" |}.

(** The chunk rows of a section, from position [index] on. *)
Fixpoint rowsFrom (tenantId sectionId : string) (section : Data.SectionInput)
    (embeddings : list Embedding) (index : nat) (chunks ids : list string)
    : list ChunkDoc :=
  match chunks, ids with
  | text :: chunks', id :: ids' =>
      {| c_tenantId := tenantId; c_sectionId := sectionId; c_chunkId := id;
         c_sectionType := Data.type section;
         c_sectionTitle := Data.title section; c_text := text;
         c_embedding := embeddings !! index; c_position := index |}
      :: rowsFrom tenantId sectionId section embeddings (S index) chunks' ids'
  | _, _ => []
  end.

Definition rowsOfEntry (tenantId : string) (e : Entry) : list ChunkDoc :=
  rowsFrom tenantId (e_id e) (e_section e) (e_embeddings e) 0
    (e_chunks e) (e_chunkIds e).

(** An entry is what the loop body computes for its section. *)
Definition wellMade
    (generateEmbeddings : list string -> Exc (list Embedding))
    (n0 : nat) (e : Entry) : Prop :=
  Chunker.chunkText (Data.content (e_section e))
    CHUNK_CONFIG.size CHUNK_CONFIG.overlap = Some (e_chunks e)
  /\ e_chunks e <> []
  /\ generateEmbeddings (e_chunks e) = Ret (e_embeddings e)
  /\ length (e_chunkIds e) = length (e_chunks e)
  /\ Data.generatedFrom n0 (e_id e).

End Ingest.

(** ** Reading, replacing and deleting sections
    ([services/data.service.js]) *)

Module DataOps.

(** [chunksCollection.deleteMany({ tenantId, sectionId })]: the number of
    rows deleted. *)
Definition deleteMany (tenantId sectionId : string) : Data.M nat :=
  Data.command (fun db =>
    (length (Data.rowsOf tenantId sectionId (Data.chunksCollection db)),
     {| Data.sectionsCollection := Data.sectionsCollection db;
        Data.chunksCollection :=
          filter (fun c => ~ (c_tenantId c = tenantId
                              /\ c_sectionId c = sectionId))
            (Data.chunksCollection db);
        Data.nextId := Data.nextId db; Data.faults := Data.faults db |})).

(** The database once [deleteMany] has removed the rows of a section. *)
Definition emptied (tenantId sectionId : string) (db : Data.Db) : Data.Db :=
  {| Data.sectionsCollection := Data.sectionsCollection db;
     Data.chunksCollection :=
       filter (fun c => ~ (c_tenantId c = tenantId
                           /\ c_sectionId c = sectionId))
         (Data.chunksCollection db);
     Data.nextId := Data.nextId db; Data.faults := Data.faults db |}.

(** The documents left when the first one selected by the filter is
    removed. *)
Fixpoint removeFirst (tenantId sectionId : string) (docs : list SectionDoc)
    : list SectionDoc :=
  match docs with
  | [] => []
  | d :: rest =>
      if decide (s_tenantId d = tenantId /\ s_sectionId d = sectionId)
      then rest else d :: removeFirst tenantId sectionId rest
  end.

(** [sectionsCollection.deleteOne({ tenantId, sectionId })]: its
    [deletedCount]. *)
Definition deleteOne (tenantId sectionId : string) : Data.M nat :=
  Data.command (fun db =>
    (match Data.findSection tenantId sectionId db with
     | Some _ => 1%nat
     | None => 0%nat
     end,
     {| Data.sectionsCollection :=
          removeFirst tenantId sectionId (Data.sectionsCollection db);
        Data.chunksCollection := Data.chunksCollection db;
        Data.nextId := Data.nextId db; Data.faults := Data.faults db |})).

(** [sectionsCollection.findOne({ tenantId, sectionId })] as a
    command. *)
Definition findOne (tenantId sectionId : string)
    : Data.M (option SectionDoc) :=
  Data.command (fun db => (Data.findSection tenantId sectionId db, db)).

(** The first document selected by the filter, changed by a [$set]. *)
Fixpoint setFirst (tenantId sectionId : string) (set : SectionDoc -> SectionDoc)
    (docs : list SectionDoc) : list SectionDoc :=
  match docs with
  | [] => []
  | d :: rest =>
      if decide (s_tenantId d = tenantId /\ s_sectionId d = sectionId)
      then set d :: rest else d :: setFirst tenantId sectionId set rest
  end.

(** [sectionsCollection.updateOne({ tenantId, sectionId }, { $set })] *)
Definition updateOne (tenantId sectionId : string)
    (set : SectionDoc -> SectionDoc) : Data.M unit :=
  Data.command (fun db =>
    (tt,
     {| Data.sectionsCollection :=
          setFirst tenantId sectionId set (Data.sectionsCollection db);
        Data.chunksCollection := Data.chunksCollection db;
        Data.nextId := Data.nextId db; Data.faults := Data.faults db |})).

(** [getSection(tenantId, sectionId)] *)
Definition getSection (tenantId sectionId : string) : Data.M SectionDoc :=
  tryCatch
    (section <- findOne tenantId sectionId ;;
     match section with
     | Some d => ret d
     | None => throw "Section not found"
     end)
    (fun e => throw e).

Record Deleted := {
  d_sectionId : string;
  chunksDeleted : nat
}.

(** [deleteSection(tenantId, sectionId)] *)
Definition deleteSection (tenantId sectionId : string) : Data.M Deleted :=
  tryCatch
    (chunksResult <- deleteMany tenantId sectionId ;;
     sectionResult <- deleteOne tenantId sectionId ;;
     if (sectionResult =? 0)%nat then throw "Section not found"
     else ret {| d_sectionId := sectionId; chunksDeleted := chunksResult |})
    (fun e => throw e).

(** The fields of [updates] the model keeps; a field left out of the
    request is [None]. *)
Record Updates := {
  u_title : option string;
  u_content : option string
}.

(** A string used as a condition: [undefined] and the empty string are
    falsy. *)
Definition truthy (o : option string) : option string :=
  match o with
  | Some s => if JS.nonEmpty s then Some s else None
  | None => None
  end.

(** [if (title) updateDoc.title = title] *)
Definition setTitle (title : option string) (d : SectionDoc) : SectionDoc :=
  match truthy title with
  | Some t =>
      {| s_tenantId := s_tenantId d; s_sectionId := s_sectionId d;
         s_type := s_type d; s_title := t; s_content := s_content d;
         s_chunkCount := s_chunkCount d; s_status := s_status d |}
  | None => d
  end.

Definition setContent (content : string) (chunkCount : nat) (d : SectionDoc)
    : SectionDoc :=
  {| s_tenantId := s_tenantId d; s_sectionId := s_sectionId d;
     s_type := s_type d; s_title := s_title d; s_content := content;
     s_chunkCount := chunkCount; s_status := s_status d |}.

Section WithEmbedder.

Variable generateEmbeddings : list string -> Exc (list Embedding).

(** [updateSection(tenantId, sectionId, updates)] *)
Definition updateSection (tenantId sectionId : string) (updates : Updates)
    : Data.M SectionDoc :=
  tryCatch
    (_ <- match truthy (u_content updates) with
          | Some content =>
              if negb (JS.nonEmpty (JS.trim content))
              then throw "Content cannot be empty"
              else
                _ <- deleteMany tenantId sectionId ;;
                match Chunker.chunkText content
                        CHUNK_CONFIG.size CHUNK_CONFIG.overlap with
                | None => throw "chunkText does not return"
                | Some chunks =>
                    if (length chunks =? 0)%nat
                    then throw
                           "Content is too short or invalid to create chunks"
                    else
                      embeddings <- liftExc (generateEmbeddings chunks) ;;
                      section <- getSection tenantId sectionId ;;
                      chunkDocs <-
                        Data.chunkDocsFrom tenantId sectionId
                          {| Data.type := s_type section;
                             Data.title :=
                               default (s_title section)
                                 (truthy (u_title updates));
                             Data.content := content |}
                          embeddings 0 chunks ;;
                      _ <- (if (0 <? length chunkDocs)%nat
                            then Data.insertMany chunkDocs else ret tt) ;;
                      updateOne tenantId sectionId
                        (fun d => setTitle (u_title updates)
                                    (setContent content (length chunks) d))
                end
          | None =>
              updateOne tenantId sectionId (setTitle (u_title updates))
          end ;;
     getSection tenantId sectionId)
    (fun e => throw e).

End WithEmbedder.

End DataOps.

(** ** Reading the chunks of a section
    ([getChunksBySection] in [services/vector-search.service.js]) *)

Module SectionChunks.

(** The projection [{ chunkId, text, position }]. *)
Record ChunkView := {
  v_chunkId : string;
  v_text : string;
  v_position : nat
}.

Definition view (c : ChunkDoc) : ChunkView :=
  {| v_chunkId := c_chunkId c; v_text := c_text c;
     v_position := c_position c |}.

(** [cursor.sort({ position: 1 })]; rows with the same position are kept
    in collection order. *)
Fixpoint insertByPosition (x : ChunkDoc) (l : list ChunkDoc) : list ChunkDoc :=
  match l with
  | [] => [x]
  | y :: rest =>
      if (c_position x <=? c_position y)%nat then x :: y :: rest
      else y :: insertByPosition x rest
  end.

Fixpoint sortByPosition (l : list ChunkDoc) : list ChunkDoc :=
  match l with
  | [] => []
  | x :: rest => insertByPosition x (sortByPosition rest)
  end.

(** [getChunksBySection(tenantId, sectionId)] *)
Definition getChunksBySection (b : Search.Backend)
    (tenantId sectionId : string) : Exc (list ChunkView) :=
  excCatch
    (if Search.findRejects b then Throw "find rejected"
     else Ret (view <$> sortByPosition
                 (Data.rowsOf tenantId sectionId (Search.chunksCollection b))))
    (fun e => Throw e).


End SectionChunks.

(** ** The embedding service
    ([services/embedding.service.js]) *)

Module Embedder.

(** ToInt32 of an integer. *)
Definition toInt32 (z : Z) : Z := (z + 2 ^ 31) mod 2 ^ 32 - 2 ^ 31.

(** [((acc << 5) - acc) + char.charCodeAt(0)] *)
Definition hashStep (acc : Z) (c : ascii) : Z :=
  (toInt32 (acc * 2 ^ 5) - acc) + Z.of_N (N_of_ascii c).

(** [text.split('').reduce(..., 0)] *)
Fixpoint hashFrom (text : string) (acc : Z) : Z :=
  match text with
  | EmptyString => acc
  | String c rest => hashFrom rest (hashStep acc c)
  end.

Definition dimension : nat := 768.

Section WithSine.

(** [Math.sin(seed * 0.001) * 0.5] as computed in doubles, for the integer
    [seed = hash + i]; a double is a rational. *)
Variable sineHalf : Z -> Q.

(** [generateMockEmbedding(text)] *)
Definition generateMockEmbedding (text : string) : Embedding :=
  let hash := hashFrom text 0 in
  (fun i => sineHalf (hash + Z.of_nat i)) <$> seq 0 dimension.

(** [generateEmbedding(text)] *)
Definition generateEmbedding (text : string) : Exc Embedding :=
  excCatch (Ret (generateMockEmbedding text)) (fun e => Throw e).

(** [generateEmbeddings(texts)] *)
Definition generateEmbeddings (texts : list string) : Exc (list Embedding) :=
  excCatch (Ret (generateMockEmbedding <$> texts)) (fun e => Throw e).

End WithSine.

End Embedder.

(** ** Strings that are not blank *)

Module Visible.

(** The string has a character that [trim] and [\s] do not count as
    whitespace. *)
Fixpoint hasVisible (s : string) : bool :=
  match s with
  | EmptyString => false
  | String c s' => negb (JS.isWhitespace c) || hasVisible s'
  end.

(** The string is empty or starts with a character that is not
    whitespace. *)
Definition startsVisible (s : string) : bool :=
  match s with
  | EmptyString => true
  | String c _ => negb (JS.isWhitespace c)
  end.

End Visible.

(** ** A database with one stored section, for the examples *)

Module Seeded.

Definition shippingDoc : SectionDoc :=
  {| s_tenantId := "ten_acme"; s_sectionId := "sec_1"; s_type := "policy";
     s_title := "Delivery";
     s_content := "We offer free shipping on orders over $50";
     s_chunkCount := 1; s_status := "completed" |}.

Definition db (f : list bool) : Data.Db :=
  {| Data.sectionsCollection := [shippingDoc];
     Data.chunksCollection := [Fixtures.shippingChunk; Fixtures.returnsChunk];
     Data.nextId := 3; Data.faults := f |}.

Definition newContent : DataOps.Updates :=
  {| DataOps.u_title := Some "Shipping";
     DataOps.u_content := Some "Orders ship within two days" |}.

(** An update whose content is the empty string. *)
Definition emptyContent : DataOps.Updates :=
  {| DataOps.u_title := Some "Shipping"; DataOps.u_content := Some "" |}.

(** The embedding service is out of order. *)
Definition noEmbeddings (texts : list string) : Exc (list Embedding) :=
  Throw "embedding service unavailable".

End Seeded.

(** ** String values in Redis ([get], [set] and [del] of [db/redis.js])

    The values kept under a key are JSON texts; [V] is what they parse
    to, so that [JSON.parse (JSON.stringify v)] is [v]. *)

Module Store.

Record Client (V : Type) := {
  client : bool;
  isConnected : bool;
  entries : gmap string V;
  ttl : gmap string Z;
  faults : list bool
}.
Arguments client {V} _.
Arguments isConnected {V} _.
Arguments entries {V} _.
Arguments ttl {V} _.
Arguments faults {V} _.

Section WithValue.
Context {V : Type}.

Definition M (A : Type) : Type := StateExc (Client V) A.

Definition withFaults (f : list bool) (r : Client V) : Client V :=
  {| client := client r; isConnected := isConnected r; entries := entries r;
     ttl := ttl r; faults := f |}.

(** A command sent through the underlying client. *)
Definition command {A} (run : Client V -> A * Client V) : M A :=
  fun r => match faults r with
           | true :: fs => (Throw "command rejected", withFaults fs r)
           | false :: fs => let '(a, r') := run (withFaults fs r) in (Ret a, r')
           | [] => let '(a, r') := run r in (Ret a, r')
           end.

(** Server side of GET, of SET (with or without EX) and of DEL. *)
Definition serverGet (key : string) (r : Client V) : option V * Client V :=
  (entries r !! key, r).

Definition serverSet (key : string) (value : V) (ex : option Z)
    (r : Client V) : string * Client V :=
  ("OK",
   {| client := client r; isConnected := isConnected r;
      entries := <[key := value]> (entries r);
      ttl := match ex with
             | Some seconds => <[key := seconds]> (ttl r)
             | None => delete key (ttl r)
             end;
      faults := faults r |}).

Definition serverDel (key : string) (r : Client V) : Z * Client V :=
  (match entries r !! key with Some _ => 1 | None => 0 end,
   {| client := client r; isConnected := isConnected r;
      entries := delete key (entries r); ttl := delete key (ttl r);
      faults := faults r |}).

(** The guard and the [try]/[catch] of every method of the wrapper. *)
Definition guarded {A} (op : M A) : M (option A) :=
  fun r =>
    if negb (client r) || negb (isConnected r) then (Ret None, r)
    else tryCatch (a <- op ;; ret (Some a)) (fun _ => ret None) r.

(** [redis.get(key)] *)
Definition get (key : string) : M (option V) :=
  r <- guarded (command (serverGet key)) ;; ret (mjoin r).

(** [redis.set(key, value, ttl)]: [if (ttl)] sends [EX] for a time to
    live that is neither [null] nor 0. *)
Definition set (key : string) (value : V) (ttl : option Z)
    : M (option string) :=
  guarded (command (serverSet key value
                      (match ttl with
                       | Some seconds =>
                           if seconds =? 0 then None else Some seconds
                       | None => None
                       end))).

(** [redis.del(key)] *)
Definition del (key : string) : M (option Z) :=
  guarded (command (serverDel key)).

(** The store is reachable and no coming command is rejected. *)
Definition healthy (r : Client V) : Prop :=
  client r = true /\ isConnected r = true /\ faults r = [].

(** The wrapper has no client, or has lost its connection. *)
Definition unavailable (r : Client V) : Prop :=
  client r = false \/ isConnected r = false.

End WithValue.

End Store.

(** ** Conversation history ([services/chat.service.js]) *)

Module History.

Record Message := {
  role : string;
  content : string
}.

Definition M (A : Type) : Type := StateExc (Store.Client (list Message)) A.

Definition historyKey (sessionId : string) : string :=
  "session:" +:+ sessionId.

(** [getHistory(sessionId)] *)
Definition getHistory (sessionId : string) : M (list Message) :=
  tryCatch
    (historyData <- Store.get (historyKey sessionId) ;;
     match historyData with
     | None => ret []
     | Some history => ret history
     end)
    (fun _ => ret []).

(** The two messages [history.push] appends. *)
Definition exchange (query response : string) : list Message :=
  [{| role := "user"; content := query |};
   {| role := "assistant"; content := response |}].

(** [saveToHistory(sessionId, query, response)] *)
Definition saveToHistory (sessionId query response : string) : M unit :=
  tryCatch
    (history <- getHistory sessionId ;;
     let history := (history ++ exchange query response)%list in
     let trimmedHistory :=
       JS.slice history (-20) (Z.of_nat (length history)) in
     _ <- Store.set (historyKey sessionId) trimmedHistory (Some 3600) ;;
     ret tt)
    (fun _ => ret tt).

(** [clearHistory(sessionId)] *)
Definition clearHistory (sessionId : string) : M unit :=
  tryCatch (_ <- Store.del (historyKey sessionId) ;; ret tt)
    (fun _ => ret tt).

(** A conversation: [saveToHistory] once per exchange, in order. *)
Fixpoint saveAll (sessionId : string) (exchanges : list (string * string))
    : M unit :=
  match exchanges with
  | [] => ret tt
  | (query, response) :: rest =>
      _ <- saveToHistory sessionId query response ;;
      saveAll sessionId rest
  end.

(** The messages of a conversation, oldest first. *)
Definition transcript (exchanges : list (string * string)) : list Message :=
  concat ((fun qr => exchange (fst qr) (snd qr)) <$> exchanges).

(** A store with sessions only. *)
Definition sessions (e : gmap string (list Message)) (f : list bool)
    : Store.Client (list Message) :=
  {| Store.client := true; Store.isConnected := true; Store.entries := e;
     Store.ttl := ∅; Store.faults := f |}.

End History.

(** ** Chat with retrieval ([processQuery] in [services/chat.service.js]) *)

Module Chat.

(** What [processQuery] reads of [request.tenant]. *)
Record Tenant := {
  businessName : string;
  limits : Limits
}.

(** [options]: [sessionId] is [None] when it is left out or [null]. *)
Record QueryOptions := {
  sessionId : option string;
  includeMetadata : bool
}.

Record Source := {
  src_sectionId : string;
  src_title : string;
  src_type : string;
  src_score : Q
}.

Record Metadata := {
  searchResultsCount : nat;
  averageScore : Q;
  tokensUsed : Z
}.

Record Reply := {
  answer : string;
  confidence : string;
  sources : list Source;
  metadata : option Metadata
}.

(** The request sent to [groq.chat.completions.create]; its [temperature]
    is always 0.7. *)
Record Completion := {
  model : string;
  messages : list History.Message;
  max_tokens : Z
}.

(** The session store, the requests sent to Groq so far and the delays
    waited between them. *)
Record World := {
  sessions : Store.Client (list History.Message);
  asked : list Completion;
  slept : list Z
}.

Definition M (A : Type) : Type := StateExc World A.

Definition liftSessions {A} (m : History.M A) : M A :=
  fun w =>
    let '(x, s) := m (sessions w) in
    (x, {| sessions := s; asked := asked w; slept := slept w |}).

Definition nl : string := String (ascii_of_N 10) "".

Definition noInformation : string :=
  "I don't have enough information to answer that question. "
  +:+ "Please provide more context or rephrase your question.".

Definition noResponse : string := "I couldn't generate a response.".

(** [buildSystemPrompt(businessName)] *)
Definition buildSystemPrompt (businessName : string) : string :=
  "You are a helpful AI assistant for " +:+ businessName +:+ ". " +:+ nl
  +:+ "Your role is to answer customer questions accurately based on the provided context."
  +:+ nl +:+ nl
  +:+ "Guidelines:" +:+ nl
  +:+ "- Answer questions using ONLY the information provided in the context"
  +:+ nl
  +:+ "- Be concise and helpful" +:+ nl
  +:+ "- If the context doesn't contain enough information, acknowledge the limitation"
  +:+ nl
  +:+ "- Maintain a professional and friendly tone" +:+ nl
  +:+ "- Do not make up information that isn't in the context".

(** [buildUserPrompt(query, context)] *)
Definition buildUserPrompt (query context : string) : string :=
  "Context Information:" +:+ nl
  +:+ context +:+ nl +:+ nl
  +:+ "User Question: " +:+ query +:+ nl +:+ nl
  +:+ "Please provide a helpful answer based on the context above.".

(** The context built from the search results. *)
Definition contextOf (searchResults : list Search.Passage) : string :=
  JS.join (nl +:+ nl)
    (imap (fun idx result =>
             "[" +:+ pretty (idx + 1)%nat +:+ "] "
             +:+ Search.sectionTitle result +:+ ": " +:+ Search.text result)
       searchResults).

(** The options of the search: [{ limit: 5, minScore: 0.70 }]. *)
Definition searchOptions : Search.Options :=
  {| Search.optLimit := Some 5%nat; Search.optMinScore := Some (70 # 100);
     Search.optSectionType := None |}.

(** The doubles written [0.85] and [0.70]. *)
Definition highThreshold : Q := 7656119366529843 # 9007199254740992.
Definition mediumThreshold : Q := 3152519739159347 # 4503599627370496.

Definition toSource (r : Search.Passage) : Source :=
  {| src_sectionId := Search.sectionId r; src_title := Search.sectionTitle r;
     src_type := Search.sectionType r; src_score := Search.score r |}.

Section WithGroq.

Context {engine : Search.RegexEngine}.

(** [process.env.CHAT_MODEL] *)
Variable CHAT_MODEL : option string.

(** The outcome of the call of [groq.chat.completions.create] made after
    [n] earlier ones: the [content] of the message of the first choice,
    if there is one, or the rejection. *)
Variable groq : nat -> Completion -> Exc (option string).

(** Addition and division of doubles; a double is a rational. *)
Variable fadd fdiv : Q -> Q -> Q.

(** [retryWithBackoff(async () => groq.chat.completions.create(request))]
    with the default three attempts and 1000 ms. *)
Definition callGroq (request : Completion) : M (option string) :=
  fun w =>
    let run :=
      Helpers.retryWithBackoff
        (fun i => groq (length (asked w) + i) request) 3 1000 in
    let w' := {| sessions := sessions w;
                 asked := asked w ++ replicate (Helpers.calls run) request;
                 slept := slept w ++ Helpers.delays run |} in
    match Helpers.settled run with
    | Helpers.Resolved result => (Ret result, w')
    | Helpers.Rejected (Some error) => (Throw error, w')
    | Helpers.Rejected None => (Throw "undefined", w')
    end.

(** [searchResults.reduce((sum, r) => sum + r.score, 0)
    / searchResults.length] *)
Definition averageOf (searchResults : list Search.Passage) : Q :=
  fdiv (foldl (fun sum r => fadd sum (Search.score r)) 0%Q searchResults)
    (inject_Z (Z.of_nat (length searchResults))).

Definition confidenceOf (avgScore : Q) : string :=
  if negb (Qle_bool avgScore highThreshold) then "high"
  else if negb (Qle_bool avgScore mediumThreshold) then "medium"
  else "low".

(** The request built for a query, its search results and the history of
    the session. *)
Definition requestFor (tenant : Tenant) (query : string)
    (searchResults : list Search.Passage) (history : list History.Message)
    : Completion :=
  {| model := default "llama-3.3-70b-versatile" (DataOps.truthy CHAT_MODEL);
     messages :=
       {| History.role := "system";
          History.content := buildSystemPrompt (businessName tenant) |}
       :: history
       ++ [{| History.role := "user";
              History.content :=
                buildUserPrompt query (contextOf searchResults) |}];
     max_tokens := Z.min (tokensPerRequest (limits tenant)) 2048 |}.

(** [processQuery(tenantId, tenant, query, options)] over the search
    backend [b]. *)
Definition processQuery (b : Search.Backend) (tenantId : string)
    (tenant : Tenant) (query : string) (options : QueryOptions) : M Reply :=
  tryCatch
    (searchResults <-
       liftExc (Search.search b tenantId query searchOptions) ;;
     if (length searchResults =? 0)%nat
     then ret {| answer := noInformation; confidence := "low";
                 sources := []; metadata := None |}
     else
       let context := contextOf searchResults in
       history <- match DataOps.truthy (sessionId options) with
                  | Some session => liftSessions (History.getHistory session)
                  | None => ret []
                  end ;;
       result <- callGroq (requestFor tenant query searchResults history) ;;
       let response := default noResponse (DataOps.truthy result) in
       _ <- match DataOps.truthy (sessionId options) with
            | Some session =>
                liftSessions (History.saveToHistory session query response)
            | None => ret tt
            end ;;
       let avgScore := averageOf searchResults in
       ret {| answer := response;
              confidence := confidenceOf avgScore;
              sources := toSource <$> searchResults;
              metadata :=
                if includeMetadata options
                then Some {| searchResultsCount := length searchResults;
                             averageScore := avgScore;
                             tokensUsed :=
                               Helpers.estimateTokens
                                 (context +:+ query +:+ response) |}
                else None |})
    (fun e => throw e).

End WithGroq.

(** A tenant, a store of passages and a model that answers, for the
    examples. *)
Definition acme : Tenant :=
  {| businessName := "Acme"; limits := PLANS FREE |}.

Definition globex : Tenant :=
  {| businessName := "Globex"; limits := PLANS PRO |}.

Definition shippingPassage : Search.Passage :=
  Search.project Fixtures.shippingChunk (9 # 10).

(** The vector index answers every query with one passage. *)
Definition indexed : Search.Backend :=
  {| Search.chunksCollection := [Fixtures.shippingChunk];
     Search.findRejects := false;
     Search.vectorTier := fun _ _ _ _ _ => Ret [shippingPassage];
     Search.textTier := fun _ _ _ _ => Ret [] |}.

Definition answers (n : nat) (request : Completion) : Exc (option string) :=
  Ret (Some "We ship worldwide.").

Definition overloaded (n : nat) (request : Completion)
    : Exc (option string) :=
  Throw "rate limit reached".

Definition quiet : World :=
  {| sessions := History.sessions ∅ []; asked := []; slept := [] |}.

End Chat.

(** ** Tenants and their cache ([services/tenant.service.js]) *)

Module Tenants.

(** A document of the [tenants] collection; [apiKeys] holds the
    [keyHash] of each key. *)
Record TenantDoc := {
  tenantId : string;
  email : string;
  businessName : string;
  plan : string;
  limits : Limits;
  apiKeys : list string;
  status : string
}.

(** What a cached string parses to: the JSON text of a tenant under a
    [tenant:] key, or a bare tenant identifier under an [apikey:] key. *)
Inductive Cached :=
| CachedTenant (tenant : TenantDoc)
| CachedId (id : string).

(** The collection, the schedule of the coming database commands and the
    cache. *)
Record World := {
  tenants : list TenantDoc;
  dbFaults : list bool;
  cache : Store.Client Cached
}.

Definition M (A : Type) : Type := StateExc World A.

Definition liftCache {A} (m : Store.M (V := Cached) A) : M A :=
  fun w =>
    let '(x, c) := m (cache w) in
    (x, {| tenants := tenants w; dbFaults := dbFaults w; cache := c |}).

(** A command sent to the database. *)
Definition dbCommand {A} (run : list TenantDoc -> A * list TenantDoc) : M A :=
  fun w =>
    let go fs :=
      let '(a, docs) := run (tenants w) in
      (Ret a, {| tenants := docs; dbFaults := fs; cache := cache w |}) in
    match dbFaults w with
    | true :: fs =>
        (Throw "database command rejected",
         {| tenants := tenants w; dbFaults := fs; cache := cache w |})
    | false :: fs => go fs
    | [] => go []
    end.

(** The filters [{ tenantId, status: 'active' }] and [{ tenantId }]. *)
Definition activeWithId (id : string) (t : TenantDoc) : bool :=
  bool_decide (tenantId t = id) && bool_decide (status t = "active").

Definition withId (id : string) (t : TenantDoc) : bool :=
  bool_decide (tenantId t = id).

(** [collection.findOne(filter)] *)
Definition findOne (sel : TenantDoc -> bool) : M (option TenantDoc) :=
  dbCommand (fun docs => (List.find sel docs, docs)).

(** The first document selected by the filter, changed by [$set]. *)
Fixpoint setFirst (sel : TenantDoc -> bool) (set : TenantDoc -> TenantDoc)
    (docs : list TenantDoc) : list TenantDoc :=
  match docs with
  | [] => []
  | t :: rest =>
      if sel t then set t :: rest else t :: setFirst sel set rest
  end.

(** [collection.updateOne(filter, { $set })]: its [matchedCount]. *)
Definition updateOne (sel : TenantDoc -> bool) (set : TenantDoc -> TenantDoc)
    : M nat :=
  dbCommand (fun docs =>
    (match List.find sel docs with Some _ => 1%nat | None => 0%nat end,
     setFirst sel set docs)).

Definition tenantKey (id : string) : string := "tenant:" +:+ id.

(** A cached string used as a condition: a JSON text is never empty. *)
Definition truthyCached (c : option Cached) : option Cached :=
  match c with
  | Some (CachedId "") => None
  | _ => c
  end.

(** [JSON.parse(cached)]: a bare identifier is not a JSON text. *)
Definition parseTenant (c : Cached) : Exc TenantDoc :=
  match c with
  | CachedTenant t => Ret t
  | CachedId _ => Throw "Unexpected token in JSON"
  end.

(** [CACHE_TTL.tenant] *)
Definition tenantTtl : Z := 3600.

(** [getTenant(tenantId)] *)
Definition getTenant (id : string) : M TenantDoc :=
  tryCatch
    (cached <- liftCache (Store.get (tenantKey id)) ;;
     match truthyCached cached with
     | Some c => liftExc (parseTenant c)
     | None =>
         tenant <- findOne (activeWithId id) ;;
         match tenant with
         | None => throw "Tenant not found"
         | Some t =>
             _ <- liftCache
                    (Store.set (tenantKey id) (CachedTenant t)
                       (Some tenantTtl)) ;;
             ret t
         end
     end)
    (fun e => throw e).

(** [String.prototype.toUpperCase] on code units below 256; the three
    letters whose capital lies beyond (the sharp s, the micro sign and the
    y with diaeresis) are left as they are. *)
Definition upperChar (c : ascii) : ascii :=
  let n := N_of_ascii c in
  if (((97 <=? n) && (n <=? 122))
      || ((224 <=? n) && (n <=? 254) && negb (n =? 247)))%N
  then ascii_of_N (n - 32) else c.

Fixpoint toUpperCase (s : string) : string :=
  match s with
  | EmptyString => EmptyString
  | String c s' => String (upperChar c) (toUpperCase s')
  end.

(** [PLANS[key]] *)
Definition planConfig (key : string) : option Plan :=
  if String.eqb key "FREE" then Some FREE
  else if String.eqb key "PRO" then Some PRO
  else if String.eqb key "ENTERPRISE" then Some ENTERPRISE
  else None.

Definition setPlan (newPlan : string) (newLimits : Limits) (t : TenantDoc)
    : TenantDoc :=
  {| tenantId := tenantId t; email := email t;
     businessName := businessName t; plan := newPlan; limits := newLimits;
     apiKeys := apiKeys t; status := status t |}.

Definition setStatus (newStatus : string) (t : TenantDoc) : TenantDoc :=
  {| tenantId := tenantId t; email := email t;
     businessName := businessName t; plan := plan t; limits := limits t;
     apiKeys := apiKeys t; status := newStatus |}.

(** [changePlan(tenantId, newPlan)] *)
Definition changePlan (id newPlan : string) : M TenantDoc :=
  tryCatch
    (match planConfig (toUpperCase newPlan) with
     | None => throw "Invalid plan"
     | Some p =>
         _ <- updateOne (activeWithId id) (setPlan newPlan (PLANS p)) ;;
         _ <- liftCache (Store.del (tenantKey id)) ;;
         getTenant id
     end)
    (fun e => throw e).

(** [deleteTenant(tenantId)] *)
Definition deleteTenant (id : string) : M unit :=
  tryCatch
    (_ <- updateOne (withId id) (setStatus "deleted") ;;
     _ <- liftCache (Store.del (tenantKey id)) ;;
     ret tt)
    (fun e => throw e).

(** The database and the cache answer. *)
Definition healthy (w : World) : Prop :=
  dbFaults w = [] /\ Store.healthy (cache w).

(** The index [{ tenantId: 1 }, { unique: true }]. *)
Definition uniqueIds (docs : list TenantDoc) : Prop :=
  NoDup (tenantId <$> docs).

(** A tenant on the free plan, for the examples. *)
Definition acme : TenantDoc :=
  {| tenantId := "ten_acme"; email := "ops@acme.test";
     businessName := "Acme"; plan := "free"; limits := PLANS FREE;
     apiKeys := ["3f2a"]; status := "active" |}.

Definition world (docs : list TenantDoc) (cached : gmap string Cached)
    (cacheFaults : list bool) : World :=
  {| tenants := docs; dbFaults := [];
     cache := {| Store.client := true; Store.isConnected := true;
                 Store.entries := cached; Store.ttl := ∅;
                 Store.faults := cacheFaults |} |}.

End Tenants.

(** ** Text extracted from an uploaded document
    ([services/document-parser.service.js]) *)

Module Parser.

Definition space : ascii := ascii_of_N 32.
Definition newline : ascii := ascii_of_N 10.

(** The string starts with the character [c]. *)
Definition startsWith (c : ascii) (s : string) : bool :=
  match s with
  | String d _ => Ascii.eqb d c
  | EmptyString => false
  end.

Definition tailOf (s : string) : string :=
  match s with
  | String _ rest => rest
  | EmptyString => EmptyString
  end.

(** [text.replace(/  +/g, ' ')]: a run of two or more spaces becomes one
    space. *)
Fixpoint collapseSpaces (s : string) : string :=
  match s with
  | EmptyString => EmptyString
  | String c rest =>
      if Ascii.eqb c space && startsWith space rest
      then collapseSpaces rest
      else String c (collapseSpaces rest)
  end.

(** [text.replace(/\n{3,}/g, '\n\n')]: a run of three or more newlines
    becomes two. *)
Fixpoint collapseNewlines (s : string) : string :=
  match s with
  | EmptyString => EmptyString
  | String c rest =>
      if Ascii.eqb c newline && startsWith newline rest
         && startsWith newline (tailOf rest)
      then collapseNewlines rest
      else String c (collapseNewlines rest)
  end.

(** [text.split('\n')]; [cur] is the line being read, reversed. *)
Fixpoint splitLines (s : string) (cur : string) : list string :=
  match s with
  | EmptyString => [JS.revString cur ""]
  | String c rest =>
      if Ascii.eqb c newline
      then JS.revString cur "" :: splitLines rest ""
      else splitLines rest (String c cur)
  end.

(** [cleanText(text)] *)
Definition cleanText (text : string) : string :=
  if negb (JS.nonEmpty text) then ""
  else
    JS.trim
      (JS.join (String newline "")
         (JS.trim <$> splitLines (collapseNewlines (collapseSpaces text)) "")).

(** [validateContent(content, filename)] *)
Definition validateContent (content filename : string) : Exc bool :=
  if negb (JS.nonEmpty content)
     || (String.length (JS.trim content) =? 0)%nat
  then Throw ("File " +:+ Data.quote +:+ filename +:+ Data.quote
              +:+ " contains no extractable text. "
              +:+ "Please ensure the file has readable content.")
  else if (String.length (JS.trim content) <? 10)%nat
  then Throw ("File " +:+ Data.quote +:+ filename +:+ Data.quote
              +:+ " has insufficient content (less than 10 characters). "
              +:+ "Please provide files with more substantial content.")
  else Ret true.

(** No two spaces follow each other. *)
Fixpoint noDoubleSpace (s : string) : bool :=
  match s with
  | EmptyString => true
  | String c rest =>
      negb (Ascii.eqb c space && startsWith space rest) && noDoubleSpace rest
  end.

(** The section the upload route builds from a parsed file. *)
Definition sectionOf (filename content : string) : Data.SectionInput :=
  {| Data.type := "document"; Data.title := filename;
     Data.content := content |}.

End Parser.

(** ** Authentication by API key ([getTenantByApiKey] and [revokeApiKey]
    in [services/tenant.service.js], [authenticate] in
    [middleware/auth.js]) *)

Module ApiKeys.

(** What the projection [{ 'apiKeys.$': 1, tenantId: 1, email: 1,
    businessName: 1, plan: 1, limits: 1 }] keeps of a tenant: of the keys,
    the one that matched. *)
Record Projected := {
  p_tenantId : string;
  p_email : string;
  p_businessName : string;
  p_plan : string;
  p_limits : Limits;
  p_apiKeys : list string
}.

(** The tenant that [getTenantByApiKey] returns: the whole document when
    it comes from [getTenant], the projection when it comes from the
    query. *)
Inductive Found :=
| Whole (tenant : Tenants.TenantDoc)
| Part (tenant : Projected).

Definition foundId (f : Found) : string :=
  match f with
  | Whole t => Tenants.tenantId t
  | Part p => p_tenantId p
  end.

Definition foundLimits (f : Found) : Limits :=
  match f with
  | Whole t => Tenants.limits t
  | Part p => p_limits p
  end.

(** What the hook does: it sends a reply, or attaches the tenant and its
    identifier to the request. *)
Inductive Outcome :=
| Send (code : Z) (error message : string)
| Attached (tenant : Found) (tenantId : string).

Definition project (keyHash : string) (t : Tenants.TenantDoc) : Projected :=
  {| p_tenantId := Tenants.tenantId t; p_email := Tenants.email t;
     p_businessName := Tenants.businessName t; p_plan := Tenants.plan t;
     p_limits := Tenants.limits t; p_apiKeys := [keyHash] |}.

Definition apiKeyCacheKey (keyHash : string) : string :=
  "apikey:" +:+ keyHash.

(** [CACHE_TTL.apiKey] *)
Definition apiKeyTtl : Z := 300.

(** The filters [{ 'apiKeys.keyHash': keyHash, status: 'active' }] and
    [{ tenantId, 'apiKeys.keyHash': keyHash }]. *)
Definition activeWithKey (keyHash : string) (t : Tenants.TenantDoc) : bool :=
  bool_decide (keyHash ∈ Tenants.apiKeys t)
  && bool_decide (Tenants.status t = "active").

Definition withIdAndKey (id keyHash : string) (t : Tenants.TenantDoc)
    : bool :=
  bool_decide (Tenants.tenantId t = id)
  && bool_decide (keyHash ∈ Tenants.apiKeys t).

(** [{ $pull: { apiKeys: { keyHash } } }] *)
Definition pullKey (keyHash : string) (t : Tenants.TenantDoc)
    : Tenants.TenantDoc :=
  {| Tenants.tenantId := Tenants.tenantId t; Tenants.email := Tenants.email t;
     Tenants.businessName := Tenants.businessName t;
     Tenants.plan := Tenants.plan t; Tenants.limits := Tenants.limits t;
     Tenants.apiKeys := filter (fun k => k <> keyHash) (Tenants.apiKeys t);
     Tenants.status := Tenants.status t |}.

Section WithHash.

(** [hashApiKey]: the SHA-256 digest of the key, in hexadecimal. *)
Variable hashApiKey : string -> string.

(** [JSON.stringify] of a tenant. *)
Variable stringify : Tenants.TenantDoc -> string.

(** The cached string as an identifier. *)
Definition cachedText (c : Tenants.Cached) : string :=
  match c with
  | Tenants.CachedId id => id
  | Tenants.CachedTenant t => stringify t
  end.

(** [getTenantByApiKey(apiKey)]; the time of last use that it writes is
    not kept in the model, the command that writes it is. *)
Definition getTenantByApiKey (apiKey : string) : Tenants.M Found :=
  tryCatch
    (let keyHash := hashApiKey apiKey in
     cachedTenantId <-
       Tenants.liftCache (Store.get (apiKeyCacheKey keyHash)) ;;
     match Tenants.truthyCached cachedTenantId with
     | Some c =>
         tenant <- Tenants.getTenant (cachedText c) ;;
         ret (Whole tenant)
     | None =>
         tenant <- Tenants.findOne (activeWithKey keyHash) ;;
         match tenant with
         | None => throw "Invalid API key"
         | Some t =>
             _ <- Tenants.updateOne
                    (withIdAndKey (Tenants.tenantId t) keyHash)
                    (fun d => d) ;;
             _ <- Tenants.liftCache
                    (Store.set (apiKeyCacheKey keyHash)
                       (Tenants.CachedId (Tenants.tenantId t))
                       (Some apiKeyTtl)) ;;
             ret (Part (project keyHash t))
         end
     end)
    (fun e => throw e).

(** [revokeApiKey(tenantId, apiKey)] *)
Definition revokeApiKey (id apiKey : string) : Tenants.M unit :=
  tryCatch
    (let keyHash := hashApiKey apiKey in
     _ <- Tenants.updateOne (Tenants.activeWithId id) (pullKey keyHash) ;;
     _ <- Tenants.liftCache (Store.del (apiKeyCacheKey keyHash)) ;;
     ret tt)
    (fun e => throw e).

(** [authenticate(request, reply)], on the [X-API-Key] header of the
    request. *)
Definition authenticate (apiKey : option string) : Tenants.M Outcome :=
  tryCatch
    (match DataOps.truthy apiKey with
     | None =>
         ret (Send 401 "Unauthorized"
                "API key is required. Provide it in the X-API-Key header.")
     | Some key =>
         tenant <- getTenantByApiKey key ;;
         ret (Attached tenant (foundId tenant))
     end)
    (fun _ => ret (Send 401 "Unauthorized" "Invalid API key")).

End WithHash.

(** Every key belongs to one tenant. *)
Definition keyOf (id keyHash : string) (docs : list Tenants.TenantDoc)
    : Prop :=
  forall t, t ∈ docs -> keyHash ∈ Tenants.apiKeys t -> Tenants.tenantId t = id.

(** A hash and a serializer for the examples. *)
Definition testHash (apiKey : string) : string :=
  if String.eqb apiKey "sk_live_acme" then "3f2a" else "0000".

Definition testStringify (t : Tenants.TenantDoc) : string :=
  "{" +:+ Tenants.tenantId t +:+ "}".

End ApiKeys.

Example split_example :
  JS.splitWhitespace " a  b " = [""; "a"; "b"; ""].
Proof. reflexivity. Qed.

Example keywords_example :
  Search.keywordsOf "Is  FREE shipping on?" = ["free"; "shipping"; "on?"].
Proof. reflexivity. Qed.

Example regexPattern_example :
  Search.regexPatternOf ["free"; "on?"] = "(?=.*free)(?=.*on\?)".
Proof. reflexivity. Qed.

Example literal_count_example :
  LiteralEngine.jsRegExp "ana" = Some (fun s => LiteralEngine.countFrom "ana" s 0)
  /\ LiteralEngine.countFrom "ana" "bananas ANA" 0 = 2%nat.
Proof. by split. Qed.

Example chunk_example :
  Chunker.chunkText " one two three four five" 3 1
  = Some ["one two"; "two three four"; "four five"].
Proof. vm_compute. reflexivity. Qed.

Example chunk_reference_example :
  Chunker.chunk_reference " one two three four five" 3 1
  = ["one two"; "two three four"; "four five"].
Proof. vm_compute. reflexivity. Qed.

(** * Properties of the chunker *)

Section ChunkerFacts.
Import Chunker.

Lemma slice_window {A} (l : list A) (i size : Z) :
  0 <= i -> 0 <= size ->
  JS.slice l i (i + size) = take (Z.to_nat size) (drop (Z.to_nat i) l).
Proof.
  intros Hi Hs. unfold JS.slice.
  destruct (Z.ltb_spec i 0); [lia|].
  destruct (Z.ltb_spec (i + size) 0); [lia|].
  destruct (Z.le_gt_cases i (Z.of_nat (length l))) as [Hle|Hgt].
  - rewrite (Z.min_l i) by lia.
    destruct (Z.le_gt_cases (i + size) (Z.of_nat (length l))).
    + rewrite Z.min_l by lia. f_equal. lia.
    + rewrite Z.min_r by lia.
      rewrite !take_ge; [done| |]; rewrite length_drop; lia.
  - rewrite !Z.min_r by lia. rewrite Z.sub_diag.
    rewrite (drop_ge l (Z.to_nat i)) by lia.
    by destruct (Z.to_nat size).
Qed.

Lemma splitLoop_nonempty s cur inWs : JS.splitLoop s cur inWs <> [].
Proof.
  revert cur inWs. induction s as [|c s IH]; intros cur inWs; simpl; [done|].
  destruct (JS.isWhitespace c); [destruct inWs|]; auto.
Qed.

Lemma splitWhitespace_has_token text :
  (1 <= length (JS.splitWhitespace text))%nat.
Proof.
  pose proof (splitLoop_nonempty text "" false) as Hne.
  unfold JS.splitWhitespace. destruct (JS.splitLoop text "" false); [done|].
  simpl. lia.
Qed.

(** More fuel never changes a result. *)
Lemma chunkLoop_fuel_mono fuel words size overlap i acc r :
  chunkLoop fuel words size overlap i acc = Some r ->
  forall fuel', (fuel <= fuel')%nat ->
  chunkLoop fuel' words size overlap i acc = Some r.
Proof.
  revert i acc. induction fuel as [|fuel IH]; intros i acc Hr fuel' Hle.
  - discriminate.
  - destruct fuel' as [|fuel']; [lia|]. simpl in *.
    destruct (i <? Z.of_nat (length words)); [|done].
    apply IH; [done|lia].
Qed.

(** The loop returns once the index has passed the last word. *)
Lemma chunkLoop_returns words size overlap :
  overlap < size ->
  forall fuel i acc,
    (0 < fuel)%nat -> Z.of_nat (length words) - i < Z.of_nat fuel ->
    exists r, chunkLoop fuel words size overlap i acc = Some r.
Proof.
  intros Hstep. induction fuel as [|fuel IH]; intros i acc Hpos Hfuel.
  - lia.
  - simpl. destruct (Z.ltb_spec i (Z.of_nat (length words))); [|eauto].
    apply IH; lia.
Qed.

(** The loop is still running after any number of tests when the index
    does not advance. *)
Lemma chunkLoop_runs_forever words size overlap :
  size <= overlap ->
  forall fuel i acc,
    i < Z.of_nat (length words) ->
    chunkLoop fuel words size overlap i acc = None.
Proof.
  intros Hstep. induction fuel as [|fuel IH]; intros i acc Hi; [done|].
  simpl. destruct (Z.ltb_spec i (Z.of_nat (length words))); [|lia].
  apply IH. lia.
Qed.

Lemma windowStarts_bound n step k :
  (0 < step)%nat -> (k < (n + step - 1) / step)%nat <-> (k * step < n)%nat.
Proof.
  intros Hstep. split.
  - intros Hk. destruct (Nat.lt_ge_cases (k * step) n) as [|Hge]; [done|].
    assert (Hlt : ((n + step - 1) / step < S k)%nat); [|lia].
    apply Nat.Div0.div_lt_upper_bound.
    rewrite (Nat.mul_comm step (S k)). simpl. lia.
  - intros Hk.
    assert (Hle : (S k <= (n + step - 1) / step)%nat); [|lia].
    apply Nat.div_le_lower_bound; [lia|].
    rewrite (Nat.mul_comm step (S k)). simpl. lia.
Qed.

Lemma pushWindow_window words windowSize k step acc :
  pushWindow words (Z.of_nat windowSize) (Z.of_nat (k * step)) acc
  = (acc ++ filter (fun s => JS.nonEmpty s = true)
              [windowAt words windowSize (k * step)])%list.
Proof.
  unfold pushWindow, windowAt. rewrite slice_window by lia.
  rewrite !Nat2Z.id.
  destruct (JS.nonEmpty _) eqn:Hne.
  - by rewrite filter_cons_True, filter_nil.
  - rewrite filter_cons_False, filter_nil by congruence.
    by rewrite app_nil_r.
Qed.

(** The invariant of the loop: started at the [k]-th window with [m]
    windows left, it appends exactly those windows. *)
Lemma chunkLoop_windows words windowSize overlap step :
  Z.of_nat step = Z.of_nat windowSize - overlap -> (0 < step)%nat ->
  forall m k acc fuel,
    (k + m = (length words + step - 1) / step)%nat -> (m < fuel)%nat ->
    chunkLoop fuel words (Z.of_nat windowSize) overlap (Z.of_nat (k * step)) acc
    = Some (acc ++ filter (fun s => JS.nonEmpty s = true)
                     (windowAt words windowSize
                        <$> ((fun j => j * step)%nat <$> seq k m)))%list.
Proof.
  intros Hstep Hpos. induction m as [|m IH]; intros k acc fuel Hk Hfuel.
  - destruct fuel as [|fuel]; [lia|]. simpl.
    destruct (Z.ltb_spec (Z.of_nat (k * step)) (Z.of_nat (length words)))
      as [Hlt|Hge].
    + apply Nat2Z.inj_lt in Hlt.
      apply (windowStarts_bound (length words) step k Hpos) in Hlt. lia.
    + by rewrite filter_nil, app_nil_r.
  - destruct fuel as [|fuel]; [lia|]. simpl.
    destruct (Z.ltb_spec (Z.of_nat (k * step)) (Z.of_nat (length words)))
      as [Hlt|Hge].
    + replace (Z.of_nat (k * step) + (Z.of_nat windowSize - overlap))
        with (Z.of_nat (S k * step)) by (simpl; lia).
      rewrite IH by lia.
      rewrite pushWindow_window.
      rewrite (filter_cons _ (windowAt words windowSize (k * step))).
      rewrite filter_cons, filter_nil.
      destruct (decide _); simpl; by rewrite <- ?app_assoc.
    + assert (k * step < length words)%nat; [|lia].
      apply windowStarts_bound; [done|lia].
Qed.

Lemma chunkText_reference_eq text (windowSize : nat) overlap :
  overlap < Z.of_nat windowSize ->
  chunkText text (Z.of_nat windowSize) overlap
  = Some (chunk_reference text windowSize overlap).
Proof.
  intros Hlt. unfold chunkText, chunkTextFuel, chunk_reference, windowStarts.
  set (words := JS.splitWhitespace text).
  set (step := Z.to_nat (Z.of_nat windowSize - overlap)).
  assert (Hstep : Z.of_nat step = Z.of_nat windowSize - overlap)
    by (unfold step; lia).
  assert (Hpos : (0 < step)%nat) by lia.
  pose proof (chunkLoop_windows words windowSize overlap step Hstep Hpos
                ((length words + step - 1) / step)%nat 0%nat []
                (S (length words))) as Hloop.
  simpl in Hloop. apply Hloop; [done|].
  apply Nat.Div0.div_lt_upper_bound. nia.
Qed.

End ChunkerFacts.

(** C9: for every text and every window size greater than the overlap,
    [chunkText] returns the sliding-window sequence of the specification
    (tokens split on whitespace, windows starting at 0, step, 2*step, ...,
    each joined by single spaces and trimmed, empty windows omitted); every
    emitted span is non-empty; and the result is the same on every run,
    whatever number of loop tests the run is given. *)
Theorem C9_chunkText_is_sliding_window
    (text : string) (windowSize : nat) (overlap : Z) :
  overlap < Z.of_nat windowSize ->
  Chunker.chunkText text (Z.of_nat windowSize) overlap
  = Some (Chunker.chunk_reference text windowSize overlap)
  /\ Forall (fun span => span <> "")
       (Chunker.chunk_reference text windowSize overlap)
  /\ (forall fuel1 fuel2 r1 r2,
        Chunker.chunkTextFuel fuel1 text (Z.of_nat windowSize) overlap = Some r1 ->
        Chunker.chunkTextFuel fuel2 text (Z.of_nat windowSize) overlap = Some r2 ->
        r1 = r2).
Proof.
  intros Hlt. split; [by apply chunkText_reference_eq|]. split.
  - unfold Chunker.chunk_reference. apply list.Forall_forall.
    intros span Hin. apply list_elem_of_filter in Hin.
    destruct Hin as [Hne _]. by destruct span.
  - unfold Chunker.chunkTextFuel. intros fuel1 fuel2 r1 r2 H1 H2.
    pose proof (chunkLoop_fuel_mono _ _ _ _ _ _ _ H1 (fuel1 + fuel2)%nat
                  ltac:(lia)) as E1.
    pose proof (chunkLoop_fuel_mono _ _ _ _ _ _ _ H2 (fuel1 + fuel2)%nat
                  ltac:(lia)) as E2.
    congruence.
Qed.

(** The chunker at the scale of a test: window 3, overlap 1. *)
Lemma C9_chunkText_is_sliding_window_witness :
  Chunker.chunkText " one two three four five" (Z.of_nat 3) 1
  = Some ["one two"; "two three four"; "four five"].
Proof.
  destruct (C9_chunkText_is_sliding_window " one two three four five" 3 1
              ltac:(lia)) as [Heq _].
  rewrite Heq. vm_compute. reflexivity.
Defined.

(** C10: [chunkText] returns exactly when the overlap is below the chunk
    size.  If [overlap < chunkSize], every iteration moves the index up by
    [chunkSize - overlap] and the call returns; if [overlap >= chunkSize]
    and the text has a token (every text has), the index never moves
    forward and the loop is still running after any number of tests.  The
    call of [registerData] passes [CHUNK_CONFIG], which satisfies the
    precondition, so it returns for every content. *)
Theorem C10_chunkText_total_iff_overlap_below_size :
  (forall text chunkSize overlap,
      overlap < chunkSize ->
      (forall fuel words i acc,
          i < Z.of_nat (length words) ->
          i < i + (chunkSize - overlap)
          /\ Chunker.chunkLoop (S fuel) words chunkSize overlap i acc
             = Chunker.chunkLoop fuel words chunkSize overlap
                 (i + (chunkSize - overlap))
                 (Chunker.pushWindow words chunkSize i acc))
      /\ exists chunks, Chunker.chunkText text chunkSize overlap = Some chunks)
  /\ (forall text chunkSize overlap,
         chunkSize <= overlap ->
         (1 <= length (JS.splitWhitespace text))%nat ->
         forall fuel, Chunker.chunkTextFuel fuel text chunkSize overlap = None)
  /\ (forall text, (1 <= length (JS.splitWhitespace text))%nat)
  /\ CHUNK_CONFIG.overlap < CHUNK_CONFIG.size
  /\ (forall content,
         exists chunks,
           Chunker.chunkText content CHUNK_CONFIG.size CHUNK_CONFIG.overlap
           = Some chunks).
Proof.
  assert (Htotal : forall text chunkSize overlap, overlap < chunkSize ->
            exists chunks, Chunker.chunkText text chunkSize overlap = Some chunks).
  { intros text chunkSize overlap Hlt.
    apply chunkLoop_returns; [done|lia|lia]. }
  split; [|split; [|split; [|split]]].
  - intros text chunkSize overlap Hlt. split; [|by apply Htotal].
    intros fuel words i acc Hi. split; [lia|]. simpl.
    by destruct (Z.ltb_spec i (Z.of_nat (length words))); [|lia].
  - intros text chunkSize overlap Hge Htok fuel.
    apply chunkLoop_runs_forever; [done|lia].
  - apply splitWhitespace_has_token.
  - reflexivity.
  - intros content. by apply Htotal.
Qed.

(** A run with overlap equal to the chunk size, and one with
    [CHUNK_CONFIG]. *)
Lemma C10_chunkText_total_iff_overlap_below_size_witness :
  Chunker.chunkTextFuel 1000 "free shipping" 2 2 = None
  /\ exists chunks, Chunker.chunkText "free shipping" 3 1 = Some chunks.
Proof.
  destruct C10_chunkText_total_iff_overlap_below_size
    as (Hlt & Hge & Htok & _).
  split.
  - apply Hge; [lia|]. vm_compute. lia.
  - apply (Hlt "free shipping" 3 1). lia.
Defined.

(** * Properties of the quota middleware *)

Section RedisFacts.
Import Redis.

Lemma healthy_withData d r : healthy r -> healthy (withData d r).
Proof. by intros (? & ? & ?). Qed.

Lemma healthy_withTtl t r : healthy r -> healthy (withTtl t r).
Proof. by intros (? & ? & ?). Qed.

Lemma incr_healthy key r :
  healthy r ->
  incr key r
  = (Ret (Some (default 0 (data r !! key) + 1)),
     withData (<[key := default 0 (data r !! key) + 1]> (data r)) r).
Proof.
  intros (Hc & Hi & Hf). unfold incr, guarded. rewrite Hc, Hi. simpl.
  unfold tryCatch, bind, command. by rewrite Hf.
Qed.

Lemma get_healthy key r :
  healthy r -> get key r = (Ret (data r !! key), r).
Proof.
  intros (Hc & Hi & Hf). unfold get, bind, guarded. rewrite Hc, Hi. simpl.
  unfold tryCatch, bind, command. rewrite Hf. simpl.
  unfold ret. by destruct (data r !! key).
Qed.

Lemma expire_healthy key seconds r :
  healthy r ->
  exists o r', expire key seconds r = (Ret o, r')
               /\ data r' = data r /\ healthy r'.
Proof.
  intros Hh. pose proof Hh as (Hc & Hi & Hf).
  unfold expire, guarded. rewrite Hc, Hi. simpl.
  unfold tryCatch, bind, command. rewrite Hf. unfold serverExpire.
  destruct (data r !! key); simpl; eauto using healthy_withTtl.
Qed.

(** The wrapper never throws, whatever the schedule: a command either
    fails and leaves the data alone, or succeeds. *)
Lemma incr_cases key r :
  (exists r', incr key r = (Ret None, r') /\ data r' = data r)
  \/ (exists r', incr key r = (Ret (Some (default 0 (data r !! key) + 1)), r')
                 /\ data r' = <[key := default 0 (data r !! key) + 1]> (data r)).
Proof.
  unfold incr, guarded.
  destruct (negb (client r) || negb (isConnected r)); [left; eauto|].
  unfold tryCatch, bind, command.
  destruct (faults r) as [|[] fs]; simpl; eauto.
Qed.

Lemma expire_cases key seconds r :
  exists o r', expire key seconds r = (Ret o, r') /\ data r' = data r.
Proof.
  unfold expire, guarded.
  destruct (negb (client r) || negb (isConnected r)); [eauto|].
  unfold tryCatch, bind, command, serverExpire.
  destruct (faults r) as [|[] fs]; simpl; eauto;
    destruct (data r !! key); simpl; eauto.
Qed.

Lemma get_cases key r :
  exists o r', get key r = (Ret o, r') /\ data r' = data r
               /\ (o = None \/ o = data r !! key).
Proof.
  unfold get, bind, guarded.
  destruct (negb (client r) || negb (isConnected r)); [simpl; eauto 6|].
  unfold tryCatch, bind, command, serverGet.
  destruct (faults r) as [|[] fs]; simpl; eauto 6.
Qed.

Lemma incr_unavailable key r :
  unavailable r -> incr key r = (Ret None, r).
Proof. intros [H|H]; unfold incr, guarded; rewrite H; by rewrite ?orb_true_r. Qed.

Lemma get_unavailable key r :
  unavailable r -> get key r = (Ret None, r).
Proof.
  intros [H|H]; unfold get, bind, guarded; rewrite H; by rewrite ?orb_true_r.
Qed.

Lemma expire_unavailable key seconds r :
  unavailable r -> expire key seconds r = (Ret None, r).
Proof.
  intros [H|H]; unfold expire, guarded; rewrite H; by rewrite ?orb_true_r.
Qed.

Lemma guarded_command_down {A} (run : Client -> A * Client) n r :
  down (S n) r ->
  exists r', guarded (command run) r = (Ret None, r')
             /\ down n r' /\ data r' = data r.
Proof.
  intros Hdown. unfold guarded.
  destruct (negb (client r) || negb (isConnected r)) eqn:Hguard.
  - exists r. split; [done|]. split; [|done]. left.
    apply orb_true_iff in Hguard as [H|H]; apply negb_true_iff in H;
      [by left|by right].
  - destruct Hdown as [[H|H]|[fs Hfs]].
    + rewrite H in Hguard. discriminate.
    + rewrite H, orb_true_r in Hguard. discriminate.
    + unfold tryCatch, bind, command. rewrite Hfs. simpl.
      eexists. split; [done|]. split; [|done]. right. by exists fs.
Qed.

Lemma incr_down key n r :
  down (S n) r ->
  exists r', incr key r = (Ret None, r') /\ down n r' /\ data r' = data r.
Proof. apply guarded_command_down. Qed.

Lemma expire_down key seconds n r :
  down (S n) r ->
  exists r', expire key seconds r = (Ret None, r')
             /\ down n r' /\ data r' = data r.
Proof. apply guarded_command_down. Qed.

Lemma get_down key n r :
  down (S n) r ->
  exists r', get key r = (Ret None, r') /\ down n r' /\ data r' = data r.
Proof.
  intros Hdown. unfold get, bind.
  destruct (guarded_command_down (serverGet key) n r Hdown)
    as (r' & -> & Hd & Hdata).
  by exists r'.
Qed.

Lemma down_le n m r : (m <= n)%nat -> down n r -> down m r.
Proof.
  intros Hle [Hun|[fs Hfs]]; [by left|]. right.
  exists (replicate (n - m) true ++ fs)%list.
  rewrite Hfs, app_assoc, <- replicate_add. do 2 f_equal. lia.
Qed.

End RedisFacts.

Section RateLimitFacts.
Import Redis RateLimit.

Lemma minuteKey_hourKey_distinct t a b : minuteKey t a <> hourKey t b.
Proof.
  unfold minuteKey, hourKey. intros Heq.
  apply (inj (String.app "ratelimit:")) in Heq.
  apply (inj (String.app (tenantId t))) in Heq.
  simpl in Heq. discriminate.
Qed.

Lemma minuteKey_bucket t a b :
  a / 60000 = b / 60000 -> minuteKey t a = minuteKey t b.
Proof. unfold minuteKey. by intros ->. Qed.

Lemma hourKey_bucket t a b :
  a / 3600000 = b / 3600000 -> hourKey t a = hourKey t b.
Proof. unfold hourKey. by intros ->. Qed.

(** The step after an increment: the expiry is set on the first one. *)
Lemma expire_step_healthy (b : bool) key seconds r :
  healthy r ->
  exists o r', when b (expire key seconds) r = (Ret o, r')
               /\ data r' = data r /\ healthy r'.
Proof.
  intros Hh. destruct b.
  - by apply expire_healthy.
  - by exists None, r.
Qed.

(** One call on a reachable store. *)
Lemma rateLimiter_healthy t req r :
  healthy r -> tenant req = Some t ->
  let l := limits t in
  let mKey := minuteKey t (nowMinute req) in
  let hKey := hourKey t (nowHour req) in
  let m := default 0 (data r !! mKey) + 1 in
  let h := default 0 (data r !! hKey) + 1 in
  exists r',
    rateLimiter req r
    = (Ret (if m >? requestsPerMinute l then minuteDenial l
            else if h >? requestsPerHour l then hourDenial l
            else Next (rateHeaders l (Some m) (Some h))), r')
    /\ healthy r'
    /\ data r' = (if m >? requestsPerMinute l then <[mKey := m]> (data r)
                  else <[hKey := h]> (<[mKey := m]> (data r))).
Proof.
  intros Hh Ht l mKey hKey m h. unfold rateLimiter. rewrite Ht.
  unfold tryCatch, bind. fold l mKey hKey.
  rewrite (incr_healthy mKey r Hh). fold m.
  set (r1 := withData (<[mKey:=m]> (data r)) r).
  assert (Hh1 : healthy r1) by by apply healthy_withData.
  destruct (expire_step_healthy (isOne (Some m)) mKey 60 r1 Hh1)
    as (o1 & r2 & -> & Hd2 & Hh2).
  change (toNumber (Some m)) with m. destruct (m >? requestsPerMinute l).
  - exists r2. by rewrite Hd2.
  - assert (Hlook : data r1 !! hKey = data r !! hKey).
    { unfold r1. simpl. apply lookup_insert_ne, minuteKey_hourKey_distinct. }
    rewrite (incr_healthy hKey r2 Hh2). rewrite Hd2, Hlook. fold h.
    unfold r1 at 1. simpl data.
    set (r3 := withData (<[hKey:=h]> (<[mKey:=m]> (data r))) r2).
    assert (Hh3 : healthy r3) by by apply healthy_withData.
    destruct (expire_step_healthy (isOne (Some h)) hKey 3600 r3 Hh3)
      as (o3 & r4 & -> & Hd4 & Hh4).
    change (toNumber (Some h)) with h. exists r4. rewrite Hd4. simpl data.
    by destruct (h >? requestsPerHour l).
Qed.

Lemma kthOutcome_minute l k h :
  requestsPerMinute l < k -> kthOutcome l k h = Ret (minuteDenial l).
Proof.
  intros Hlt. unfold kthOutcome.
  by destruct (Z.gtb_spec k (requestsPerMinute l)); [|lia].
Qed.

(** The calls of one minute bucket, started with [c] calls counted in the
    minute and [h0] in the hour. *)
Lemma rateLimiterSeq_healthy t now reqs :
  Forall (sameBuckets t now) reqs ->
  forall r c h0,
    healthy r ->
    default 0 (data r !! minuteKey t now) = c ->
    default 0 (data r !! hourKey t now) = h0 ->
    (forall i o,
        (fst (rateLimiterSeq reqs r)) !! i = Some o ->
        o = kthOutcome (limits t) (c + Z.of_nat i + 1) (h0 + Z.of_nat i + 1))
    /\ default 0 (data (snd (rateLimiterSeq reqs r)) !! minuteKey t now)
       = c + Z.of_nat (length reqs).
Proof.
  induction 1 as [|req reqs (Ht & Hm & Hhr) _ IH]; intros r c h0 Hh Hc Hh0.
  - simpl. split; [intros i o Hi; by rewrite lookup_nil in Hi|lia].
  - simpl.
    destruct (rateLimiter_healthy t req r Hh Ht) as (r' & Hcall & Hh' & Hd').
    rewrite (minuteKey_bucket t _ now Hm) in Hcall, Hd'.
    rewrite (hourKey_bucket t _ now Hhr) in Hcall, Hd'.
    rewrite Hc, Hh0 in Hcall, Hd'. rewrite Hcall.
    destruct (rateLimiterSeq reqs r') as [os r''] eqn:Hseq.
    assert (Hc' : default 0 (data r' !! minuteKey t now) = c + 1).
    { rewrite Hd'. destruct (c + 1 >? _).
      - by rewrite lookup_insert_eq.
      - rewrite lookup_insert_ne, lookup_insert_eq; [done|].
        intros Heq. by apply (minuteKey_hourKey_distinct t now now). }
    destruct (Z.gtb_spec (c + 1) (requestsPerMinute (limits t))) as [Hgt|Hle].
    + (* denied by the minute window: the hour counter is not touched *)
      assert (Hh0' : default 0 (data r' !! hourKey t now) = h0).
      { rewrite Hd', lookup_insert_ne; [done|].
        apply minuteKey_hourKey_distinct. }
      destruct (IH r' (c + 1) h0 Hh' Hc' Hh0') as [IHo IHc].
      rewrite Hseq in IHo, IHc. simpl in *. split; [|lia].
      intros [|i] o Hi; simpl in Hi.
      * injection Hi as <-. symmetry. apply kthOutcome_minute. lia.
      * rewrite (IHo i o Hi).
        rewrite !kthOutcome_minute; [done|lia|lia].
    + assert (Hh0' : default 0 (data r' !! hourKey t now) = h0 + 1).
      { by rewrite Hd', lookup_insert_eq. }
      destruct (IH r' (c + 1) (h0 + 1) Hh' Hc' Hh0') as [IHo IHc].
      rewrite Hseq in IHo, IHc. simpl in *. split; [|lia].
      intros [|i] o Hi; simpl in Hi.
      * injection Hi as <-. unfold kthOutcome.
        change (Z.of_nat 0) with 0. rewrite !Z.add_0_r.
        by destruct (Z.gtb_spec (c + 1) (requestsPerMinute (limits t))); [lia|].
      * rewrite (IHo i o Hi). f_equal; lia.
Qed.

Lemma rateLimiterSeq_length reqs r :
  length (fst (rateLimiterSeq reqs r)) = length reqs.
Proof.
  revert r. induction reqs as [|req reqs IH]; intros r; [done|].
  simpl. destruct (rateLimiter req r) as [o r'].
  specialize (IH r'). destruct (rateLimiterSeq reqs r'). simpl in *. lia.
Qed.

Lemma rateLimiterSeq_take reqs r n :
  fst (rateLimiterSeq (take n reqs) r) = take n (fst (rateLimiterSeq reqs r)).
Proof.
  revert r n. induction reqs as [|req reqs IH]; intros r [|n]; try done.
  simpl. destruct (rateLimiter req r) as [o r'].
  specialize (IH r' n).
  destruct (rateLimiterSeq (take n reqs) r'), (rateLimiterSeq reqs r').
  simpl in *. by rewrite IH.
Qed.

Lemma plans_plausible p : plausible (PLANS p).
Proof. destruct p; repeat split; simpl; lia. Qed.

Lemma when_expire_cases (b : bool) key seconds r :
  exists o r', when b (expire key seconds) r = (Ret o, r')
               /\ data r' = data r.
Proof.
  destruct b; [apply expire_cases|]. by exists None, r.
Qed.

(** Under any schedule, a reply sent by [rateLimiter] rests on a counter
    that was incremented and is above its limit. *)
Lemma rateLimiter_denial_backed t req r code body r' :
  tenant req = Some t ->
  0 <= requestsPerMinute (limits t) -> 0 <= requestsPerHour (limits t) ->
  rateLimiter req r = (Ret (Send code body), r') ->
  (exists v, data r' !! minuteKey t (nowMinute req) = Some v
             /\ requestsPerMinute (limits t) < v
             /\ Send code body = minuteDenial (limits t))
  \/ (exists v, data r' !! hourKey t (nowHour req) = Some v
                /\ requestsPerHour (limits t) < v
                /\ Send code body = hourDenial (limits t)).
Proof.
  intros Ht Hm Hh. unfold rateLimiter. rewrite Ht. unfold tryCatch, bind.
  set (l := limits t) in *.
  set (mKey := minuteKey t (nowMinute req)).
  set (hKey := hourKey t (nowHour req)).
  destruct (incr_cases mKey r) as [(r1 & -> & Hd1)|(r1 & -> & Hd1)].
  - (* the minute increment failed *)
    destruct (when_expire_cases (isOne None) mKey 60 r1) as (o2 & r2 & -> & Hd2).
    change (toNumber None) with 0.
    destruct (Z.gtb_spec 0 (requestsPerMinute l)); [lia|].
    destruct (incr_cases hKey r2) as [(r3 & -> & Hd3)|(r3 & -> & Hd3)].
    + destruct (when_expire_cases (isOne None) hKey 3600 r3)
        as (o4 & r4 & -> & Hd4).
      change (toNumber None) with 0.
      destruct (Z.gtb_spec 0 (requestsPerHour l)); [lia|]. discriminate.
    + set (h := default 0 (data r2 !! hKey) + 1) in *.
      destruct (when_expire_cases (isOne (Some h)) hKey 3600 r3)
        as (o4 & r4 & -> & Hd4).
      change (toNumber (Some h)) with h.
      destruct (Z.gtb_spec h (requestsPerHour l)); [|discriminate].
      intros [= <- <- <-]. right. exists h.
      by rewrite Hd4, Hd3, lookup_insert_eq.
  - set (m := default 0 (data r !! mKey) + 1) in *.
    destruct (when_expire_cases (isOne (Some m)) mKey 60 r1)
      as (o2 & r2 & -> & Hd2).
    change (toNumber (Some m)) with m.
    destruct (Z.gtb_spec m (requestsPerMinute l)).
    + intros [= <- <- <-]. left. exists m.
      by rewrite Hd2, Hd1, lookup_insert_eq.
    + destruct (incr_cases hKey r2) as [(r3 & -> & Hd3)|(r3 & -> & Hd3)].
      * destruct (when_expire_cases (isOne None) hKey 3600 r3)
          as (o4 & r4 & -> & Hd4).
        change (toNumber None) with 0.
        destruct (Z.gtb_spec 0 (requestsPerHour l)); [lia|]. discriminate.
      * set (h := default 0 (data r2 !! hKey) + 1) in *.
        destruct (when_expire_cases (isOne (Some h)) hKey 3600 r3)
          as (o4 & r4 & -> & Hd4).
        change (toNumber (Some h)) with h.
        destruct (Z.gtb_spec h (requestsPerHour l)); [|discriminate].
        intros [= <- <- <-]. right. exists h.
        by rewrite Hd4, Hd3, lookup_insert_eq.
Qed.

(** Under any schedule, the monthly denial rests on a value that was
    read from the counter. *)
Lemma checkMonthlyLimit_denial_backed t req r code body r' :
  tenant req = Some t -> 0 < apiCallsPerMonth (limits t) ->
  checkMonthlyLimit req r = (Ret (Send code body), r') ->
  exists v, data r !! monthKey t (currentMonth req) = Some v
            /\ apiCallsPerMonth (limits t) <= v
            /\ Send code body = monthDenial (limits t) v.
Proof.
  intros Ht Hl. unfold checkMonthlyLimit. rewrite Ht. unfold tryCatch, bind.
  set (l := limits t) in *. set (key := monthKey t (currentMonth req)).
  destruct (get_cases key r) as (o & r1 & -> & Hd1 & Ho).
  destruct (Z.geb_spec (toNumber o) (apiCallsPerMonth l)) as [Hge|Hlt].
  - intros [= <- <- <-]. destruct Ho as [->| ->].
    + change (toNumber None) with 0 in Hge. lia.
    + destruct (data r !! key) as [v|] eqn:Hv.
      * by exists v.
      * change (toNumber None) with 0 in Hge. lia.
  - destruct (incr_cases key r1) as [(r2 & -> & Hd2)|(r2 & -> & Hd2)];
      destruct (when_expire_cases (toNumber o =? 0) key (60 * 24 * 3600) r2)
        as (o3 & r3 & -> & Hd3); discriminate.
Qed.

(** Neither handler lets an exception out. *)
Lemma rateLimiter_never_throws req r :
  exists o r', rateLimiter req r = (Ret o, r').
Proof.
  unfold rateLimiter, tryCatch.
  destruct (_ r) as [[o|e] r']; [eauto|]. unfold ret. eauto.
Qed.

Lemma checkMonthlyLimit_never_throws req r :
  exists o r', checkMonthlyLimit req r = (Ret o, r').
Proof.
  unfold checkMonthlyLimit, tryCatch.
  destruct (_ r) as [[o|e] r']; [eauto|]. unfold ret. eauto.
Qed.

(** With the store down, both checks admit under plausible limits. *)
Lemma rateLimiter_down t req r :
  tenant req = Some t -> plausible (limits t) -> down 2 r ->
  exists hs r', rateLimiter req r = (Ret (Next hs), r')
                /\ data r' = data r.
Proof.
  intros Ht (Hm & Hh & _) Hdown. unfold rateLimiter. rewrite Ht.
  unfold tryCatch, bind.
  destruct (incr_down (minuteKey t (nowMinute req)) 1 r Hdown)
    as (r1 & -> & Hdown1 & Hd1).
  unfold when at 1. change (isOne None) with false. unfold ret at 1.
  cbv beta iota. change (toNumber None) with 0.
  destruct (Z.gtb_spec 0 (requestsPerMinute (limits t))); [lia|].
  destruct (incr_down (hourKey t (nowHour req)) 0 r1 Hdown1)
    as (r2 & -> & Hdown2 & Hd2).
  unfold when at 1. change (isOne None) with false. unfold ret at 1.
  cbv beta iota. change (toNumber None) with 0.
  destruct (Z.gtb_spec 0 (requestsPerHour (limits t))); [lia|].
  eexists _, r2. split; [done|]. by rewrite Hd2.
Qed.

Lemma checkMonthlyLimit_down t req r :
  tenant req = Some t -> plausible (limits t) -> down 3 r ->
  exists r', checkMonthlyLimit req r = (Ret (Next []), r')
             /\ data r' = data r.
Proof.
  intros Ht (_ & _ & Hmo) Hdown. unfold checkMonthlyLimit. rewrite Ht.
  unfold tryCatch, bind.
  destruct (get_down (monthKey t (currentMonth req)) 2 r Hdown)
    as (r1 & -> & Hdown1 & Hd1).
  change (toNumber None) with 0.
  destruct (Z.geb_spec 0 (apiCallsPerMonth (limits t))); [lia|].
  destruct (incr_down (monthKey t (currentMonth req)) 1 r1 Hdown1)
    as (r2 & -> & Hdown2 & Hd2).
  unfold when. simpl.
  destruct (expire_down (monthKey t (currentMonth req)) (60 * 24 * 3600)
              0 r2 Hdown2) as (r3 & -> & _ & Hd3).
  exists r3. split; [done|]. by rewrite Hd3, Hd2.
Qed.

End RateLimitFacts.

(** C2 (amended): on a reachable counter store, for the calls of one
    tenant that fall in the same minute bucket (and hour bucket), applied
    one after the other with the minute counter absent at the start, the
    [k]-th call is denied by the minute window, with [retryAfter = 60],
    exactly when [k] exceeds [requestsPerMinute]; the decision is taken on
    the post-increment value of the minute counter, which is [k].  A call
    with [k <= requestsPerMinute] then goes through the hour window: it is
    admitted when the hour counter, incremented by that call, is at most
    [requestsPerHour], and denied with [retryAfter = 3600] otherwise.  So as
    long as the hour window leaves room, the [k]-th call is admitted if and
    only if [k <= requestsPerMinute]. *)
Theorem C2_minute_window t now reqs r :
  Redis.healthy r ->
  Forall (RateLimit.sameBuckets t now) reqs ->
  Redis.data r !! RateLimit.minuteKey t now = None ->
  forall i o,
    fst (RateLimit.rateLimiterSeq reqs r) !! i = Some o ->
    let l := RateLimit.limits t in
    let k := Z.of_nat i + 1 in
    let h := default 0 (Redis.data r !! RateLimit.hourKey t now) + k in
    (requestsPerMinute l < k ->
       o = Ret (RateLimit.minuteDenial l)
       /\ exists body, o = Ret (RateLimit.Send 429 body)
                       /\ RateLimit.retryAfter body = Some 60)
    /\ (k <= requestsPerMinute l -> requestsPerHour l < h ->
          o = Ret (RateLimit.hourDenial l)
          /\ exists body, o = Ret (RateLimit.Send 429 body)
                          /\ RateLimit.retryAfter body = Some 3600)
    /\ (h <= requestsPerHour l ->
          (RateLimit.admitted o = true <-> k <= requestsPerMinute l))
    /\ default 0 (Redis.data
                    (snd (RateLimit.rateLimiterSeq (take (S i) reqs) r))
                  !! RateLimit.minuteKey t now) = k.
Proof.
  intros Hh Hreqs Habsent i o Hi l k h.
  destruct (rateLimiterSeq_healthy t now reqs Hreqs r 0
              (default 0 (Redis.data r !! RateLimit.hourKey t now)) Hh)
    as [Ho _]; [by rewrite Habsent|done|].
  specialize (Ho i o Hi). fold l in Ho.
  replace (0 + Z.of_nat i + 1) with k in Ho by lia.
  replace (_ + Z.of_nat i + 1) with h in Ho by (unfold h, k; lia).
  unfold RateLimit.kthOutcome in Ho.
  split; [|split; [|split]].
  - intros Hk. destruct (Z.gtb_spec k (requestsPerMinute l)); [|lia].
    split; [done|]. rewrite Ho. by eexists.
  - intros Hk Hhour. destruct (Z.gtb_spec k (requestsPerMinute l)); [lia|].
    destruct (Z.gtb_spec h (requestsPerHour l)); [|lia].
    split; [done|]. rewrite Ho. by eexists.
  - intros Hhour. rewrite Ho.
    destruct (Z.gtb_spec k (requestsPerMinute l)).
    + simpl. split; [done|lia].
    + destruct (Z.gtb_spec h (requestsPerHour l)); [lia|]. simpl. by split.
  - assert (Hlen : (i < length reqs)%nat).
    { rewrite <- (rateLimiterSeq_length reqs r). by eapply lookup_lt_Some. }
    destruct (rateLimiterSeq_healthy t now (take (S i) reqs)
                (Forall_take _ (S i) _ Hreqs) r 0
                (default 0 (Redis.data r !! RateLimit.hourKey t now)) Hh)
      as [_ Hc]; [by rewrite Habsent|done|].
    rewrite Hc, length_take. unfold k. lia.
Qed.

(** Eleven calls of a free-plan tenant in one minute on an empty store:
    the eleventh is denied by the minute window. *)
Lemma C2_minute_window_witness :
  exists o,
    fst (RateLimit.rateLimiterSeq
           (replicate 11 (Fixtures.requestAt 1790000000000))
           (Fixtures.store ∅ [])) !! 10%nat = Some o
    /\ o = Ret (RateLimit.minuteDenial (PLANS FREE)).
Proof.
  assert (Hi : fst (RateLimit.rateLimiterSeq
                      (replicate 11 (Fixtures.requestAt 1790000000000))
                      (Fixtures.store ∅ [])) !! 10%nat
               = Some (Ret (RateLimit.minuteDenial (PLANS FREE))))
    by (vm_compute; reflexivity).
  pose proof (C2_minute_window Fixtures.acme 1790000000000
                (replicate 11 (Fixtures.requestAt 1790000000000))
                (Fixtures.store ∅ [])
                ltac:(repeat split)
                ltac:(repeat constructor)
                ltac:(reflexivity)
                10%nat _ Hi) as (Hdenied & _).
  eexists. split; [exact Hi|]. apply Hdenied. simpl. lia.
Defined.

(** C2 as stated fails: with the minute counter absent but the hour
    counter of a free-plan tenant already at its limit of 100, the first
    call of the minute is not admitted although 1 <= requestsPerMinute; it
    is denied by the hour window with [retryAfter = 3600]. *)
Lemma C2_counterexample :
  let r := Fixtures.store
             {[ RateLimit.hourKey Fixtures.acme 1790000000000 := 100 ]} [] in
  let outcomes :=
    fst (RateLimit.rateLimiterSeq [Fixtures.requestAt 1790000000000] r) in
  Redis.data r !! RateLimit.minuteKey Fixtures.acme 1790000000000 = None
  /\ 1 <= requestsPerMinute (RateLimit.limits Fixtures.acme)
  /\ outcomes = [Ret (RateLimit.hourDenial (PLANS FREE))]
  /\ (RateLimit.admitted <$> outcomes) = [false].
Proof. vm_compute. repeat split; discriminate. Qed.

(** C6: on a reachable counter store, for every tenant and every value of
    the month counter, [checkMonthlyLimit] reads the counter (absent counts
    as 0).  If the value read is at least [apiCallsPerMonth] it denies with
    the usage and the limit, no [retryAfter], and leaves the store as it
    was; otherwise it increments that counter by exactly one, touches no
    other counter, and admits. *)
Theorem C6_monthly_check t req r :
  Redis.healthy r ->
  RateLimit.tenant req = Some t ->
  let l := RateLimit.limits t in
  let key := RateLimit.monthKey t (RateLimit.currentMonth req) in
  let usageCount := default 0 (Redis.data r !! key) in
  (apiCallsPerMonth l <= usageCount ->
     exists body,
       RateLimit.checkMonthlyLimit req r = (Ret (RateLimit.Send 429 body), r)
       /\ RateLimit.usage body
          = Some {| RateLimit.used := usageCount;
                    RateLimit.limit := apiCallsPerMonth l |}
       /\ RateLimit.retryAfter body = None)
  /\ (usageCount < apiCallsPerMonth l ->
        exists r',
          RateLimit.checkMonthlyLimit req r = (Ret (RateLimit.Next []), r')
          /\ Redis.data r' = <[key := usageCount + 1]> (Redis.data r)).
Proof.
  intros Hh Ht l key usageCount.
  unfold RateLimit.checkMonthlyLimit. rewrite Ht. unfold tryCatch, bind.
  fold l key. rewrite (get_healthy key r Hh).
  change (RateLimit.toNumber (Redis.data r !! key)) with usageCount.
  split; intros Hcmp.
  - destruct (Z.geb_spec usageCount (apiCallsPerMonth l)); [|lia].
    by eexists.
  - destruct (Z.geb_spec usageCount (apiCallsPerMonth l)); [lia|].
    rewrite (incr_healthy key r Hh). fold usageCount.
    set (r1 := Redis.withData _ r).
    destruct (expire_step_healthy (usageCount =? 0) key (60 * 24 * 3600) r1)
      as (o & r2 & -> & Hd2 & _); [by apply healthy_withData|].
    exists r2. by rewrite Hd2.
Qed.

(** A free-plan tenant with 1000 calls counted this month is denied, and
    the counter stays at 1000. *)
Lemma C6_monthly_check_witness :
  let r := Fixtures.store
             {[ RateLimit.monthKey Fixtures.acme "2026-11" := 1000 ]} [] in
  exists body,
    RateLimit.checkMonthlyLimit (Fixtures.requestAt 1790000000000) r
    = (Ret (RateLimit.Send 429 body), r)
    /\ RateLimit.usage body
       = Some {| RateLimit.used := 1000; RateLimit.limit := 1000 |}
    /\ RateLimit.retryAfter body = None.
Proof.
  intros r.
  destruct (C6_monthly_check Fixtures.acme (Fixtures.requestAt 1790000000000)
              r ltac:(repeat split) ltac:(reflexivity)) as [Hdeny _].
  apply Hdeny. vm_compute. discriminate.
Defined.

(** C7 (amended): no error of the counter store reaches the caller of
    either check, whatever commands fail: the wrapper turns a failed
    command into [null], which the checks read as a count of 0.  When the
    store is down (unavailable, or rejecting every command of the run) and
    the limits are plausible (no negative rate, a monthly quota of at least
    one call, as in every plan), both checks admit.  When only some
    commands fail, a check can still deny, and then only on a counter that
    was incremented (minute, hour) or read (month) successfully and is over
    its limit. *)
Theorem C7_fail_open req r :
  (exists o r', RateLimit.rateLimiter req r = (Ret o, r'))
  /\ (exists o r', RateLimit.checkMonthlyLimit req r = (Ret o, r'))
  /\ (forall t,
        RateLimit.tenant req = Some t ->
        RateLimit.plausible (RateLimit.limits t) ->
        Redis.down 3 r ->
        RateLimit.admitted (fst (RateLimit.rateLimiter req r)) = true
        /\ RateLimit.admitted (fst (RateLimit.checkMonthlyLimit req r)) = true)
  /\ (forall t code body r',
        RateLimit.tenant req = Some t ->
        RateLimit.plausible (RateLimit.limits t) ->
        RateLimit.rateLimiter req r = (Ret (RateLimit.Send code body), r') ->
        (exists v,
            Redis.data r' !! RateLimit.minuteKey t (RateLimit.nowMinute req)
            = Some v
            /\ requestsPerMinute (RateLimit.limits t) < v)
        \/ (exists v,
               Redis.data r' !! RateLimit.hourKey t (RateLimit.nowHour req)
               = Some v
               /\ requestsPerHour (RateLimit.limits t) < v))
  /\ (forall t code body r',
        RateLimit.tenant req = Some t ->
        RateLimit.plausible (RateLimit.limits t) ->
        RateLimit.checkMonthlyLimit req r
        = (Ret (RateLimit.Send code body), r') ->
        exists v,
          Redis.data r !! RateLimit.monthKey t (RateLimit.currentMonth req)
          = Some v
          /\ apiCallsPerMonth (RateLimit.limits t) <= v).
Proof.
  split; [apply rateLimiter_never_throws|].
  split; [apply checkMonthlyLimit_never_throws|].
  split; [|split].
  - intros t Ht Hpl Hdown.
    destruct (rateLimiter_down t req r Ht Hpl (down_le 3 2 r ltac:(lia) Hdown))
      as (hs & r1 & -> & _).
    destruct (checkMonthlyLimit_down t req r Ht Hpl Hdown) as (r2 & -> & _).
    done.
  - intros t code body r' Ht (Hm & Hh & _) Hsend.
    destruct (rateLimiter_denial_backed t req r code body r' Ht Hm Hh Hsend)
      as [(v & Hv & Hlt & _)|(v & Hv & Hlt & _)]; [left|right]; by exists v.
  - intros t code body r' Ht (_ & _ & Hmo) Hsend.
    destruct (checkMonthlyLimit_denial_backed t req r code body r' Ht Hmo Hsend)
      as (v & Hv & Hle & _).
    by exists v.
Qed.

(** A free-plan tenant with the store offline is admitted by both
    checks. *)
Lemma C7_fail_open_witness :
  RateLimit.admitted
    (fst (RateLimit.rateLimiter (Fixtures.requestAt 1790000000000)
            Fixtures.offline)) = true
  /\ RateLimit.admitted
       (fst (RateLimit.checkMonthlyLimit (Fixtures.requestAt 1790000000000)
               Fixtures.offline)) = true.
Proof.
  destruct (C7_fail_open (Fixtures.requestAt 1790000000000) Fixtures.offline)
    as (_ & _ & Hdown & _).
  apply (Hdown Fixtures.acme).
  - reflexivity.
  - apply plans_plausible.
  - left. by left.
Defined.

(** C7 as stated fails: the increment of the minute counter is rejected
    (the counter stays absent), the increment of the hour counter goes
    through and finds the free plan's limit of 100 exceeded, and the request
    is answered 429. *)
Lemma C7_counterexample :
  let r := Fixtures.store
             {[ RateLimit.hourKey Fixtures.acme 1790000000000 := 100 ]}
             [true] in
  let run := RateLimit.rateLimiter (Fixtures.requestAt 1790000000000) r in
  Redis.faults r = [true]
  /\ Redis.data (snd run)
     !! RateLimit.minuteKey Fixtures.acme 1790000000000 = None
  /\ fst run = Ret (RateLimit.hourDenial (PLANS FREE))
  /\ RateLimit.admitted (fst run) = false.
Proof. vm_compute. repeat split. Qed.

(** * Properties of the double arithmetic *)

Section DoubleFacts.
Import Double.
Local Open Scope Q_scope.

(** [rne] is within one half of its argument. *)
Lemma rne_lower x : x - (1 # 2) <= inject_Z (rne x).
Proof.
  unfold rne.
  pose proof (Qfloor_le x) as Hle. pose proof (Qlt_floor x) as Hlt.
  rewrite inject_Z_plus in Hlt.
  destruct (x - inject_Z (Qfloor x) ?= 1 # 2) eqn:Hc.
  - apply Qeq_alt in Hc.
    destruct (Z.even (Qfloor x)); rewrite ?inject_Z_plus;
      change (inject_Z 1) with 1 in *; lra.
  - apply Qlt_alt in Hc. lra.
  - rewrite inject_Z_plus. change (inject_Z 1) with 1 in *. lra.
Qed.

Lemma rne_upper x : inject_Z (rne x) <= x + (1 # 2).
Proof.
  unfold rne.
  pose proof (Qfloor_le x) as Hle. pose proof (Qlt_floor x) as Hlt.
  rewrite inject_Z_plus in Hlt.
  destruct (x - inject_Z (Qfloor x) ?= 1 # 2) eqn:Hc.
  - apply Qeq_alt in Hc.
    destruct (Z.even (Qfloor x)); rewrite ?inject_Z_plus;
      change (inject_Z 1) with 1 in *; lra.
  - apply Qlt_alt in Hc. change (inject_Z 1) with 1 in *. lra.
  - apply Qgt_alt in Hc. rewrite inject_Z_plus.
    change (inject_Z 1) with 1 in *. lra.
Qed.

(** A tie goes to the even neighbour. *)
Lemma rne_tie (k : Z) : rne (inject_Z k + (1 # 2)) = (if Z.even k then k else k + 1)%Z.
Proof.
  assert (Hf : Qfloor (inject_Z k + (1 # 2)) = k).
  { apply Z.le_antisymm.
    - apply Z.lt_succ_r. rewrite Zlt_Qlt.
      eapply Qle_lt_trans; [apply Qfloor_le|].
      unfold Z.succ. rewrite inject_Z_plus.
      change (inject_Z 1) with 1. lra.
    - rewrite <- (Qfloor_Z k) at 1. apply Qfloor_resp_le. lra. }
  unfold rne. rewrite Hf.
  assert (Hc : inject_Z k + (1 # 2) - inject_Z k == 1 # 2) by ring.
  apply Qeq_alt in Hc. by rewrite Hc.
Qed.

Lemma rne_ge_int (k : Z) x : inject_Z k <= x -> (k <= rne x)%Z.
Proof.
  intros Hk. assert (Hf : (k <= Qfloor x)%Z).
  { rewrite <- (Qfloor_Z k). by apply Qfloor_resp_le. }
  unfold rne. destruct (_ ?= _); [destruct (Z.even _)|..]; lia.
Qed.

Lemma round_eq q :
  round q == inject_Z (rne (q * 2 ^ (- ulpExp q))) * 2 ^ ulpExp q.
Proof. unfold round. apply Qred_correct. Qed.

Lemma pow2_pos (e : Z) : 0 < 2 ^ e.
Proof. by apply Qpower_0_lt. Qed.

Lemma pow2_cancel (e : Z) : 2 ^ (- e) * 2 ^ e == 1.
Proof.
  rewrite <- Qpower_plus by done.
  replace (- e + e)%Z with 0%Z by lia. reflexivity.
Qed.

Lemma ilog2_spec q : 0 < q -> 2 ^ ilog2 q <= q /\ q < 2 ^ (ilog2 q + 1).
Proof.
  intros Hq. unfold ilog2.
  destruct q as [a b]. assert (Ha : (0 < a)%Z).
  { unfold Qlt in Hq. simpl in Hq. lia. }
  simpl Qnum. simpl Qden.
  set (la := Z.log2 a). set (lb := Z.log2 (Z.pos b)).
  destruct (Z.log2_spec a Ha) as [Ha1 Ha2]. fold la in Ha1, Ha2.
  destruct (Z.log2_spec (Z.pos b) ltac:(lia)) as [Hb1 Hb2].
  fold lb in Hb1, Hb2.
  assert (Hla : (0 <= la)%Z) by apply Z.log2_nonneg.
  assert (Hlb : (0 <= lb)%Z) by apply Z.log2_nonneg.
  assert (Hab : a # b == inject_Z a / inject_Z (Z.pos b)).
  { rewrite Qmake_Qdiv. reflexivity. }
  assert (Hbpos : 0 < inject_Z (Z.pos b)).
  { unfold Qlt. simpl. lia. }
  assert (HA1 : 2 ^ la <= inject_Z a).
  { rewrite <- (Zpower_Qpower 2 la) by done. by rewrite <- Zle_Qle. }
  assert (HA2 : inject_Z a < 2 ^ (la + 1)).
  { rewrite <- (Zpower_Qpower 2 (la + 1)) by lia. rewrite <- Zlt_Qlt.
    by rewrite <- Z.add_1_r in Ha2. }
  assert (HB1 : 2 ^ lb <= inject_Z (Z.pos b)).
  { rewrite <- (Zpower_Qpower 2 lb) by done. by rewrite <- Zle_Qle. }
  assert (HB2 : inject_Z (Z.pos b) < 2 ^ (lb + 1)).
  { rewrite <- (Zpower_Qpower 2 (lb + 1)) by lia. rewrite <- Zlt_Qlt.
    by rewrite <- Z.add_1_r in Hb2. }
  assert (Hlow : 2 ^ (la - lb - 1) * inject_Z (Z.pos b) < inject_Z a).
  { apply Qlt_le_trans with (2 ^ (la - lb - 1) * 2 ^ (lb + 1)).
    - apply Qmult_lt_l; [apply pow2_pos|done].
    - rewrite <- Qpower_plus by done.
      replace (la - lb - 1 + (lb + 1))%Z with la by lia. done. }
  assert (Hhigh : inject_Z a < 2 ^ (la - lb + 1) * inject_Z (Z.pos b)).
  { apply Qlt_le_trans with (2 ^ (la - lb + 1) * 2 ^ lb).
    - rewrite <- Qpower_plus by done.
      replace (la - lb + 1 + lb)%Z with (la + 1)%Z by lia. done.
    - apply Qmult_le_l; [apply pow2_pos|done]. }
  assert (Hdiv : forall x, x * inject_Z (Z.pos b) < inject_Z a -> x < a # b).
  { intros x Hx. rewrite Hab. by apply Qlt_shift_div_l. }
  assert (Hdiv' : forall x, inject_Z a < x * inject_Z (Z.pos b) -> a # b < x).
  { intros x Hx. rewrite Hab. by apply Qlt_shift_div_r. }
  destruct (Qle_bool (2 ^ (la - lb)) (a # b)) eqn:Hle.
  - apply Qle_bool_iff in Hle. split; [done|]. by apply Hdiv'.
  - assert (Hlt : a # b < 2 ^ (la - lb)).
    { apply Qnot_le_lt. intros H. apply Qle_bool_iff in H. congruence. }
    replace (la - lb - 1 + 1)%Z with (la - lb)%Z by lia.
    split; [|done]. apply Qlt_le_weak. by apply Hdiv.
Qed.

(** Above the subnormal range the unit in the last place of [q] is at
    most [q * 2^-52]. *)
Lemma ulp_le q : 2 ^ (-1022) <= q -> 2 ^ (ulpExp q + 52) <= q.
Proof.
  intros Hq. assert (Hpos : 0 < q).
  { eapply Qlt_le_trans; [apply (pow2_pos (-1022))|done]. }
  assert (Habs : Qabs q = q).
  { destruct q as [a b]. unfold Qlt in Hpos. simpl in *.
    by rewrite Z.abs_eq by lia. }
  unfold ulpExp. rewrite Habs.
  destruct (Z.max_spec (ilog2 q - 52) (-1074)) as [[_ ->]|[_ ->]].
  - done.
  - replace (ilog2 q - 52 + 52)%Z with (ilog2 q) by lia.
    by apply ilog2_spec.
Qed.

Lemma round_nonneg q : 0 <= q -> 0 <= round q.
Proof.
  intros Hq. rewrite round_eq. apply Qmult_le_0_compat.
  - change 0 with (inject_Z 0). rewrite <- Zle_Qle. apply rne_ge_int.
    change (inject_Z 0) with 0. apply Qmult_le_0_compat; [done|].
    apply Qlt_le_weak, pow2_pos.
  - apply Qlt_le_weak, pow2_pos.
Qed.

(** Rounding moves a number by at most half a unit in the last place. *)
Lemma round_lower q : 2 ^ (-1022) <= q -> q - q * (1 # 2 ^ 53) <= round q.
Proof.
  intros Hq. pose proof (ulp_le q Hq) as Hu.
  rewrite round_eq. set (u := ulpExp q) in *.
  pose proof (rne_lower (q * 2 ^ (- u))) as Hr.
  pose proof (pow2_pos u) as Hp.
  assert (Hu' : 2 ^ u * 2 ^ 52 <= q).
  { by rewrite <- Qpower_plus. }
  apply Qle_trans with ((q * 2 ^ (- u) - (1 # 2)) * 2 ^ u).
  - assert (E : (q * 2 ^ (- u) - (1 # 2)) * 2 ^ u
                == q * (2 ^ (- u) * 2 ^ u) - (1 # 2) * 2 ^ u) by ring.
    rewrite E, pow2_cancel.
    change (2 ^ 52) with (4503599627370496 # 1) in Hu'.
    change (1 # 2 ^ 53) with (1 # 9007199254740992). lra.
  - apply Qmult_le_compat_r; [done|by apply Qlt_le_weak].
Qed.

Lemma round_upper q : 2 ^ (-1022) <= q -> round q <= q + q * (1 # 2 ^ 53).
Proof.
  intros Hq. pose proof (ulp_le q Hq) as Hu.
  rewrite round_eq. set (u := ulpExp q) in *.
  pose proof (rne_upper (q * 2 ^ (- u))) as Hr.
  pose proof (pow2_pos u) as Hp.
  assert (Hu' : 2 ^ u * 2 ^ 52 <= q).
  { by rewrite <- Qpower_plus. }
  apply Qle_trans with ((q * 2 ^ (- u) + (1 # 2)) * 2 ^ u).
  - apply Qmult_le_compat_r; [done|by apply Qlt_le_weak].
  - assert (E : (q * 2 ^ (- u) + (1 # 2)) * 2 ^ u
                == q * (2 ^ (- u) * 2 ^ u) + (1 # 2) * 2 ^ u) by ring.
    rewrite E, pow2_cancel.
    change (2 ^ 52) with (4503599627370496 # 1) in Hu'.
    change (1 # 2 ^ 53) with (1 # 9007199254740992). lra.
Qed.

(** 1 is a double: nothing at or above it rounds below it. *)
Lemma round_ge_1 q : 1 <= q -> 1 <= round q.
Proof.
  intros Hq. rewrite round_eq. set (u := ulpExp q).
  pose proof (pow2_pos u) as Hp.
  destruct (Z.le_gt_cases u 0) as [Hu|Hu].
  - assert (Hk : (2 ^ (- u) <= rne (q * 2 ^ (- u)))%Z).
    { apply rne_ge_int. rewrite Zpower_Qpower by lia.
      change (inject_Z 2) with 2.
      rewrite <- (Qmult_1_l (2 ^ (- u))) at 1.
      apply Qmult_le_compat_r; [done|]. apply Qlt_le_weak, pow2_pos. }
    rewrite Zle_Qle, Zpower_Qpower in Hk by lia.
    change (inject_Z 2) with 2 in Hk.
    rewrite <- (pow2_cancel u).
    apply Qmult_le_compat_r; [done|by apply Qlt_le_weak].
  - assert (Hone : (1 <= rne (q * 2 ^ (- u)))%Z).
    { apply rne_ge_int. change (inject_Z 1) with 1.
      assert (Hq' : 2 ^ (-1022) <= q).
      { apply Qle_trans with 1; [|done]. by vm_compute. }
      pose proof (ulp_le q Hq') as Hul. fold u in Hul.
      rewrite <- (pow2_cancel u). rewrite (Qmult_comm q).
      apply Qmult_le_l; [apply pow2_pos|].
      apply Qle_trans with (2 ^ (u + 52)); [|done].
      apply Qpower_le_compat_l; [lia|done]. }
    rewrite Zle_Qle in Hone.
    apply Qle_trans with (1 * 2 ^ u).
    + rewrite Qmult_1_l. apply Qpower_1_le; [done|lia].
    + apply Qmult_le_compat_r; [done|by apply Qlt_le_weak].
Qed.

End DoubleFacts.

(** [round] agrees with the reference model on the literals, products and
    sums of the keyword tier, among them the tie of 6 * 0.15. *)
Example double_reference :
  let w := SFdiv 53 1024 (Double.binary64 15) (Double.binary64 100) in
  let times n := SFmul 53 1024 (Double.binary64 n) w in
  Double.literal (15 # 100) = Double.ofFloat w
  /\ Double.literal (1 # 10)
     = Double.ofFloat
         (SFdiv 53 1024 (Double.binary64 1) (Double.binary64 10))
  /\ Forall (fun n => Double.mul (inject_Z n) (Double.ofFloat w)
                      = Double.ofFloat (times n))
       [0; 1; 2; 3; 4; 5; 6; 7; 40; 1000003]%Z
  /\ Forall (fun '(m, n) =>
               Double.add (Double.ofFloat (times m)) (Double.ofFloat (times n))
               = Double.ofFloat (SFadd 53 1024 (times m) (times n)))
       [(0, 0); (1, 1); (1, 2); (2, 1); (3, 3); (1, 5); (5, 1); (2, 4);
        (6, 0); (6, 1); (40, 3)]%Z.
Proof.
  cbv zeta. split; [vm_compute; reflexivity|].
  split; [vm_compute; reflexivity|].
  split; repeat (constructor; [vm_compute; reflexivity|]); constructor.
Qed.

(** Six matches in one keyword and six matches spread over two keywords
    do not add up to the same double. *)
Example six_matches :
  Search.addMatches 0 6 = (2026619832316723 # 2251799813685248)%Q
  /\ Search.addMatches (Search.addMatches 0 1) 5
     = (8106479329266893 # 9007199254740992)%Q
  /\ Double.literal (9 # 10) = (8106479329266893 # 9007199254740992)%Q.
Proof. vm_compute. repeat constructor. Qed.

(** The doubles [min(1.0, n * 0.15)] for one to seven matches: 0.15, 0.3,
    0.44999999999999996, 0.6, 0.75, 0.8999999999999999 and 1. *)
Example score_by_matches :
  (fun n => Qmin 1 (Double.mul (inject_Z n) Search.matchWeight))
  <$> [1; 2; 3; 4; 5; 6; 7]%Z
  = [5404319552844595 # 36028797018963968;
     5404319552844595 # 18014398509481984;
     2026619832316723 # 4503599627370496;
     5404319552844595 # 9007199254740992;
     3 # 4;
     2026619832316723 # 2251799813685248;
     1]%Q.
Proof. vm_compute. reflexivity. Qed.

(** * Properties of the keyword score *)

Section ScoreFacts.
Import Search.
Local Open Scope Q_scope.

Lemma matchWeight_value :
  matchWeight = 5404319552844595 # 36028797018963968.
Proof. vm_compute. reflexivity. Qed.

Lemma product_nonneg (c : nat) :
  0 <= Double.mul (inject_Z (Z.of_nat c)) matchWeight.
Proof.
  apply round_nonneg. apply Qmult_le_0_compat; [|by vm_compute].
  change 0 with (inject_Z 0). rewrite <- Zle_Qle. lia.
Qed.

(** The product [matches * 0.15] is at least 0.1499 times [matches]. *)
Lemma product_lower (c : nat) :
  (1499 # 10000) * inject_Z (Z.of_nat c)
  <= Double.mul (inject_Z (Z.of_nat c)) matchWeight.
Proof.
  destruct c as [|c].
  { eapply Qle_trans; [|apply (product_nonneg 0)]. by vm_compute. }
  assert (Hc : 1 <= inject_Z (Z.of_nat (S c))).
  { change 1 with (inject_Z 1). rewrite <- Zle_Qle. lia. }
  unfold Double.mul. rewrite matchWeight_value.
  set (C := inject_Z (Z.of_nat (S c))) in *.
  assert (Hsmall : 2 ^ (-1022)
                   <= C * (5404319552844595 # 36028797018963968)).
  { apply Qle_trans with (1 # 8); [by vm_compute|]. lra. }
  pose proof (round_lower _ Hsmall) as Hr.
  change (1 # 2 ^ 53) with (1 # 9007199254740992) in Hr. lra.
Qed.

Ltac sums_cases H :=
  match type of H with
  | _ ∈ sums ?n =>
      let v := eval vm_compute in (sums n) in
      replace (sums n) with v in H by (vm_compute; reflexivity);
      repeat (apply elem_of_cons in H as [->|H]);
      [..|by apply elem_of_nil in H]
  end.

Lemma sums_step n sc c :
  (n + c <= 6)%nat -> sc ∈ sums n -> addMatches sc c ∈ sums (n + c).
Proof.
  intros Hle Hsc.
  do 7 (destruct n as [|n];
        [sums_cases Hsc;
         do 7 (destruct c as [|c];
               [first [exfalso; lia
                      |apply (bool_decide_unpack _); by vm_compute]|]);
         exfalso; lia|]).
  exfalso; lia.
Qed.

Lemma sums_lower n sc :
  (n <= 6)%nat -> sc ∈ sums n ->
  (1499 # 10000) * inject_Z (Z.of_nat n) <= sc.
Proof.
  intros Hle Hsc.
  do 7 (destruct n as [|n]; [sums_cases Hsc; by vm_compute|]).
  exfalso; lia.
Qed.

(** Adding the matches of one more keyword. *)
Lemma addMatches_reached n sc c :
  reached n sc -> reached (n + c) (addMatches sc c).
Proof.
  intros [[Hn Hsc]|[Hn Hsc]].
  - destruct (le_lt_dec (n + c) 6) as [Hle|Hgt].
    + left. split; [done|]. by apply sums_step.
    + right. split; [lia|]. unfold addMatches, Double.add.
      apply round_ge_1.
      pose proof (sums_lower n sc Hn Hsc) as H1.
      pose proof (product_lower c) as H2.
      assert (H3 : 7 <= inject_Z (Z.of_nat n) + inject_Z (Z.of_nat c)).
      { rewrite <- inject_Z_plus. change 7 with (inject_Z 7).
        rewrite <- Zle_Qle. lia. }
      lra.
  - right. split; [lia|]. unfold addMatches, Double.add.
    apply round_ge_1. pose proof (product_nonneg c). lra.
Qed.

(** The score [Math.min(score, 1.0)] of [n] matches. *)
Lemma reached_score n sc :
  reached n sc ->
  (n = O -> sc = 0)
  /\ ((1 <= n)%nat -> minRelevance < Qmin sc 1)
  /\ Qmin sc 1 <= 1
  /\ ((7 <= n)%nat -> Qmin sc 1 == 1)
  /\ (Qmin sc 1
      == Qmin 1 (Double.mul (inject_Z (Z.of_nat n)) matchWeight)
      \/ n = 6%nat /\ Qmin sc 1 == Double.literal (9 # 10))
  /\ Qabs (Qmin sc 1 - Qmin 1 ((15 # 100) * inject_Z (Z.of_nat n)))
     <= 1 # 2 ^ 53.
Proof.
  intros [[Hn Hsc]|[Hn Hsc]].
  - do 7 (destruct n as [|n];
          [sums_cases Hsc;
           (split; [try done; by intros [=]|]);
           (split; [first [by vm_compute|intros; exfalso; lia]|]);
           (split; [by vm_compute|]);
           (split; [intros; exfalso; lia|]);
           (split; [|by vm_compute]);
           first [left; by vm_compute|right; split; [done|by vm_compute]]|]).
    exfalso; lia.
  - assert (Hmin : Qmin sc 1 == 1) by by apply Q.min_r.
    assert (Hn' : 7 <= inject_Z (Z.of_nat n)).
    { change 7 with (inject_Z 7). rewrite <- Zle_Qle. lia. }
    split; [intros ->; lia|]. split; [intros _; by rewrite Hmin|].
    split; [by rewrite Hmin|]. split; [done|]. split.
    + left. rewrite Hmin. symmetry. apply Q.min_l.
      pose proof (product_lower n). lra.
    + rewrite Hmin.
      assert (E : Qmin 1 ((15 # 100) * inject_Z (Z.of_nat n)) == 1).
      { apply Q.min_l. lra. }
      rewrite E. by vm_compute.
Qed.

End ScoreFacts.

(** * Properties of the tiered search *)

Section SearchFacts.
Import Search.
Context {engine : RegexEngine}.

Lemma insertByScore_elem p x l :
  p ∈ insertByScore x l <-> p = x \/ p ∈ l.
Proof.
  induction l as [|y l IH]; simpl.
  - rewrite list_elem_of_singleton, elem_of_nil. tauto.
  - destruct (Qle_bool (score y) (score x)).
    + by rewrite elem_of_cons.
    + rewrite !elem_of_cons, IH. tauto.
Qed.

Lemma sortByScore_elem p l : p ∈ sortByScore l <-> p ∈ l.
Proof.
  induction l as [|x l IH]; simpl; [done|].
  by rewrite insertByScore_elem, elem_of_cons, IH.
Qed.

Lemma insertByScore_sorted x l :
  StronglySorted scoreDesc l -> StronglySorted scoreDesc (insertByScore x l).
Proof.
  induction 1 as [|y l Hsorted IH Hall]; simpl.
  - by repeat constructor.
  - destruct (Qle_bool (score y) (score x)) eqn:Hle.
    + apply Qle_bool_iff in Hle. constructor; [by constructor|].
      constructor; [done|].
      eapply Forall_impl; [exact Hall|]. unfold scoreDesc. intros z Hz.
      by apply Qle_trans with (score y).
    + constructor; [done|]. apply list.Forall_forall. intros z Hz.
      apply insertByScore_elem in Hz as [->|Hz].
      * unfold scoreDesc. apply Qlt_le_weak, Qnot_le_lt.
        intros Hyx. apply Qle_bool_iff in Hyx. congruence.
      * by eapply list.Forall_forall in Hall.
Qed.

Lemma sortByScore_sorted l : StronglySorted scoreDesc (sortByScore l).
Proof.
  induction l as [|x l IH]; simpl; [constructor|].
  by apply insertByScore_sorted.
Qed.

Lemma StronglySorted_take {A} (R : A -> A -> Prop) n l :
  StronglySorted R l -> StronglySorted R (take n l).
Proof.
  intros Hs. revert n. induction Hs as [|x l Hs IH Hall]; intros [|n];
    simpl; try constructor; [apply IH|by apply Forall_take].
Qed.

Lemma excMap_Forall2 {A B} (f : A -> Exc B) l ys :
  excMap f l = Ret ys -> Forall2 (fun x y => f x = Ret y) l ys.
Proof.
  revert ys. induction l as [|x l IH]; simpl; intros ys Hys.
  - injection Hys as <-. constructor.
  - destruct (f x) as [y|e] eqn:Hfx; simpl in Hys; [|done].
    destruct (excMap f l) as [ys'|e]; simpl in Hys; [|done].
    injection Hys as <-. constructor; [done|by apply IH].
Qed.

(** The sum left by the [forEach], by the number of matches added. *)
Lemma keywordScore_reached keywords subject :
  forall m acc q,
    excFold (fun sc keyword =>
               match jsRegExp keyword with
               | Some count => Ret (addMatches sc (count subject))
               | None => Throw "Invalid regular expression"
               end) keywords acc = Ret q ->
    reached m acc ->
    exists n, totalMatches keywords subject = Some n /\ reached (m + n) q.
Proof.
  induction keywords as [|k keywords IH]; simpl; intros m acc q Hq Hacc.
  - injection Hq as <-. exists O. split; [done|]. by rewrite Nat.add_0_r.
  - destruct (jsRegExp k) as [count|]; simpl in *; [|done].
    destruct (IH _ _ _ Hq (addMatches_reached m acc (count subject) Hacc))
      as (n & -> & Hn).
    simpl. eexists. split; [done|]. by rewrite Nat.add_assoc.
Qed.

Lemma keywordScore_total keywords subject sc :
  keywordScore keywords subject = Ret sc ->
  exists n, totalMatches keywords subject = Some n /\ reached n sc.
Proof.
  intros Hsc. apply (keywordScore_reached keywords subject 0 0%Q sc Hsc).
  left. split; [lia|]. apply (bool_decide_unpack _). by vm_compute.
Qed.

Lemma totalMatches_positive keywords subject n :
  totalMatches keywords subject = Some n -> (1 <= n)%nat ->
  exists k count, k ∈ keywords /\ jsRegExp k = Some count
                  /\ (1 <= count subject)%nat.
Proof.
  revert n. induction keywords as [|k keywords IH]; simpl; intros n Hn Hpos.
  - injection Hn as <-. lia.
  - destruct (jsRegExp k) as [count|] eqn:Hk; simpl in Hn; [|done].
    destruct (totalMatches keywords subject) as [m|]; simpl in Hn; [|done].
    injection Hn as <-.
    destruct (decide (1 <= count subject)%nat) as [Hc|Hc].
    + exists k, count. split; [left|done].
    + destruct (IH m eq_refl ltac:(lia)) as (k' & c' & Hin & Hk' & Hc').
      exists k', c'. split; [by right|done].
Qed.

(** The rows the regex query returns: stored rows that pass the tenant
    and type filter and one alternative of the [$or]. *)
Lemma regexFind_found b tenantId sectionType keywords limit found :
  regexFind b tenantId sectionType keywords limit = Ret found ->
  exists every each,
    mongoRegex (regexPatternOf keywords) = Some every
    /\ Forall2 (fun k m => mongoRegex k = Some m) keywords each
    /\ forall d, d ∈ found ->
         d ∈ chunksCollection b
         /\ baseFilter tenantId sectionType d = true
         /\ orFilter every each d = true.
Proof.
  unfold regexFind. intros Hfind.
  destruct (findRejects b); [done|].
  destruct (mongoRegex _) as [every|]; [|done].
  destruct (excMap _ keywords) as [each|] eqn:Heach; [|done].
  injection Hfind as <-. exists every, each. split; [done|]. split.
  - apply excMap_Forall2 in Heach.
    eapply Forall2_impl; [exact Heach|]. intros k m. simpl.
    destruct (mongoRegex k); [by intros [= ->]|done].
  - intros d Hd.
    assert (Hin : d ∈ filter
              (fun d => baseFilter tenantId sectionType d
                        && orFilter every each d = true) (chunksCollection b)).
    { destruct (limit * 2)%nat; [done|]. simpl in Hd.
      apply elem_of_take in Hd as (? & Hd & _).
      by eapply list_elem_of_lookup_2. }
    apply list_elem_of_filter in Hin as [Hflt Hin].
    apply andb_true_iff in Hflt as [Hbase Hor]. done.
Qed.

(** A row that passes the [$or]: the conjunctive pattern matches its text
    or its title, or one keyword alone matches its text. *)
Lemma orFilter_cases keywords every each d :
  Forall2 (fun k m => mongoRegex k = Some m) keywords each ->
  orFilter every each d = true ->
  every (c_text d) = true
  \/ every (c_sectionTitle d) = true
  \/ exists keyword m,
       keyword ∈ keywords /\ mongoRegex keyword = Some m
       /\ m (c_text d) = true.
Proof.
  intros Heach Hor. unfold orFilter in Hor.
  apply orb_true_iff in Hor as [Hor|Hor];
    [apply orb_true_iff in Hor as [Hor|Hor]; auto|].
  right. right. apply existsb_exists in Hor as (m & Hm & Htext).
  apply list_elem_of_In, list_elem_of_lookup in Hm as [i Hi].
  destruct (Forall2_lookup_r _ _ _ _ _ Heach Hi) as (k & Hk & Hkm).
  exists k, m. split; [by eapply list_elem_of_lookup_2|done].
Qed.

(** What [regexTier] returns, read off its pipeline. *)
Lemma regexTier_results b tenantId queryText limit sectionType results :
  regexTier b tenantId queryText limit sectionType = Ret results ->
  StronglySorted scoreDesc results
  /\ (length results <= limit)%nat
  /\ forall p, p ∈ results ->
       (minRelevance < score p)%Q
       /\ exists d every each sc n,
            d ∈ chunksCollection b
            /\ baseFilter tenantId sectionType d = true
            /\ mongoRegex (regexPatternOf (keywordsOf queryText)) = Some every
            /\ Forall2 (fun k m => mongoRegex k = Some m)
                 (keywordsOf queryText) each
            /\ orFilter every each d = true
            /\ p = project d (Qmin sc 1)
            /\ keywordScore (keywordsOf queryText)
                 (JS.toLowerCase (c_text d +:+ " " +:+ c_sectionTitle d))
               = Ret sc
            /\ totalMatches (keywordsOf queryText)
                 (JS.toLowerCase (c_text d +:+ " " +:+ c_sectionTitle d))
               = Some n
            /\ (1 <= n)%nat
            /\ reached n sc.
Proof.
  unfold regexTier. intros Hres.
  destruct (regexFind _ _ _ _ _) as [found|e] eqn:Hfind; simpl in Hres; [|done].
  destruct (excMap _ found) as [scored|e] eqn:Hscored; simpl in Hres; [|done].
  injection Hres as <-. split; [|split].
  - apply StronglySorted_take, sortByScore_sorted.
  - rewrite length_take. lia.
  - intros p Hp. apply elem_of_take in Hp as (i & Hp & _).
    apply list_elem_of_lookup_2 in Hp.
    apply sortByScore_elem, list_elem_of_filter in Hp as [Hscore Hp].
    assert (Habove : (minRelevance < score p)%Q).
    { apply Qnot_le_lt. intros Hle. apply Qle_bool_iff in Hle. congruence. }
    split; [done|].
    apply excMap_Forall2 in Hscored.
    apply list_elem_of_lookup in Hp as [j Hj].
    destruct (Forall2_lookup_r _ _ _ _ _ Hscored Hj) as (d & Hd & Hsc).
    unfold scoreResult in Hsc.
    destruct (keywordScore _ _) as [sc|e] eqn:Hq; simpl in Hsc; [|done].
    injection Hsc as <-.
    destruct (keywordScore_total _ _ _ Hq) as (n & Hn & Hreached).
    destruct (regexFind_found _ _ _ _ _ _ Hfind)
      as (every & each & Hevery & Heach & Hfound).
    destruct (Hfound d ltac:(by eapply list_elem_of_lookup_2))
      as (Hin & Hbase & Hor).
    exists d, every, each, sc, n.
    do 8 (split; [done|]). split; [|done].
    destruct n as [|n]; [|lia]. exfalso.
    destruct (reached_score _ _ Hreached) as (Hzero & _).
    rewrite (Hzero eq_refl) in Habove. simpl in Habove.
    revert Habove. by vm_compute.
Qed.

Lemma insertByScore_length x l :
  length (insertByScore x l) = S (length l).
Proof.
  induction l as [|y l IH]; simpl; [done|].
  destruct (Qle_bool (score y) (score x)); simpl; [done|]. by rewrite IH.
Qed.

Lemma sortByScore_length l : length (sortByScore l) = length l.
Proof.
  induction l as [|x l IH]; simpl; [done|].
  by rewrite insertByScore_length, IH.
Qed.

Lemma filter_length_mono {A} (P R : A -> Prop)
    `{!forall x, Decision (P x)} `{!forall x, Decision (R x)} (l : list A) :
  (forall x, P x -> R x) ->
  (length (filter P l) <= length (filter R l))%nat.
Proof.
  intros HPR. induction l as [|x l IH]; simpl; [done|].
  rewrite !filter_cons.
  destruct (decide (P x)) as [HP|HP].
  - rewrite decide_True by auto. simpl. lia.
  - destruct (decide (R x)); simpl; lia.
Qed.

Lemma totalMatches_ge keywords subject n keyword count :
  totalMatches keywords subject = Some n ->
  keyword ∈ keywords -> jsRegExp keyword = Some count ->
  (count subject <= n)%nat.
Proof.
  revert n. induction keywords as [|k keywords IH]; simpl;
    intros n Hn Hin Hk; [by apply elem_of_nil in Hin|].
  destruct (jsRegExp k) as [c|] eqn:Hc; simpl in Hn; [|done].
  destruct (totalMatches keywords subject) as [m|]; simpl in Hn; [|done].
  injection Hn as <-.
  apply elem_of_cons in Hin as [->|Hin].
  - rewrite Hc in Hk. injection Hk as <-. lia.
  - specialize (IH m eq_refl Hin Hk). lia.
Qed.

(** The converse of [orFilter_cases]. *)
Lemma orFilter_intro keywords every each d :
  Forall2 (fun k m => mongoRegex k = Some m) keywords each ->
  every (c_text d) = true
  \/ every (c_sectionTitle d) = true
  \/ (exists keyword m,
        keyword ∈ keywords /\ mongoRegex keyword = Some m
        /\ m (c_text d) = true) ->
  orFilter every each d = true.
Proof.
  intros Heach [Ht|[Ht|(k & m & Hk & Hkm & Hm)]]; unfold orFilter.
  - by rewrite Ht.
  - rewrite Ht. by rewrite orb_true_r.
  - apply orb_true_iff. right. apply existsb_exists.
    apply list_elem_of_lookup in Hk as [i Hi].
    destruct (Forall2_lookup_l _ _ _ _ _ Heach Hi) as (m' & Hm' & Hkm').
    rewrite Hkm in Hkm'. injection Hkm' as <-.
    exists m. split; [|done].
    apply list_elem_of_In. by eapply list_elem_of_lookup_2.
Qed.

(** When the tenant has no more chunks than [limit], nothing is cut off:
    every stored row that passes the filter and the [$or] and holds a
    match of a keyword is returned. *)
Lemma regexTier_complete b tenantId queryText limit sectionType results :
  regexTier b tenantId queryText limit sectionType = Ret results ->
  (length (filter (fun d => c_tenantId d = tenantId) (chunksCollection b))
   <= limit)%nat ->
  forall d every,
    d ∈ chunksCollection b ->
    baseFilter tenantId sectionType d = true ->
    mongoRegex (regexPatternOf (keywordsOf queryText)) = Some every ->
    every (c_text d) = true
    \/ every (c_sectionTitle d) = true
    \/ (exists keyword m,
          keyword ∈ keywordsOf queryText /\ mongoRegex keyword = Some m
          /\ m (c_text d) = true) ->
    (exists keyword count,
        keyword ∈ keywordsOf queryText /\ jsRegExp keyword = Some count
        /\ (1 <= count (JS.toLowerCase
                          (c_text d +:+ " " +:+ c_sectionTitle d)))%nat) ->
    exists sc, project d sc ∈ results.
Proof.
  unfold regexTier. intros Hres Hfew d every Hd Hbase Hevery Hor Hmatch.
  destruct (regexFind _ _ _ _ _) as [found|e] eqn:Hfind; simpl in Hres; [|done].
  destruct (excMap _ found) as [scored|e] eqn:Hscored; simpl in Hres; [|done].
  injection Hres as <-.
  unfold regexFind in Hfind.
  destruct (findRejects b); [done|]. rewrite Hevery in Hfind.
  destruct (excMap _ (keywordsOf queryText)) as [each|] eqn:Heach; [|done].
  injection Hfind as <-.
  assert (Heach' : Forall2 (fun k m => mongoRegex k = Some m)
                     (keywordsOf queryText) each).
  { apply excMap_Forall2 in Heach.
    eapply Forall2_impl; [exact Heach|]. intros k m. simpl.
    destruct (mongoRegex k); [by intros [= ->]|done]. }
  set (matching := filter
         (fun d => baseFilter tenantId sectionType d
                   && orFilter every each d = true) (chunksCollection b)) in *.
  assert (Hlen : (length matching <= limit)%nat).
  { etransitivity; [|exact Hfew]. apply filter_length_mono.
    intros x [Hx _]%andb_true_iff. unfold baseFilter in Hx.
    apply andb_true_iff in Hx as [Hx _]. by apply bool_decide_eq_true in Hx. }
  assert (Hall : mongoLimit (limit * 2) matching = matching).
  { unfold mongoLimit. destruct (limit * 2)%nat eqn:Hl; [done|].
    apply take_ge. lia. }
  rewrite Hall in Hscored.
  assert (Hin : d ∈ matching).
  { apply list_elem_of_filter. split; [|done].
    by rewrite Hbase, (orFilter_intro _ _ _ _ Heach' Hor). }
  apply excMap_Forall2 in Hscored.
  apply list_elem_of_lookup in Hin as [i Hi].
  destruct (Forall2_lookup_l _ _ _ _ _ Hscored Hi) as (p & Hp & Hsc).
  unfold scoreResult in Hsc.
  destruct (keywordScore _ _) as [sc|e] eqn:Hq; simpl in Hsc; [|done].
  injection Hsc as <-.
  destruct (keywordScore_total _ _ _ Hq) as (n & Hn & Hreached).
  destruct Hmatch as (keyword & count & Hk & Hcount & Hone).
  pose proof (totalMatches_ge _ _ _ _ _ Hn Hk Hcount) as Hge.
  destruct (reached_score _ _ Hreached) as (_ & Habove & _).
  specialize (Habove ltac:(lia)).
  exists (Qmin sc 1).
  rewrite take_ge.
  - apply sortByScore_elem, list_elem_of_filter. split.
    + simpl. destruct (Qle_bool _ _) eqn:Hle; [|done].
      apply Qle_bool_iff in Hle. by apply Qlt_not_le in Habove.
    + by eapply list_elem_of_lookup_2.
  - rewrite sortByScore_length.
    etransitivity; [apply length_filter|].
    apply Forall2_length in Hscored. lia.
Qed.









(** Once the first two tiers have fallen through, [search] returns what
    the keyword tier returns, or nothing when that tier throws. *)
Lemma search_keyword_tier b tenantId queryText options :
  let limit := default VECTOR_SEARCH.limit (optLimit options) in
  let minScore :=
    default VECTOR_SEARCH.similarityThreshold (optMinScore options) in
  let sectionType := optSectionType options in
  let vector := vectorTier b tenantId queryText limit minScore sectionType in
  let fullText := textTier b tenantId queryText limit sectionType in
  (vector = Ret [] \/ exists e, vector = Throw e) ->
  (fullText = Ret [] \/ exists e, fullText = Throw e) ->
  search b tenantId queryText options
  = excCatch (regexTier b tenantId queryText limit sectionType)
      (fun _ => Ret []).
Proof.
  intros limit minScore sectionType vector fullText Hv Ht.
  assert (Hfb : fallbackTextSearch b tenantId queryText options
                = excCatch (regexTier b tenantId queryText limit sectionType)
                    (fun _ => Ret [])).
  { unfold fallbackTextSearch. fold limit sectionType fullText.
    by destruct Ht as [->|[e ->]]. }
  unfold search. fold limit minScore sectionType vector. rewrite Hfb.
  destruct Hv as [->|[e ->]]; simpl; [|done].
  by destruct (regexTier _ _ _ _ _).
Qed.

End SearchFacts.

(** C3: the tiers are tried in order.  A non-empty vector result is
    returned as it is.  When the vector tier throws or returns nothing,
    [search] is the full-text fallback and no error propagates; a non-empty
    full-text result is then returned as it is, without the keyword tier;
    when the full-text tier throws or returns nothing the answer is the
    keyword tier's, so three empty tiers give the empty sequence.  [search]
    never throws. *)
Theorem C3_search_tier_order {engine : Search.RegexEngine}
    (b : Search.Backend) (tenantId queryText : string)
    (options : Search.Options) :
  let limit := default VECTOR_SEARCH.limit (Search.optLimit options) in
  let minScore :=
    default VECTOR_SEARCH.similarityThreshold (Search.optMinScore options) in
  let sectionType := Search.optSectionType options in
  let vector :=
    Search.vectorTier b tenantId queryText limit minScore sectionType in
  let fullText := Search.textTier b tenantId queryText limit sectionType in
  let keyword := Search.regexTier b tenantId queryText limit sectionType in
  let answer := Search.search b tenantId queryText options in
  (forall v vs, vector = Ret (v :: vs) -> answer = Ret (v :: vs))
  /\ ((vector = Ret [] \/ exists e, vector = Throw e) ->
        answer = Search.fallbackTextSearch b tenantId queryText options
        /\ (forall t ts, fullText = Ret (t :: ts) -> answer = Ret (t :: ts))
        /\ ((fullText = Ret [] \/ exists e, fullText = Throw e) ->
              forall rs, keyword = Ret rs -> answer = Ret rs))
  /\ exists results, answer = Ret results.
Proof.
  intros limit minScore sectionType vector fullText keyword answer.
  assert (Hfb : exists results,
            Search.fallbackTextSearch b tenantId queryText options
            = Ret results).
  { unfold Search.fallbackTextSearch. fold limit sectionType fullText keyword.
    destruct fullText as [[|t ts]|e]; simpl; eauto;
      destruct keyword; simpl; eauto. }
  assert (Hfall : (vector = Ret [] \/ exists e, vector = Throw e) ->
            answer = Search.fallbackTextSearch b tenantId queryText options).
  { unfold answer, Search.search. fold limit minScore sectionType vector.
    intros [->|[e ->]]; simpl; [|done].
    by destruct Hfb as [results ->]. }
  split; [|split].
  - intros v vs Hv. unfold answer, Search.search.
    fold limit minScore sectionType vector. by rewrite Hv.
  - intros Hv. split; [by apply Hfall|]. split.
    + intros t ts Ht. rewrite (Hfall Hv). unfold Search.fallbackTextSearch.
      fold limit sectionType fullText. by rewrite Ht.
    + intros Ht rs Hrs. unfold answer.
      rewrite (search_keyword_tier b tenantId queryText options Hv Ht).
      fold limit sectionType keyword. by rewrite Hrs.
  - unfold answer, Search.search. fold limit minScore sectionType vector.
    destruct Hfb as [results Hfb].
    destruct vector as [[|v vs]|e]; simpl; rewrite ?Hfb; simpl; eauto.
Qed.

(** With an empty vector index, no text index and no row matching a
    keyword, the answer is the empty sequence. *)
Lemma C3_search_tier_order_witness :
  Search.search (engine := literalEngine)
    (Fixtures.keywordOnly [Fixtures.shippingChunk]) "ten_acme"
    "refund policy" Fixtures.noOptions = Ret [].
Proof.
  destruct (C3_search_tier_order (engine := literalEngine)
              (Fixtures.keywordOnly [Fixtures.shippingChunk]) "ten_acme"
              "refund policy" Fixtures.noOptions) as (_ & Hfall & _).
  destruct (Hfall ltac:(by left)) as (_ & _ & Hkeyword).
  apply Hkeyword.
  - right. by eexists.
  - vm_compute. reflexivity.
Defined.

(** C4 (amended): the keyword-regex tier returns the passages that pass
    the [$or] of its query, not those that hold every keyword.  Every
    returned passage is the projection of a stored chunk such that the
    conjunctive pattern built from all keywords matches its text, or
    matches its section title, or one keyword alone matches its text; a
    title that holds only some of the keywords does not qualify a chunk.
    The chunk also has at least one match of a keyword in the lower-cased
    text and title, the match its score counts.  Conversely, when the
    tenant has no more chunks than [limit], so that nothing is cut off,
    every chunk of the tenant and of the requested type that passes the
    [$or] and has such a match is returned.  The keywords are, in order,
    the whitespace-separated words of the lower-cased query that are
    longer than two characters. *)
Theorem C4_keyword_tier_matches_some_keyword {engine : Search.RegexEngine}
    (b : Search.Backend) (tenantId queryText : string) (limit : nat)
    (sectionType : option string) (results : list Search.Passage) :
  Search.regexTier b tenantId queryText limit sectionType = Ret results ->
  let keywords := Search.keywordsOf queryText in
  let passes (every : string -> bool) (d : ChunkDoc) :=
    every (c_text d) = true
    \/ every (c_sectionTitle d) = true
    \/ exists keyword m,
         keyword ∈ keywords
         /\ Search.mongoRegex keyword = Some m
         /\ m (c_text d) = true in
  let counted (d : ChunkDoc) :=
    exists keyword count,
      keyword ∈ keywords
      /\ Search.jsRegExp keyword = Some count
      /\ (1 <= count (JS.toLowerCase
                        (c_text d +:+ " " +:+ c_sectionTitle d)))%nat in
  keywords
  = filter (fun k => (2 < String.length k)%nat)
      (JS.splitWhitespace (JS.toLowerCase queryText))
  /\ (forall p, p ∈ results ->
        exists d every,
          d ∈ Search.chunksCollection b
          /\ p = Search.project d (Search.score p)
          /\ Search.mongoRegex (Search.regexPatternOf keywords) = Some every
          /\ passes every d
          /\ counted d)
  /\ ((length (filter (fun d => c_tenantId d = tenantId)
                 (Search.chunksCollection b)) <= limit)%nat ->
      forall d every,
        d ∈ Search.chunksCollection b ->
        c_tenantId d = tenantId ->
        (forall ty, sectionType = Some ty -> ty <> "" ->
                    c_sectionType d = ty) ->
        Search.mongoRegex (Search.regexPatternOf keywords) = Some every ->
        passes every d ->
        counted d ->
        exists p, p ∈ results /\ p = Search.project d (Search.score p)).
Proof.
  intros Hres keywords passes counted.
  split; [reflexivity|]. split.
  - intros p Hp.
    destruct (regexTier_results _ _ _ _ _ _ Hres) as (_ & _ & Hall).
    destruct (Hall p Hp)
      as (_ & d & every & each & sc & n & Hd & _ & Hevery & Heach & Hor & Hpd
          & _ & Hn & Hpos & _).
    exists d, every. split; [done|]. split; [by rewrite Hpd|].
    split; [done|]. split.
    + by eapply orFilter_cases.
    + by apply (totalMatches_positive _ _ n Hn).
  - intros Hfew d every Hd Hten Hty Hevery Hor Hmatch.
    assert (Hbase : Search.baseFilter tenantId sectionType d = true).
    { unfold Search.baseFilter. rewrite bool_decide_eq_true_2 by done.
      destruct sectionType as [[|c ty]|]; [done| |done].
      simpl. by rewrite bool_decide_eq_true_2 by by apply Hty. }
    destruct (regexTier_complete _ _ _ _ _ _ Hres Hfew d every Hd Hbase
                Hevery Hor Hmatch) as [sc Hsc].
    by exists (Search.project d sc).
Qed.

(** The query "free shipping" over the chunk about returns: its text
    matches the keyword "free" alone, "free" is counted once, and the
    chunk is returned. *)
Lemma C4_keyword_tier_matches_some_keyword_witness :
  let p := Search.project Fixtures.returnsChunk Search.matchWeight in
  Search.regexTier (engine := literalEngine)
    (Fixtures.keywordOnly [Fixtures.returnsChunk]) "ten_acme"
    "free shipping" 5 None = Ret [p]
  /\ exists every,
       LiteralEngine.mongoRegex "(?=.*free)(?=.*shipping)" = Some every
       /\ (every "Free returns within 30 days" = true
           \/ every "Returns" = true
           \/ exists keyword m,
                keyword ∈ ["free"; "shipping"]
                /\ LiteralEngine.mongoRegex keyword = Some m
                /\ m "Free returns within 30 days" = true)
       /\ (exists keyword count,
              keyword ∈ ["free"; "shipping"]
              /\ LiteralEngine.jsRegExp keyword = Some count
              /\ (1 <= count "free returns within 30 days returns")%nat)
       /\ exists q,
            q ∈ [p]
            /\ q = Search.project Fixtures.returnsChunk (Search.score q).
Proof.
  intros p.
  assert (Hres : Search.regexTier (engine := literalEngine)
                   (Fixtures.keywordOnly [Fixtures.returnsChunk]) "ten_acme"
                   "free shipping" 5 None = Ret [p]).
  { vm_compute. reflexivity. }
  split; [exact Hres|].
  destruct (C4_keyword_tier_matches_some_keyword (engine := literalEngine)
              _ _ _ _ _ _ Hres) as (_ & Hsound & Hcomplete).
  destruct (Hsound p ltac:(left))
    as (d & every & Hd & _ & Hevery & Hor & Hmatch).
  pose proof Hd as ->%list_elem_of_singleton.
  exists every. split; [exact Hevery|]. split; [exact Hor|].
  split; [exact Hmatch|].
  apply (Hcomplete ltac:(simpl; lia) Fixtures.returnsChunk every Hd
           eq_refl ltac:(by intros ty [=]) Hevery Hor Hmatch).
Defined.

(** C4 as stated fails: for the query "free shipping" the keyword tier
    returns the chunk "Free returns within 30 days" (title "Returns"), in
    which the keyword "shipping" occurs neither in the text nor in the
    title. *)
Lemma C4_counterexample :
  let answer :=
    Search.regexTier (engine := literalEngine)
      (Fixtures.keywordOnly [Fixtures.shippingChunk; Fixtures.returnsChunk])
      "ten_acme" "free shipping" 5 None in
  Search.keywordsOf "free shipping" = ["free"; "shipping"]
  /\ (exists results,
         answer = Ret results
         /\ Search.text <$> results
            = ["We offer free shipping on orders over $50";
               "Free returns within 30 days"])
  /\ LiteralEngine.occurs "shipping" "Free returns within 30 days" = false
  /\ LiteralEngine.occurs "shipping" "Returns" = false.
Proof.
  vm_compute. split; [done|]. split; [|done]. by eexists.
Qed.

(** A chunk whose title holds the keyword "shipping" and whose text holds
    no keyword is not found, although the match in its title would score
    0.15: on the title the query tries the conjunctive pattern only. *)
Example title_only_not_returned :
  Search.regexTier (engine := literalEngine)
    (Fixtures.keywordOnly [Fixtures.titleOnlyChunk]) "ten_acme"
    "free shipping" 5 None = Ret []
  /\ Search.scoreResult (engine := literalEngine) ["free"; "shipping"]
       Fixtures.titleOnlyChunk
     = Ret (Search.project Fixtures.titleOnlyChunk Search.matchWeight).
Proof. vm_compute. by split. Qed.




(** C8 (amended): a failure inside the keyword-regex tier does not reach
    the caller.  [fallbackTextSearch] catches it and returns the empty
    sequence, so a query on which the vector and full-text tiers have
    fallen through and the keyword tier throws is answered with the empty
    sequence, exactly as a query without any match. *)
Theorem C8_keyword_tier_failure_is_swallowed {engine : Search.RegexEngine}
    (b : Search.Backend) (tenantId queryText : string)
    (options : Search.Options) :
  let limit := default VECTOR_SEARCH.limit (Search.optLimit options) in
  let minScore :=
    default VECTOR_SEARCH.similarityThreshold (Search.optMinScore options) in
  let sectionType := Search.optSectionType options in
  let vector :=
    Search.vectorTier b tenantId queryText limit minScore sectionType in
  let fullText := Search.textTier b tenantId queryText limit sectionType in
  (vector = Ret [] \/ exists e, vector = Throw e) ->
  (fullText = Ret [] \/ exists e, fullText = Throw e) ->
  (exists e,
      Search.regexTier b tenantId queryText limit sectionType = Throw e) ->
  Search.fallbackTextSearch b tenantId queryText options = Ret []
  /\ Search.search b tenantId queryText options = Ret [].
Proof.
  intros limit minScore sectionType vector fullText Hv Ht [e He].
  assert (Hsearch : Search.search b tenantId queryText options = Ret []).
  { rewrite (search_keyword_tier b tenantId queryText options Hv Ht).
    fold limit sectionType. by rewrite He. }
  split; [|done].
  unfold Search.fallbackTextSearch. fold limit sectionType fullText.
  by destruct Ht as [->|[e' ->]]; simpl; rewrite He.
Qed.

(** The keyword "(free" is an unterminated group: the tier throws and the
    query is answered with the empty sequence. *)
Lemma C8_keyword_tier_failure_is_swallowed_witness :
  Search.search (engine := literalEngine)
    (Fixtures.keywordOnly [Fixtures.shippingChunk]) "ten_acme"
    "(free shipping" Fixtures.noOptions = Ret [].
Proof.
  apply (C8_keyword_tier_failure_is_swallowed (engine := literalEngine)
           (Fixtures.keywordOnly [Fixtures.shippingChunk]) "ten_acme"
           "(free shipping" Fixtures.noOptions).
  - by left.
  - right. by eexists.
  - eexists. vm_compute. reflexivity.
Defined.

(** C8 as stated fails: with the database unreachable the keyword tier
    throws, and [search] returns the empty sequence instead of an error. *)
Lemma C8_counterexample :
  Search.regexTier (engine := literalEngine)
    (Fixtures.unreachable [Fixtures.shippingChunk]) "ten_acme"
    "free shipping" 5 None = Throw "find rejected"
  /\ Search.search (engine := literalEngine)
       (Fixtures.unreachable [Fixtures.shippingChunk]) "ten_acme"
       "free shipping" Fixtures.noOptions = Ret [].
Proof. vm_compute. by split. Qed.

(** * Properties of ingestion *)

Example registerData_example :
  let '(res, db) :=
    Data.registerData Data.testEmbeddings "ten_acme"
      [Fixtures.shippingSection] (PLANS FREE) (Fixtures.emptyDb []) in
  match res with
  | Ret reg => Data.r_sectionId <$> Data.sections reg = ["sec_0"]
  | Throw _ => False
  end
  /\ s_chunkCount <$> Data.sectionsCollection db = [1%nat]
  /\ c_chunkId <$> Data.chunksCollection db = ["chk_1"].
Proof. vm_compute. done. Qed.

Section DataFacts.
Import Data.
Variable generateEmbeddings : list string -> Exc (list Embedding).

Lemma spent_mono n m id : (n <= m)%nat -> spent n id -> spent m id.
Proof. intros Hle Hs k Hk. apply Hs. lia. Qed.

Lemma generatedFrom_mono n m id :
  (n <= m)%nat -> generatedFrom m id -> generatedFrom n id.
Proof. intros Hle (k & Hk & ->). exists k. split; [lia|done]. Qed.

Lemma sectionId_inj (n m : nat) :
  "sec_" +:+ pretty n = "sec_" +:+ pretty m -> n = m.
Proof.
  intros Heq. apply (inj (String.app "sec_")) in Heq.
  by apply (inj pretty) in Heq.
Qed.

Lemma spent_not_generated n id : spent n id -> generatedFrom n id -> False.
Proof. intros Hs (m & Hm & ->). by apply (Hs m). Qed.

Lemma command_ok {A} (run : Db -> A * Db) db :
  faults db = [] -> command run db = (Ret (fst (run db)), snd (run db)).
Proof. intros Hf. unfold command. rewrite Hf. by destruct (run db). Qed.

Lemma chunkDocsFrom_spec tenantId sectionId section embeddings chunks :
  forall index db,
    exists docs db',
      chunkDocsFrom tenantId sectionId section embeddings index chunks db
      = (Ret docs, db')
      /\ sectionsCollection db' = sectionsCollection db
      /\ chunksCollection db' = chunksCollection db
      /\ faults db' = faults db
      /\ (nextId db <= nextId db')%nat
      /\ length docs = length chunks
      /\ Forall (fun c => c_tenantId c = tenantId /\ c_sectionId c = sectionId)
           docs.
Proof.
  induction chunks as [|text chunks IH]; intros index db; simpl.
  - exists [], db. by repeat split.
  - unfold bind, generateChunkId, freshId.
    set (db1 := {| sectionsCollection := _ |}).
    destruct (IH (S index) db1) as (docs & db' & -> & Hs & Hc & Hf & Hn & Hl & Ha).
    eexists _, db'. split; [done|]. simpl in *.
    repeat split; try done; [lia|lia|].
    constructor; [done|exact Ha].
Qed.

(** A section that passes the checks is written: its document, then its
    chunk rows. *)
Lemma processSection_accepted tenantId section db :
  accepts generateEmbeddings section = true -> faults db = [] ->
  exists r db' doc rows,
    processSection generateEmbeddings tenantId section db = (Ret r, db')
    /\ sectionsCollection db' = (sectionsCollection db ++ [doc])%list
    /\ chunksCollection db' = (chunksCollection db ++ rows)%list
    /\ faults db' = [] /\ (nextId db < nextId db')%nat
    /\ storedFrom section doc
    /\ s_tenantId doc = tenantId
    /\ s_sectionId doc = "sec_" +:+ pretty (nextId db)
    /\ (0 < s_chunkCount doc)%nat
    /\ length rows = s_chunkCount doc
    /\ Forall (fun c => c_tenantId c = tenantId
                        /\ c_sectionId c = s_sectionId doc) rows.
Proof.
  unfold accepts, processSection. intros Hacc Hf.
  apply andb_true_iff in Hacc as [Hacc Hemb].
  apply andb_true_iff in Hacc as [Hne Htrim]. rewrite Hne, Htrim. simpl.
  unfold bind at 1. unfold generateSectionId, freshId.
  set (db1 := {| sectionsCollection := _ |}).
  set (sid := "sec_" +:+ pretty (nextId db)).
  destruct (Chunker.chunkText _ _ _) as [[|c chunks]|] eqn:Hchunks; try done.
  change (length (c :: chunks) =? 0)%nat with false. cbv iota.
  destruct (generateEmbeddings (c :: chunks)) as [embeddings|e]; [|done].
  unfold bind at 1. unfold liftExc at 1.
  unfold bind at 1. unfold insertOne.
  rewrite (command_ok _ db1 Hf). simpl fst. simpl snd.
  set (doc := {| s_tenantId := tenantId |}).
  set (db2 := {| sectionsCollection := _ |}).
  unfold bind at 1.
  destruct (chunkDocsFrom_spec tenantId sid section embeddings (c :: chunks)
              0%nat db2) as (docs & db3 & -> & Hs3 & Hc3 & Hf3 & Hn3 & Hl3 & Ha3).
  unfold bind at 1.
  destruct docs as [|row docs]; [done|].
  change (0 <? length (row :: docs))%nat with true. cbv iota.
  unfold insertMany. rewrite (command_ok _ db3); [|by rewrite Hf3].
  simpl fst. simpl snd. unfold ret.
  eexists _, _, doc, (row :: docs). split; [done|]. simpl.
  rewrite Hs3, Hc3, Hf3. simpl.
  repeat split; try done; try lia.
  by exists (c :: chunks).
Qed.

(** A section that fails a check throws before anything is written. *)
Lemma processSection_refused tenantId section db :
  accepts generateEmbeddings section = false -> faults db = [] ->
  exists e db',
    processSection generateEmbeddings tenantId section db = (Throw e, db')
    /\ sectionsCollection db' = sectionsCollection db
    /\ chunksCollection db' = chunksCollection db
    /\ faults db' = [] /\ (nextId db <= nextId db')%nat.
Proof.
  unfold accepts, processSection. intros Hacc Hf.
  destruct (JS.nonEmpty (content section)); simpl in *;
    [|by eexists _, db].
  destruct (JS.nonEmpty (JS.trim (content section))); simpl in *;
    [|by eexists _, db].
  unfold bind at 1. unfold generateSectionId, freshId.
  set (db1 := {| sectionsCollection := _ |}).
  destruct (Chunker.chunkText _ _ _) as [[|c chunks]|] eqn:Hchunks.
  - eexists _, db1. simpl. repeat split; try done. lia.
  - change (length (c :: chunks) =? 0)%nat with false. cbv iota.
    destruct (generateEmbeddings (c :: chunks)) as [embeddings|e]; [done|].
    unfold bind, liftExc. eexists _, db1. simpl. repeat split; try done. lia.
  - eexists _, db1. simpl. repeat split; try done. lia.
Qed.

Lemma rowsOf_all tenantId sectionId rows :
  Forall (fun c => c_tenantId c = tenantId /\ c_sectionId c = sectionId) rows ->
  rowsOf tenantId sectionId rows = rows.
Proof.
  unfold rowsOf. induction 1 as [|c rows Hc _ IH]; [done|].
  by rewrite filter_cons_True, IH.
Qed.

Lemma rowsOf_none tenantId sectionId rows :
  Forall (fun c => c_sectionId c <> sectionId) rows ->
  rowsOf tenantId sectionId rows = [].
Proof.
  unfold rowsOf. induction 1 as [|c rows Hc _ IH]; [done|].
  rewrite filter_cons_False; [done|]. by intros [_ ?].
Qed.

Lemma docsOf_none tenantId sectionId docs :
  Forall (fun d => s_sectionId d <> sectionId) docs ->
  docsOf tenantId sectionId docs = [].
Proof.
  unfold docsOf. induction 1 as [|d docs Hd _ IH]; [done|].
  rewrite filter_cons_False; [done|]. by intros [_ ?].
Qed.

Lemma rowsOf_app tenantId sectionId rows1 rows2 :
  rowsOf tenantId sectionId (rows1 ++ rows2)
  = (rowsOf tenantId sectionId rows1 ++ rowsOf tenantId sectionId rows2)%list.
Proof. apply filter_app. Qed.

Lemma docsOf_app tenantId sectionId docs1 docs2 :
  docsOf tenantId sectionId (docs1 ++ docs2)
  = (docsOf tenantId sectionId docs1 ++ docsOf tenantId sectionId docs2)%list.
Proof. apply filter_app. Qed.

Lemma processSections_spec tenantId :
  forall todo results total db,
    faults db = [] ->
    exists res db' created rows,
      processSections generateEmbeddings tenantId todo results total db
      = (res, db')
      /\ sectionsCollection db' = (sectionsCollection db ++ created)%list
      /\ chunksCollection db' = (chunksCollection db ++ rows)%list
      /\ Forall2 storedFrom (acceptedPrefix generateEmbeddings todo) created
      /\ written tenantId (nextId db) created rows
      /\ (isRet res = true <-> acceptedPrefix generateEmbeddings todo = todo)
      /\ (forall rs n, res = Ret (rs, n) ->
            length rs = (length results + length todo)%nat).
Proof.
  induction todo as [|section rest IH]; intros results total db Hf.
  - exists (Ret (results, total)), db, [], []. simpl.
    rewrite !app_nil_r. repeat split; try done; try constructor.
    intros rs n [= <- _]. lia.
  - simpl. unfold bind.
    destruct (accepts generateEmbeddings section) eqn:Hacc.
    + destruct (processSection_accepted tenantId section db Hacc Hf)
        as (r & db1 & doc & rows1 & -> & Hs1 & Hc1 & Hf1 & Hn1 & Hstored
            & Hten & Hsid & Hcount & Hlen & Hrows1).
      destruct (IH (results ++ [r])%list (total + r_chunkCount r)%nat db1 Hf1)
        as (res & db' & created & rows & -> & Hs & Hc & Hprefix
            & [Hdocs Hrows] & Hret & Hres).
      exists res, db', (doc :: created), (rows1 ++ rows)%list.
      split; [done|].
      split; [by rewrite Hs, Hs1, <- app_assoc|].
      split; [by rewrite Hc, Hc1, <- app_assoc|].
      split; [by constructor|].
      assert (Hother : forall doc', doc' ∈ created ->
                s_sectionId doc' <> s_sectionId doc).
      { intros doc' Hin Heq.
        pose proof (proj1 (list.Forall_forall _ _) Hdocs doc' Hin)
          as (_ & (n & Hge & Hn) & _).
        rewrite Hn, Hsid in Heq. apply sectionId_inj in Heq. lia. }
      split; [split|split].
      * constructor.
        -- split; [done|]. split; [exists (nextId db); by split|].
           split; [done|]. split.
           ++ rewrite rowsOf_app, (rowsOf_all _ _ rows1), length_app.
              ** rewrite (rowsOf_none _ _ rows); [simpl; lia|].
                 eapply Forall_impl; [exact Hrows|].
                 intros c (_ & doc' & Hin & ->). by apply Hother.
              ** eapply Forall_impl; [exact Hrows1|]. by intros c [? ?].
           ++ unfold docsOf. by rewrite filter_cons_True.
        -- apply list.Forall_forall. intros doc' Hin.
           pose proof (proj1 (list.Forall_forall _ _) Hdocs doc' Hin)
             as (Ht' & Hg' & Hp' & Hc' & Hh').
           split; [done|].
           split; [by apply (generatedFrom_mono _ (nextId db1)); [lia|]|].
           split; [done|]. split.
           ++ rewrite rowsOf_app, (rowsOf_none _ _ rows1); [done|].
              eapply Forall_impl; [exact Hrows1|].
              intros c [_ ->] Heq. by apply (Hother doc' Hin).
           ++ unfold docsOf. rewrite filter_cons_False; [done|].
              intros [_ Heq]. by apply (Hother doc' Hin).
      * apply Forall_app. split.
        -- eapply Forall_impl; [exact Hrows1|]. intros c [? ?].
           split; [done|]. exists doc. split; [left|done].
        -- eapply Forall_impl; [exact Hrows|].
           intros c (? & doc' & ? & ?). split; [done|].
           exists doc'. split; [by right|done].
      * rewrite Hret. split; [by intros ->|by intros [= ->]].
      * intros rs n Hrs. rewrite (Hres rs n Hrs), length_app. simpl. lia.
    + destruct (processSection_refused tenantId section db Hacc Hf)
        as (e & db1 & -> & Hs1 & Hc1 & Hf1 & Hn1).
      exists (Throw e), db1, [], []. rewrite !app_nil_r.
      repeat split; try done; constructor.
Qed.

End DataFacts.

(** C1 (amended): ingestion is sequential, not atomic.  On a database
    that answers every command, [registerData] refuses the whole batch,
    writing nothing, when the section limit would be exceeded.  Otherwise
    it goes through the batch in order and writes each section (its
    document, then its chunk rows) before it looks at the next one: when it
    stops, the documents created are exactly those of the sections before
    the first refused one, each with [chunkCount] equal to the number of
    chunks of its content and to the number of chunk rows stored for it,
    and each retrievable; every new chunk row belongs to one of them; and
    the call succeeds if and only if no section is refused, in which case
    every section of the batch has been created. *)
Theorem C1_ingestion_is_sequential
    (generateEmbeddings : list string -> Exc (list Embedding))
    (tenantId : string) (batch : list Data.SectionInput) (limits : Limits)
    (db : Data.Db) :
  Data.faults db = [] ->
  Data.fresh db ->
  let currentCount :=
    Z.of_nat (length (filter (fun d => s_tenantId d = tenantId)
                        (Data.sectionsCollection db))) in
  let accepted := Data.acceptedPrefix generateEmbeddings batch in
  exists res db' created rows,
    Data.registerData generateEmbeddings tenantId batch limits db = (res, db')
    /\ Data.sectionsCollection db' = (Data.sectionsCollection db ++ created)%list
    /\ Data.chunksCollection db' = (Data.chunksCollection db ++ rows)%list
    /\ (sectionsPerTenant limits < currentCount + Z.of_nat (length batch) ->
          isRet res = false /\ created = [] /\ rows = [])
    /\ (currentCount + Z.of_nat (length batch) <= sectionsPerTenant limits ->
          Forall2 Data.storedFrom accepted created
          /\ Forall (fun doc =>
                       s_tenantId doc = tenantId
                       /\ (0 < s_chunkCount doc)%nat
                       /\ s_chunkCount doc
                          = length (Data.chunkRows tenantId (s_sectionId doc) db')
                       /\ Data.findSection tenantId (s_sectionId doc) db'
                          = Some doc) created
          /\ Forall (fun c =>
                       c_tenantId c = tenantId
                       /\ exists doc, doc ∈ created
                                      /\ c_sectionId c = s_sectionId doc) rows
          /\ (isRet res = true <-> accepted = batch)
          /\ (forall reg, res = Ret reg ->
                Data.sectionsCreated reg = length batch
                /\ length (Data.sections reg) = length batch
                /\ length created = length batch)).
Proof.
  intros Hf [Hfresh_s Hfresh_c] currentCount accepted.
  unfold Data.registerData, tryCatch, bind, Data.countDocuments.
  rewrite (command_ok _ db Hf). cbv beta iota delta [fst snd].
  fold currentCount.
  destruct (Z.gtb_spec (currentCount + Z.of_nat (length batch))
              (sectionsPerTenant limits)) as [Hover|Hok].
  - eexists _, db, [], []. rewrite !app_nil_r. unfold throw.
    split; [done|]. split; [done|]. split; [done|]. split; [done|]. lia.
  - destruct (processSections_spec generateEmbeddings tenantId batch [] 0%nat
                db Hf)
      as (res & db' & created & rows & -> & Hs & Hc & Hprefix
          & [Hdocs Hrows] & Hret & Hres).
    fold accepted in Hprefix, Hret.
    assert (Hshape :
      exists res',
        (match res with
         | Ret a =>
             ret {| Data.sectionsCreated := length batch;
                    Data.chunksCreated := snd a;
                    Data.sections := fst a |} db'
         | Throw e => (Throw e, db')
         end) = (res', db')
        /\ isRet res' = isRet res
        /\ (forall reg, res' = Ret reg ->
              Data.sectionsCreated reg = length batch
              /\ exists n, res = Ret (Data.sections reg, n))).
    { destruct res as [[rs n]|e].
      - eexists. split; [done|]. split; [done|].
        intros reg [= <-]. simpl. eauto.
      - eexists. split; [done|]. split; [done|]. by intros reg [=]. }
    destruct Hshape as (res' & Hshape & Hisret & Hreg).
    exists res', db', created, rows.
    split.
    { destruct res as [[rs n]|e]; simpl in *; unfold ret, throw in *;
        by injection Hshape as <-. }
    split; [done|]. split; [done|]. split; [lia|]. intros _.
    split; [done|]. split; [|split; [done|split]].
    + eapply Forall_impl; [exact Hdocs|].
      intros doc (Hten & Hgen & Hpos & Hcount & Hhead).
      split; [done|]. split; [done|]. split.
      * unfold Data.chunkRows. rewrite Hc, rowsOf_app.
        rewrite (rowsOf_none _ _ (Data.chunksCollection db)); [done|].
        eapply Forall_impl; [exact Hfresh_c|].
        intros c Hspent Heq. apply (spent_not_generated _ _ Hspent).
        by rewrite Heq.
      * unfold Data.findSection. rewrite Hs, docsOf_app.
        rewrite (docsOf_none _ _ (Data.sectionsCollection db)); [done|].
        eapply Forall_impl; [exact Hfresh_s|].
        intros d Hspent Heq. apply (spent_not_generated _ _ Hspent).
        by rewrite Heq.
    + by rewrite Hisret.
    + intros reg Hr. destruct (Hreg reg Hr) as (Hn & n & Hrn).
      split; [done|]. split; [by rewrite (Hres _ _ Hrn)|].
      assert (Hall : accepted = batch)
        by (apply Hret; by rewrite Hrn).
      rewrite <- (Forall2_length _ _ _ Hprefix). by rewrite Hall.
Qed.

(** One valid section on an empty database: it is created and the call
    succeeds. *)
Lemma C1_ingestion_is_sequential_witness :
  exists res db' created,
    Data.registerData Data.testEmbeddings "ten_acme"
      [Fixtures.shippingSection] (PLANS FREE) (Fixtures.emptyDb [])
    = (res, db')
    /\ Data.sectionsCollection db' = created
    /\ isRet res = true
    /\ length created = 1%nat.
Proof.
  destruct (C1_ingestion_is_sequential Data.testEmbeddings "ten_acme"
              [Fixtures.shippingSection] (PLANS FREE) (Fixtures.emptyDb [])
              ltac:(reflexivity) ltac:(split; constructor))
    as (res & db' & created & rows & Hrun & Hs & _ & _ & Hok).
  destruct (Hok ltac:(vm_compute; discriminate))
    as (Hprefix & _ & _ & Hret & _).
  exists res, db', created. split; [exact Hrun|]. split; [exact Hs|].
  split.
  - apply Hret. vm_compute. reflexivity.
  - rewrite <- (Forall2_length _ _ _ Hprefix). vm_compute. reflexivity.
Defined.

(** C1 as stated fails: in a batch of two sections whose second has a
    blank content, the call fails on the second section and the first one
    stays in the database with its chunk row. *)
Lemma C1_counterexample :
  let '(res, db') :=
    Data.registerData Data.testEmbeddings "ten_acme"
      [Fixtures.shippingSection; Fixtures.blankSection] (PLANS FREE)
      (Fixtures.emptyDb []) in
  isRet res = false
  /\ s_title <$> Data.sectionsCollection db' = ["Delivery"]
  /\ c_text <$> Data.chunksCollection db'
     = ["We offer free shipping on orders over $50"].
Proof. vm_compute. done. Qed.

(** When the database rejects [insertMany], the section document written
    just before stays without chunk rows. *)
Example registerData_section_without_rows :
  let '(res, db') :=
    Data.registerData Data.testEmbeddings "ten_acme"
      [Fixtures.shippingSection] (PLANS FREE)
      (Fixtures.emptyDb [false; false; true]) in
  isRet res = false
  /\ s_chunkCount <$> Data.sectionsCollection db' = [1%nat]
  /\ Data.chunksCollection db' = [].
Proof. vm_compute. done. Qed.

(** * Further properties: retry with backoff *)

Section RetryFacts.
Import Helpers.
Context {A : Type}.

Lemma backoffDelays_snoc d k :
  backoffDelays d (S k) = (backoffDelays d k ++ [d * 2 ^ Z.of_nat k])%list.
Proof.
  unfold backoffDelays. rewrite seq_S, fmap_app. reflexivity.
Qed.

Lemma sumZ_app l1 l2 : sumZ (l1 ++ l2) = sumZ l1 + sumZ l2.
Proof. induction l1 as [|x l1 IH]; simpl; [done|]. rewrite IH. lia. Qed.

Lemma sumZ_backoffDelays d k : sumZ (backoffDelays d k) = d * (2 ^ Z.of_nat k - 1).
Proof.
  induction k as [|k IH]; [simpl; lia|].
  rewrite backoffDelays_snoc, sumZ_app, IH. simpl.
  rewrite Nat2Z.inj_succ, Z.pow_succ_r by lia. lia.
Qed.

(** The loop from iteration [i] on, when the attempts up to [i + k]
    fail and attempt [i + k] succeeds. *)
Lemma retryLoop_first_success (fn : nat -> Exc A) maxRetries d a :
  forall k remaining i lastError,
    (k < remaining)%nat ->
    Z.of_nat (i + k) < maxRetries ->
    (forall j, (i <= j < i + k)%nat -> exists e, fn j = Throw e) ->
    fn (i + k)%nat = Ret a ->
    retryLoop fn maxRetries d remaining i lastError (backoffDelays d i)
    = {| settled := Resolved a; calls := S (i + k);
         delays := backoffDelays d (i + k) |}.
Proof.
  induction k as [|k IH]; intros remaining i lastError Hrem Hmax Hfail Hok.
  - destruct remaining as [|remaining]; [lia|]. simpl.
    rewrite Nat.add_0_r in *. by rewrite Hok.
  - destruct remaining as [|remaining]; [lia|]. simpl.
    destruct (Hfail i ltac:(lia)) as [e ->].
    destruct (Z.ltb_spec (Z.of_nat i) (maxRetries - 1)); [|lia].
    rewrite <- backoffDelays_snoc.
    replace (i + S k)%nat with (S i + k)%nat by lia.
    apply IH; [lia|lia| |].
    + intros j Hj. apply Hfail. lia.
    + by replace (S i + k)%nat with (i + S k)%nat by lia.
Qed.

(** The loop from iteration [i] on, when every remaining attempt
    fails. *)
Lemma retryLoop_exhausted (fn : nat -> Exc A) d :
  forall remaining i lastError,
    (forall j, (i <= j < i + remaining)%nat -> exists e, fn j = Throw e) ->
    exists error,
      retryLoop fn (Z.of_nat (i + remaining)) d remaining i lastError
        (backoffDelays d (Nat.min i (Nat.pred (i + remaining))))
      = {| settled := Rejected error; calls := (i + remaining)%nat;
           delays := backoffDelays d (Nat.pred (i + remaining)) |}
      /\ (remaining = O -> error = lastError)
      /\ ((0 < remaining)%nat ->
            exists e, error = Some e
                      /\ fn (Nat.pred (i + remaining)) = Throw e).
Proof.
  induction remaining as [|remaining IH]; intros i lastError Hfail.
  - simpl. exists lastError. rewrite Nat.add_0_r.
    rewrite Nat.min_r by lia. split; [done|]. split; [done|lia].
  - simpl. destruct (Hfail i ltac:(lia)) as [e He]. rewrite He.
    destruct (IH (S i) (Some e)) as (error & Hrun & Hzero & Hpos).
    { intros j Hj. apply Hfail. lia. }
    replace (S i + remaining)%nat with (i + S remaining)%nat in * by lia.
    exists error. split; [|split; [lia|]].
    + rewrite <- Hrun. f_equal.
      destruct (Z.ltb_spec (Z.of_nat i) (Z.of_nat (i + S remaining) - 1)).
      * rewrite Nat.min_l by lia. rewrite <- backoffDelays_snoc.
        f_equal. lia.
      * f_equal. lia.
    + intros _. destruct remaining as [|remaining].
      * exists e. split; [by apply Hzero|].
        by replace (Nat.pred (i + 1)) with i by lia.
      * apply Hpos. lia.
Qed.

End RetryFacts.

(** X1: when the first [k] calls of [fn] fail and call [k] succeeds, with
    [k < maxRetries], [retryWithBackoff] resolves with that value after
    exactly [k + 1] calls, having waited [initialDelay * 2^i] after failure
    [i]: [initialDelay * (2^k - 1)] in all. *)
Theorem X1_retry_first_success {A : Type} (fn : nat -> Exc A)
    (maxRetries initialDelay : Z) (k : nat) (a : A) :
  Z.of_nat k < maxRetries ->
  (forall j, (j < k)%nat -> exists e, fn j = Throw e) ->
  fn k = Ret a ->
  let run := Helpers.retryWithBackoff fn maxRetries initialDelay in
  Helpers.settled run = Helpers.Resolved a
  /\ Helpers.calls run = S k
  /\ Helpers.delays run = Helpers.backoffDelays initialDelay k
  /\ Helpers.sumZ (Helpers.delays run) = initialDelay * (2 ^ Z.of_nat k - 1).
Proof.
  intros Hk Hfail Hok run. unfold run, Helpers.retryWithBackoff.
  change (@nil Z) with (Helpers.backoffDelays initialDelay 0).
  rewrite (retryLoop_first_success fn maxRetries initialDelay a k
             (Z.to_nat maxRetries) 0 None); simpl; try done; try lia.
  - repeat split. apply sumZ_backoffDelays.
  - intros j Hj. apply Hfail. lia.
Qed.

(** Two failures, then a value, with the defaults of the chat service
    (3 attempts, 1000 ms): three calls, 1000 + 2000 ms waited. *)
Lemma X1_retry_first_success_witness :
  let fn := fun i : nat =>
    if (i <? 2)%nat then Throw "rate limited" else Ret "answer" in
  let run := Helpers.retryWithBackoff fn 3 1000 in
  Helpers.settled run = Helpers.Resolved "answer"
  /\ Helpers.calls run = 3%nat
  /\ Helpers.delays run = [1000; 2000].
Proof.
  intros fn run.
  destruct (X1_retry_first_success fn 3 1000 2 "answer" ltac:(lia))
    as (Hs & Hc & Hd & _).
  - intros j Hj. exists "rate limited". unfold fn.
    by destruct (Nat.ltb_spec j 2); [|lia].
  - reflexivity.
  - by repeat split.
Defined.

(** X2: when every call of [fn] fails, [retryWithBackoff] with
    [maxRetries >= 1] rejects with the error of the last call after exactly
    [maxRetries] calls; it waits after every failure but the last,
    [initialDelay * (2^(maxRetries - 1) - 1)] in all.  With
    [maxRetries <= 0] it never calls [fn] and rejects with [undefined]. *)
Theorem X2_retry_exhausted {A : Type} (fn : nat -> Exc A)
    (maxRetries initialDelay : Z) :
  (forall j, Z.of_nat j < maxRetries -> exists e, fn j = Throw e) ->
  let run := Helpers.retryWithBackoff fn maxRetries initialDelay in
  (maxRetries <= 0 ->
     run = {| Helpers.settled := Helpers.Rejected None;
              Helpers.calls := 0; Helpers.delays := [] |})
  /\ (1 <= maxRetries ->
        (exists e, Helpers.settled run = Helpers.Rejected (Some e)
                   /\ fn (Z.to_nat (maxRetries - 1)) = Throw e)
        /\ Z.of_nat (Helpers.calls run) = maxRetries
        /\ Helpers.delays run
           = Helpers.backoffDelays initialDelay (Z.to_nat (maxRetries - 1))
        /\ Helpers.sumZ (Helpers.delays run)
           = initialDelay * (2 ^ (maxRetries - 1) - 1)).
Proof.
  intros Hfail run. split.
  - intros Hle. unfold run, Helpers.retryWithBackoff.
    by replace (Z.to_nat maxRetries) with 0%nat by lia.
  - intros Hge.
    destruct (retryLoop_exhausted fn initialDelay (Z.to_nat maxRetries) 0 None)
      as (error & Hrun & _ & Hpos).
    { intros j Hj. apply Hfail. lia. }
    simpl in Hrun. rewrite Z2Nat.id in Hrun by lia.
    change (Helpers.backoffDelays initialDelay 0) with (@nil Z) in Hrun.
    change (run = {| Helpers.settled := Helpers.Rejected error;
                     Helpers.calls := Z.to_nat maxRetries;
                     Helpers.delays :=
                       Helpers.backoffDelays initialDelay
                         (Nat.pred (Z.to_nat maxRetries)) |}) in Hrun.
    rewrite Hrun. simpl.
    destruct (Hpos ltac:(lia)) as (e & -> & He). simpl in He.
    replace (Nat.pred (Z.to_nat maxRetries)) with (Z.to_nat (maxRetries - 1))
      in * by lia.
    split; [by exists e|]. split; [lia|]. split; [done|].
    rewrite sumZ_backoffDelays. f_equal. f_equal. f_equal. lia.
Qed.

(** Three failures with the defaults of the chat service: the third
    error comes out after 3000 ms of waiting. *)
Lemma X2_retry_exhausted_witness :
  let fn := fun i : nat => @Throw string ("attempt " +:+ pretty i) in
  let run := Helpers.retryWithBackoff fn 3 1000 in
  Helpers.settled run = Helpers.Rejected (Some "attempt 2")
  /\ Helpers.calls run = 3%nat
  /\ Helpers.sumZ (Helpers.delays run) = 3000.
Proof.
  intros fn run.
  destruct (X2_retry_exhausted fn 3 1000) as [_ Hex].
  - intros j _. by eexists.
  - destruct (Hex ltac:(lia)) as ((e & Hs & He) & Hc & _ & Hsum).
    unfold run. split; [|split; [|exact Hsum]].
    + rewrite Hs. unfold fn in He. simpl in He. by injection He as <-.
    + lia.
Defined.

(** * Further properties: quota counters *)

Section QuotaFacts.
Import Redis RateLimit Hooks.

Lemma expire_healthy_exact key seconds r v :
  healthy r -> data r !! key = Some v ->
  expire key seconds r
  = (Ret (Some 1), withTtl (<[key := seconds]> (ttl r)) r).
Proof.
  intros (Hc & Hi & Hf) Hv. unfold expire, guarded. rewrite Hc, Hi. simpl.
  unfold tryCatch, bind, command. rewrite Hf. unfold serverExpire.
  by rewrite Hv.
Qed.

Lemma isOne_Some m : isOne (Some m) = (m =? 1).
Proof. by destruct m as [|[]|]. Qed.

(** The expiry a call leaves on a counter it has just incremented to
    [v]. *)
Lemma when_expire_after_incr key seconds v r :
  healthy r -> data r !! key = Some v ->
  exists o r',
    when (isOne (Some v)) (expire key seconds) r = (Ret o, r')
    /\ data r' = data r /\ healthy r'
    /\ ttl r' = (if v =? 1 then <[key := seconds]> (ttl r) else ttl r).
Proof.
  intros Hh Hv. rewrite isOne_Some. destruct (v =? 1); simpl.
  - rewrite (expire_healthy_exact key seconds r v Hh Hv).
    eexists _, _. split; [done|]. split; [done|].
    split; [by apply healthy_withTtl|done].
  - by exists None, r.
Qed.

Lemma rateLimiter_healthy_ttl t req r :
  healthy r -> tenant req = Some t ->
  let l := limits t in
  let mKey := minuteKey t (nowMinute req) in
  let hKey := hourKey t (nowHour req) in
  let m := default 0 (data r !! mKey) + 1 in
  let h := default 0 (data r !! hKey) + 1 in
  let ttl1 := if m =? 1 then <[mKey := 60]> (ttl r) else ttl r in
  ttl (snd (rateLimiter req r))
  = (if m >? requestsPerMinute l then ttl1
     else if h =? 1 then <[hKey := 3600]> ttl1 else ttl1).
Proof.
  intros Hh Ht l mKey hKey m h ttl1. unfold rateLimiter. rewrite Ht.
  unfold tryCatch, bind. fold l mKey hKey.
  rewrite (incr_healthy mKey r Hh). fold m.
  set (r1 := withData (<[mKey:=m]> (data r)) r).
  assert (Hh1 : healthy r1) by by apply healthy_withData.
  destruct (when_expire_after_incr mKey 60 m r1 Hh1)
    as (o1 & r2 & -> & Hd2 & Hh2 & Ht2).
  { unfold r1. simpl. apply lookup_insert_eq. }
  change (ttl r1) with (ttl r) in Ht2. fold ttl1 in Ht2.
  change (toNumber (Some m)) with m. destruct (m >? requestsPerMinute l).
  - done.
  - assert (Hlook : data r1 !! hKey = data r !! hKey).
    { unfold r1. simpl. apply lookup_insert_ne, minuteKey_hourKey_distinct. }
    rewrite (incr_healthy hKey r2 Hh2). rewrite Hd2, Hlook. fold h.
    set (r3 := withData _ r2).
    assert (Hh3 : healthy r3) by by apply healthy_withData.
    destruct (when_expire_after_incr hKey 3600 h r3 Hh3)
      as (o3 & r4 & -> & Hd4 & Hh4 & Ht4).
    { unfold r3. simpl. apply lookup_insert_eq. }
    change (ttl r3) with (ttl r2) in Ht4. rewrite Ht2 in Ht4.
    change (toNumber (Some h)) with h.
    by destruct (h >? requestsPerHour l).
Qed.

(** One monthly check on a reachable store. *)
Lemma checkMonthlyLimit_healthy t req r :
  healthy r -> tenant req = Some t ->
  let l := limits t in
  let key := monthKey t (currentMonth req) in
  let u := default 0 (data r !! key) in
  exists r',
    checkMonthlyLimit req r
    = (Ret (if u >=? apiCallsPerMonth l then monthDenial l u else Next []), r')
    /\ healthy r'
    /\ data r' = (if u >=? apiCallsPerMonth l then data r
                  else <[key := u + 1]> (data r)).
Proof.
  intros Hh Ht l key u. unfold checkMonthlyLimit. rewrite Ht.
  unfold tryCatch, bind. fold l key. rewrite (get_healthy key r Hh).
  change (toNumber (data r !! key)) with u.
  destruct (u >=? apiCallsPerMonth l).
  - by exists r.
  - rewrite (incr_healthy key r Hh). fold u.
    set (r1 := withData _ r).
    destruct (expire_step_healthy (u =? 0) key (60 * 24 * 3600) r1)
      as (o & r2 & -> & Hd2 & Hh2); [by apply healthy_withData|].
    exists r2. by rewrite Hd2.
Qed.

(** The monthly checks of one tenant in one month, started with [c]
    calls counted. *)
Lemma checkMonthlyLimitSeq_healthy t month reqs :
  Forall (sameMonth t month) reqs ->
  forall r,
    healthy r ->
    let c := default 0 (data r !! monthKey t month) in
    let quota := apiCallsPerMonth (limits t) in
    (forall i o,
        fst (checkMonthlyLimitSeq reqs r) !! i = Some o ->
        o = Ret (if c + Z.of_nat i >=? quota
                 then monthDenial (limits t) (Z.max c quota)
                 else Next []))
    /\ default 0 (data (snd (checkMonthlyLimitSeq reqs r)) !! monthKey t month)
       = (if c >=? quota then c
          else Z.min (c + Z.of_nat (length reqs)) quota).
Proof.
  induction 1 as [|req reqs [Ht Hm] _ IH]; intros r Hh c quota.
  - simpl. split; [intros i o Hi; by rewrite lookup_nil in Hi|].
    destruct (Z.geb_spec c quota); lia.
  - simpl.
    destruct (checkMonthlyLimit_healthy t req r Hh Ht) as (r' & Hcall & Hh' & Hd').
    rewrite Hm in Hcall, Hd'. fold c quota in Hcall, Hd'. rewrite Hcall.
    destruct (checkMonthlyLimitSeq reqs r') as [os r''] eqn:Hseq.
    specialize (IH r' Hh'). rewrite Hseq in IH. simpl in IH.
    destruct (Z.geb_spec c quota) as [Hge|Hlt].
    + rewrite Hd' in IH. fold c in IH. destruct IH as [IHo IHc].
      cbn [fst snd]. split.
      * intros [|i] o Hi; simpl in Hi.
        -- injection Hi as <-. rewrite Z.add_0_r.
           destruct (Z.geb_spec c quota); [|lia]. by rewrite Z.max_l by lia.
        -- rewrite (IHo i o Hi). fold quota.
           destruct (Z.geb_spec (c + Z.of_nat i) quota); [|lia].
           by destruct (Z.geb_spec (c + Z.of_nat (S i)) quota); [|lia].
      * rewrite IHc. fold quota. by destruct (Z.geb_spec c quota); [|lia].
    + rewrite Hd', lookup_insert_eq in IH. simpl in IH.
      destruct IH as [IHo IHc]. cbn [fst snd]. split.
      * intros [|i] o Hi; simpl in Hi.
        -- injection Hi as <-. rewrite Z.add_0_r.
           by destruct (Z.geb_spec c quota); [lia|].
        -- rewrite (IHo i o Hi). fold quota.
           replace (c + 1 + Z.of_nat i) with (c + Z.of_nat (S i)) by lia.
           destruct (Z.geb_spec (c + Z.of_nat (S i)) quota); [|done].
           do 2 f_equal. lia.
      * rewrite IHc. fold quota.
        destruct (Z.geb_spec (c + 1) quota); lia.
Qed.

End QuotaFacts.

Section QuotaKeyFacts.
Import RateLimit.

Lemma monthKey_minuteKey_distinct t month now : monthKey t month <> minuteKey t now.
Proof. unfold monthKey, minuteKey. simpl. discriminate. Qed.

Lemma monthKey_hourKey_distinct t month now : monthKey t month <> hourKey t now.
Proof. unfold monthKey, hourKey. simpl. discriminate. Qed.

End QuotaKeyFacts.

(** X3: on a reachable store, [rateLimiter] sets the expiry of a counter
    exactly when its increment is the first of the bucket (the counter was
    absent, or held 0): 60 seconds on the minute counter, 3600 on the hour
    counter.  A counter that already counts requests keeps the expiry it
    has, and no other key's expiry is touched. *)
Theorem X3_expiry_set_on_first_increment t req r :
  Redis.healthy r ->
  RateLimit.tenant req = Some t ->
  let mKey := RateLimit.minuteKey t (RateLimit.nowMinute req) in
  let hKey := RateLimit.hourKey t (RateLimit.nowHour req) in
  let m0 := default 0 (Redis.data r !! mKey) in
  let h0 := default 0 (Redis.data r !! hKey) in
  let r' := snd (RateLimit.rateLimiter req r) in
  Redis.ttl r' !! mKey
  = (if m0 =? 0 then Some 60 else Redis.ttl r !! mKey)
  /\ Redis.ttl r' !! hKey
     = (if (m0 + 1 <=? requestsPerMinute (RateLimit.limits t)) && (h0 =? 0)
        then Some 3600 else Redis.ttl r !! hKey)
  /\ (forall key, key <> mKey -> key <> hKey ->
        Redis.ttl r' !! key = Redis.ttl r !! key).
Proof.
  intros Hh Ht mKey hKey m0 h0 r'. unfold r'.
  rewrite (rateLimiter_healthy_ttl t req r Hh Ht). fold mKey hKey m0 h0.
  assert (Hne : mKey <> hKey) by apply minuteKey_hourKey_distinct.
  replace (m0 + 1 =? 1) with (m0 =? 0)
    by (destruct (Z.eqb_spec m0 0), (Z.eqb_spec (m0 + 1) 1); lia).
  replace (h0 + 1 =? 1) with (h0 =? 0)
    by (destruct (Z.eqb_spec h0 0), (Z.eqb_spec (h0 + 1) 1); lia).
  replace (m0 + 1 <=? requestsPerMinute (RateLimit.limits t))
    with (negb (m0 + 1 >? requestsPerMinute (RateLimit.limits t)))
    by (destruct (Z.gtb_spec (m0 + 1) (requestsPerMinute (RateLimit.limits t))),
          (Z.leb_spec (m0 + 1) (requestsPerMinute (RateLimit.limits t)));
        simpl; lia).
  destruct (m0 + 1 >? requestsPerMinute (RateLimit.limits t));
    destruct (m0 =? 0); destruct (h0 =? 0); simpl;
    repeat split; try (intros key Hk1 Hk2);
    rewrite ?lookup_insert_eq;
    repeat (first [ rewrite lookup_insert_eq
                  | rewrite lookup_insert_ne by congruence ]);
    done.
Qed.

(** The first call of a minute on an empty store leaves 60 seconds on the
    minute counter and 3600 on the hour counter. *)
Lemma X3_expiry_set_on_first_increment_witness :
  let r' := snd (RateLimit.rateLimiter (Fixtures.requestAt 1790000000000)
                   (Fixtures.store ∅ [])) in
  Redis.ttl r' !! RateLimit.minuteKey Fixtures.acme 1790000000000 = Some 60
  /\ Redis.ttl r' !! RateLimit.hourKey Fixtures.acme 1790000000000
     = Some 3600.
Proof.
  destruct (X3_expiry_set_on_first_increment Fixtures.acme
              (Fixtures.requestAt 1790000000000) (Fixtures.store ∅ [])
              ltac:(repeat split) ltac:(reflexivity)) as (Hm & Hhour & _).
  split; [exact Hm|exact Hhour].
Defined.

(** X4: on a reachable store, for the monthly checks of one tenant in one
    calendar month applied one after the other, starting with [c] calls
    counted: the call number [i + 1] is admitted if and only if
    [c + i < apiCallsPerMonth]; a denied call is not counted, so the counter
    ends at [min(c + n, apiCallsPerMonth)] after [n] calls and never passes
    the quota (it stays at [c] when it started at or over it). *)
Theorem X4_monthly_quota_sequence t month reqs r :
  Redis.healthy r ->
  Forall (Hooks.sameMonth t month) reqs ->
  let c := default 0 (Redis.data r !! RateLimit.monthKey t month) in
  let quota := apiCallsPerMonth (RateLimit.limits t) in
  (forall i o,
      fst (Hooks.checkMonthlyLimitSeq reqs r) !! i = Some o ->
      (RateLimit.admitted o = true <-> c + Z.of_nat i < quota)
      /\ (quota <= c + Z.of_nat i ->
            o = Ret (RateLimit.monthDenial (RateLimit.limits t)
                       (Z.max c quota))))
  /\ default 0 (Redis.data (snd (Hooks.checkMonthlyLimitSeq reqs r))
                !! RateLimit.monthKey t month)
     = (if c >=? quota then c else Z.min (c + Z.of_nat (length reqs)) quota).
Proof.
  intros Hh Hreqs c quota.
  destruct (checkMonthlyLimitSeq_healthy t month reqs Hreqs r Hh)
    as [Ho Hc].
  split; [|exact Hc].
  intros i o Hi. rewrite (Ho i o Hi). fold c quota.
  destruct (Z.geb_spec (c + Z.of_nat i) quota); simpl.
  - split; [split; [done|lia]|done].
  - split; [split; [lia|done]|lia].
Qed.

(** A free-plan tenant with 999 calls counted: the next call is admitted,
    the one after is denied, and the counter stops at 1000. *)
Lemma X4_monthly_quota_sequence_witness :
  let r := Fixtures.store
             {[ RateLimit.monthKey Fixtures.acme "2026-11" := 999 ]} [] in
  let run := Hooks.checkMonthlyLimitSeq
               (replicate 3 (Fixtures.requestAt 1790000000000)) r in
  RateLimit.admitted <$> fst run = [true; false; false]
  /\ default 0 (Redis.data (snd run)
                !! RateLimit.monthKey Fixtures.acme "2026-11") = 1000.
Proof.
  intros r run.
  destruct (X4_monthly_quota_sequence Fixtures.acme "2026-11"
              (replicate 3 (Fixtures.requestAt 1790000000000)) r
              ltac:(repeat split) ltac:(repeat constructor)) as [_ Hc].
  split; [vm_compute; reflexivity|]. unfold run. rewrite Hc.
  vm_compute. reflexivity.
Defined.

(** X5: on a reachable store, the quota hooks of the chat route let a
    request through exactly when the minute, hour and month windows all
    have room.  Every request is counted in the minute window; the hour
    counter moves only when the minute window admits, and the month counter
    only when both rate windows admit and the month has room: a
    rate-limited request does not consume monthly quota, while a request
    denied on the monthly quota has consumed minute and hour quota. *)
Theorem X5_chat_quota_hooks t req r :
  Redis.healthy r ->
  RateLimit.tenant req = Some t ->
  let l := RateLimit.limits t in
  let mKey := RateLimit.minuteKey t (RateLimit.nowMinute req) in
  let hKey := RateLimit.hourKey t (RateLimit.nowHour req) in
  let key := RateLimit.monthKey t (RateLimit.currentMonth req) in
  let m := default 0 (Redis.data r !! mKey) + 1 in
  let h := default 0 (Redis.data r !! hKey) + 1 in
  let u := default 0 (Redis.data r !! key) in
  exists res r',
    Hooks.runPreHandlers Hooks.chatQuotaHooks req [] r = (Ret res, r')
    /\ (Hooks.sent res = None
        <-> m <= requestsPerMinute l /\ h <= requestsPerHour l
            /\ u < apiCallsPerMonth l)
    /\ Redis.data r' !! mKey = Some m
    /\ Redis.data r' !! hKey
       = (if m <=? requestsPerMinute l then Some h else Redis.data r !! hKey)
    /\ Redis.data r' !! key
       = (if (m <=? requestsPerMinute l) && (h <=? requestsPerHour l)
             && (u <? apiCallsPerMonth l)
          then Some (u + 1) else Redis.data r !! key).
Proof.
  intros Hh Ht l mKey hKey key m h u.
  assert (Hmh : mKey <> hKey) by apply minuteKey_hourKey_distinct.
  assert (Hkm : key <> mKey) by apply monthKey_minuteKey_distinct.
  assert (Hkh : key <> hKey) by apply monthKey_hourKey_distinct.
  unfold Hooks.chatQuotaHooks. simpl. unfold bind at 1.
  destruct (rateLimiter_healthy t req r Hh Ht) as (r1 & -> & Hh1 & Hd1).
  fold l mKey hKey m h in Hd1 |- *.
  destruct (Z.gtb_spec m (requestsPerMinute l)) as [Hm|Hm].
  { eexists _, r1. split; [done|]. rewrite Hd1. simpl.
    destruct (Z.leb_spec m (requestsPerMinute l)); [lia|]. simpl.
    rewrite lookup_insert_eq, !lookup_insert_ne by done.
    repeat split; try done. intros (? & _); lia. }
  destruct (Z.leb_spec m (requestsPerMinute l)); [|lia].
  destruct (Z.gtb_spec h (requestsPerHour l)) as [Hhr|Hhr].
  { eexists _, r1. split; [done|]. rewrite Hd1. simpl.
    destruct (Z.leb_spec h (requestsPerHour l)); [lia|]. simpl.
    rewrite lookup_insert_eq, lookup_insert_ne, lookup_insert_eq by done.
    rewrite !lookup_insert_ne by done.
    repeat split; try done. intros (_ & ? & _); lia. }
  destruct (Z.leb_spec h (requestsPerHour l)); [|lia].
  unfold bind at 1.
  destruct (checkMonthlyLimit_healthy t req r1 Hh1 Ht) as (r2 & -> & Hh2 & Hd2).
  fold l key in Hd2 |- *.
  assert (Hu : default 0 (Redis.data r1 !! key) = u).
  { by rewrite Hd1, !lookup_insert_ne by done. }
  rewrite Hu in Hd2 |- *.
  destruct (Z.geb_spec u (apiCallsPerMonth l)) as [Hu'|Hu'].
  - eexists _, r2. split; [done|]. rewrite Hd2, Hd1. simpl.
    destruct (Z.ltb_spec u (apiCallsPerMonth l)); [lia|]. simpl.
    rewrite lookup_insert_eq, lookup_insert_ne, lookup_insert_eq by done.
    rewrite !lookup_insert_ne by done.
    repeat split; try done. intros (_ & _ & ?); lia.
  - eexists _, r2. split; [done|]. rewrite Hd2, Hd1. simpl.
    destruct (Z.ltb_spec u (apiCallsPerMonth l)); [|lia]. simpl.
    rewrite lookup_insert_eq.
    rewrite (lookup_insert_ne _ key mKey), (lookup_insert_ne _ hKey mKey),
      lookup_insert_eq by done.
    rewrite (lookup_insert_ne _ key hKey), lookup_insert_eq by done.
    repeat split; done.
Qed.

(** The eleventh request of a minute of a free-plan tenant is answered
    429 by the chain and leaves the month counter at 10. *)
Lemma X5_chat_quota_hooks_witness :
  let r := Fixtures.store
             {[ RateLimit.minuteKey Fixtures.acme 1790000000000 := 10;
                RateLimit.hourKey Fixtures.acme 1790000000000 := 10;
                RateLimit.monthKey Fixtures.acme "2026-11" := 10 ]} [] in
  exists res r',
    Hooks.runPreHandlers Hooks.chatQuotaHooks
      (Fixtures.requestAt 1790000000000) [] r = (Ret res, r')
    /\ Hooks.sent res <> None
    /\ Redis.data r' !! RateLimit.monthKey Fixtures.acme "2026-11" = Some 10.
Proof.
  intros r.
  destruct (X5_chat_quota_hooks Fixtures.acme
              (Fixtures.requestAt 1790000000000) r
              ltac:(repeat split) ltac:(reflexivity))
    as (res & r' & Hrun & Hsent & _ & _ & Hmonth).
  exists res, r'. split; [exact Hrun|]. split.
  - intros Hnone. apply Hsent in Hnone as (Hm & _). vm_compute in Hm.
    by apply Hm.
  - refine (eq_trans Hmonth _). vm_compute. reflexivity.
Defined.

(** * Further properties: the keyword tier *)

Section KeywordTierFacts.
Import Search.
Context {engine : RegexEngine}.

(** Every row [regexFind] returns passed the tenant and type filter. *)
Lemma regexFind_filtered b tenantId sectionType keywords limit found :
  regexFind b tenantId sectionType keywords limit = Ret found ->
  forall d, d ∈ found ->
    d ∈ chunksCollection b /\ baseFilter tenantId sectionType d = true.
Proof.
  unfold regexFind. intros Hfind d Hd.
  destruct (findRejects b); [done|].
  destruct (mongoRegex _) as [every|]; [|done].
  destruct (excMap _ keywords) as [each|]; [|done].
  injection Hfind as <-.
  assert (Hin : d ∈ filter
            (fun d => baseFilter tenantId sectionType d
                      && orFilter every each d = true) (chunksCollection b)).
  { destruct (limit * 2)%nat; [done|]. simpl in Hd.
    apply elem_of_take in Hd as (? & Hd & _).
    by eapply list_elem_of_lookup_2. }
  apply list_elem_of_filter in Hin as [Hflt Hin].
  apply andb_true_iff in Hflt as [Hbase _]. done.
Qed.

Lemma regexTier_source b tenantId queryText limit sectionType results :
  regexTier b tenantId queryText limit sectionType = Ret results ->
  forall p, p ∈ results ->
    exists d, d ∈ chunksCollection b
              /\ baseFilter tenantId sectionType d = true
              /\ p = project d (score p).
Proof.
  unfold regexTier. intros Hres p Hp.
  destruct (regexFind _ _ _ _ _) as [found|e] eqn:Hfind; simpl in Hres; [|done].
  destruct (excMap _ found) as [scored|e] eqn:Hscored; simpl in Hres; [|done].
  injection Hres as <-.
  apply elem_of_take in Hp as (i & Hp & _).
  apply list_elem_of_lookup_2 in Hp.
  apply sortByScore_elem, list_elem_of_filter in Hp as [_ Hp].
  apply excMap_Forall2 in Hscored.
  apply list_elem_of_lookup in Hp as [j Hj].
  destruct (Forall2_lookup_r _ _ _ _ _ Hscored Hj) as (d & Hd & Hsc).
  unfold scoreResult in Hsc.
  destruct (keywordScore _ _) as [q|e]; simpl in Hsc; [|done].
  injection Hsc as <-.
  exists d. apply list_elem_of_lookup_2 in Hd.
  destruct (regexFind_filtered _ _ _ _ _ _ Hfind d Hd) as [Hin Hbase].
  done.
Qed.

Lemma keywordScore_no_keyword subject : keywordScore [] subject = Ret 0%Q.
Proof. reflexivity. Qed.

End KeywordTierFacts.

(** The empty string selects no section type, like [null]. *)
Lemma regexTier_empty_type {engine : Search.RegexEngine}
    (b : Search.Backend) (tenantId queryText : string) (limit : nat) :
  Search.regexTier b tenantId queryText limit (Some "")
  = Search.regexTier b tenantId queryText limit None.
Proof. reflexivity. Qed.

(** X6: the keyword-regex tier never crosses tenants: every passage it
    returns is the projection of a stored chunk row of the querying tenant
    and, when a section type other than the empty string is requested, of
    that type.  The empty string requests no type: it returns what [null]
    returns. *)
Theorem X6_keyword_tier_tenant_isolation {engine : Search.RegexEngine}
    (b : Search.Backend) (tenantId queryText : string) (limit : nat)
    (sectionType : option string) (results : list Search.Passage)
    (p : Search.Passage) :
  Search.regexTier b tenantId queryText limit sectionType = Ret results ->
  p ∈ results ->
  (exists d,
      d ∈ Search.chunksCollection b
      /\ c_tenantId d = tenantId
      /\ (forall ty, sectionType = Some ty -> ty <> "" ->
                      c_sectionType d = ty)
      /\ Search.chunkId p = c_chunkId d
      /\ Search.sectionId p = c_sectionId d
      /\ Search.sectionType p = c_sectionType d
      /\ Search.sectionTitle p = c_sectionTitle d
      /\ Search.text p = c_text d)
  /\ (sectionType = Some "" ->
      Search.regexTier b tenantId queryText limit None = Ret results).
Proof.
  intros Hres Hp. split; [|by intros ->].
  destruct (regexTier_source _ _ _ _ _ _ Hres p Hp) as (d & Hd & Hbase & Hpd).
  exists d. unfold Search.baseFilter in Hbase.
  apply andb_true_iff in Hbase as [Hten Hty].
  apply bool_decide_eq_true in Hten.
  split; [done|]. split; [done|]. split.
  - intros ty -> Hne. destruct ty as [|c ty]; [done|].
    simpl in Hty. by apply bool_decide_eq_true in Hty.
  - rewrite Hpd. by repeat split.
Qed.

(** Four chunks match "free shipping": one of another tenant, one of
    another type and two policy chunks of the tenant.  A search of the
    tenant's policies returns the last two and nothing else. *)
Lemma X6_keyword_tier_tenant_isolation_witness :
  let rows :=
    [Fixtures.foreignChunk; Fixtures.faqChunk; Fixtures.shippingChunk;
     Fixtures.returnsChunk] in
  exists results,
    Search.regexTier (engine := literalEngine) (Fixtures.keywordOnly rows)
      "ten_acme" "free shipping" 5 (Some "policy") = Ret results
    /\ Search.chunkId <$> results = ["chk_1"; "chk_2"]
    /\ forall p, p ∈ results ->
         exists d, d ∈ rows /\ c_tenantId d = "ten_acme"
                   /\ c_sectionType d = "policy"
                   /\ Search.text p = c_text d.
Proof.
  intros rows.
  destruct (Search.regexTier (engine := literalEngine)
              (Fixtures.keywordOnly rows) "ten_acme" "free shipping" 5
              (Some "policy")) as [results|e] eqn:Hres;
    [|by vm_compute in Hres].
  exists results. split; [done|]. split.
  { vm_compute in Hres. by injection Hres as <-. }
  intros p Hp.
  destruct (X6_keyword_tier_tenant_isolation (engine := literalEngine)
              _ _ _ _ _ results p Hres Hp)
    as ((d & Hd & Hten & Hty & _ & _ & _ & _ & Htext) & _).
  exists d. split; [done|]. split; [done|]. split; [|done].
  by apply Hty.
Defined.

(** With the empty string as the type the same search also returns the
    chunk of type "faq", and still not the other tenant's chunk. *)
Example empty_type_returns_every_type :
  exists results,
    Search.regexTier (engine := literalEngine)
      (Fixtures.keywordOnly
         [Fixtures.foreignChunk; Fixtures.faqChunk; Fixtures.shippingChunk;
          Fixtures.returnsChunk])
      "ten_acme" "free shipping" 5 (Some "") = Ret results
    /\ Search.chunkId <$> results = ["chk_5"; "chk_1"; "chk_2"].
Proof. eexists. split; [vm_compute; reflexivity|reflexivity]. Qed.

(** X7: a query in which no whitespace-separated word is longer than two
    characters has no keyword, and the keyword-regex tier returns nothing
    for it, whatever is stored: every row passing the empty pattern scores
    0, below the 0.1 threshold.  When the first two tiers fall through,
    [search] answers such a query with the empty sequence. *)
Theorem X7_short_words_find_nothing {engine : Search.RegexEngine}
    (b : Search.Backend) (tenantId queryText : string)
    (options : Search.Options) :
  Forall (fun w => (String.length w <= 2)%nat)
    (JS.splitWhitespace (JS.toLowerCase queryText)) ->
  let limit := default VECTOR_SEARCH.limit (Search.optLimit options) in
  let minScore :=
    default VECTOR_SEARCH.similarityThreshold (Search.optMinScore options) in
  let sectionType := Search.optSectionType options in
  let vector :=
    Search.vectorTier b tenantId queryText limit minScore sectionType in
  let fullText := Search.textTier b tenantId queryText limit sectionType in
  (forall results,
      Search.regexTier b tenantId queryText limit sectionType = Ret results ->
      results = [])
  /\ ((vector = Ret [] \/ exists e, vector = Throw e) ->
      (fullText = Ret [] \/ exists e, fullText = Throw e) ->
      Search.search b tenantId queryText options = Ret []).
Proof.
  intros Hshort limit minScore sectionType vector fullText.
  assert (Hkw : Search.keywordsOf queryText = []).
  { unfold Search.keywordsOf.
    induction Hshort as [|w ws Hw _ IH]; [done|].
    rewrite filter_cons_False by lia. exact IH. }
  assert (Hnone : forall results,
            Search.regexTier b tenantId queryText limit sectionType
            = Ret results -> results = []).
  { unfold Search.regexTier. rewrite Hkw. intros results Hres.
    destruct (Search.regexFind _ _ _ _ _) as [found|e]; simpl in Hres; [|done].
    assert (Hscored : exists scored,
              excMap (Search.scoreResult []) found = Ret scored
              /\ Forall (fun r => Qle_bool (Search.score r)
                                    Search.minRelevance = true)
                   scored).
    { clear Hres. induction found as [|d found IH]; simpl; [by eexists|].
      destruct IH as (scored & -> & Hall). simpl. eexists. split; [done|].
      constructor; [|done]. reflexivity. }
    destruct Hscored as (scored & Hs & Hall). rewrite Hs in Hres.
    simpl in Hres. injection Hres as <-. clear Hs.
    assert (Hflt : filter (fun r => Qle_bool (Search.score r)
                                      Search.minRelevance = false)
                     scored = []).
    { induction Hall as [|r scored Hr _ IH]; [done|].
      rewrite filter_cons_False by congruence. exact IH. }
    rewrite Hflt. simpl. by rewrite take_nil. }
  split; [exact Hnone|].
  intros Hv Ht.
  rewrite (search_keyword_tier b tenantId queryText options Hv Ht).
  fold limit sectionType.
  destruct (Search.regexTier b tenantId queryText limit sectionType)
    as [rs|e] eqn:Hrs; simpl; [|done].
  by rewrite (Hnone rs).
Qed.

(** The query "is it ok" on a database that holds a matching chunk. *)
Lemma X7_short_words_find_nothing_witness :
  Search.search (engine := literalEngine)
    (Fixtures.keywordOnly [Fixtures.shippingChunk]) "ten_acme"
    "is it ok" Fixtures.noOptions = Ret [].
Proof.
  destruct (X7_short_words_find_nothing (engine := literalEngine)
              (Fixtures.keywordOnly [Fixtures.shippingChunk]) "ten_acme"
              "is it ok" Fixtures.noOptions) as [_ Hsearch].
  - vm_compute. repeat constructor.
  - apply Hsearch; [by left|right; by eexists].
Defined.

(** * Further properties: what ingestion writes *)

Section IngestFacts.
Import Data Ingest.
Variable generateEmbeddings : list string -> Exc (list Embedding).

Lemma chunkDocsFrom_exact tenantId sectionId section embeddings chunks :
  forall index db,
    exists ids db',
      chunkDocsFrom tenantId sectionId section embeddings index chunks db
      = (Ret (rowsFrom tenantId sectionId section embeddings index chunks ids),
         db')
      /\ length ids = length chunks
      /\ sectionsCollection db' = sectionsCollection db
      /\ chunksCollection db' = chunksCollection db
      /\ faults db' = faults db
      /\ (nextId db <= nextId db')%nat.
Proof.
  induction chunks as [|text chunks IH]; intros index db; simpl.
  - by exists [], db.
  - unfold bind, generateChunkId, freshId.
    set (db1 := {| sectionsCollection := _ |}).
    destruct (IH (S index) db1) as (ids & db' & -> & Hl & Hs & Hc & Hf & Hn).
    exists (("chk_" +:+ pretty (nextId db)) :: ids), db'. simpl in *.
    repeat split; try done; lia.
Qed.

Lemma rowsFrom_length tenantId sectionId section embeddings chunks :
  forall index ids,
    length ids = length chunks ->
    length (rowsFrom tenantId sectionId section embeddings index chunks ids)
    = length chunks.
Proof.
  induction chunks as [|text chunks IH]; intros index [|id ids] Hl;
    simpl in *; try done. by rewrite IH by lia.
Qed.

(** The loop body on an accepted section, exactly. *)
Lemma processSection_writes tenantId section db :
  accepts generateEmbeddings section = true -> faults db = [] ->
  exists e r db',
    processSection generateEmbeddings tenantId section db = (Ret r, db')
    /\ e_section e = section
    /\ e_id e = "sec_" +:+ pretty (nextId db)
    /\ wellMade generateEmbeddings (nextId db) e
    /\ sectionsCollection db'
       = (sectionsCollection db ++ [docOf tenantId e])%list
    /\ chunksCollection db'
       = (chunksCollection db ++ rowsOfEntry tenantId e)%list
    /\ faults db' = [] /\ (nextId db < nextId db')%nat
    /\ r_sectionId r = e_id e /\ r_chunkCount r = length (e_chunks e).
Proof.
  unfold accepts, processSection. intros Hacc Hf.
  apply andb_true_iff in Hacc as [Hacc Hemb].
  apply andb_true_iff in Hacc as [Hne Htrim]. rewrite Hne, Htrim. simpl.
  unfold bind at 1. unfold generateSectionId, freshId.
  set (db1 := {| sectionsCollection := _ |}).
  set (sid := "sec_" +:+ pretty (nextId db)).
  destruct (Chunker.chunkText _ _ _) as [[|c chunks]|] eqn:Hchunks; try done.
  change (length (c :: chunks) =? 0)%nat with false. cbv iota.
  destruct (generateEmbeddings (c :: chunks)) as [embeddings|err] eqn:Hembed;
    [|done].
  unfold bind at 1. unfold liftExc at 1.
  unfold bind at 1. unfold insertOne.
  rewrite (command_ok _ db1 Hf). cbv beta iota delta [fst snd].
  set (db2 := {| sectionsCollection := _ |}).
  unfold bind at 1.
  destruct (chunkDocsFrom_exact tenantId sid section embeddings (c :: chunks)
              0%nat db2) as (ids & db3 & -> & Hl & Hs3 & Hc3 & Hf3 & Hn3).
  unfold bind at 1.
  assert (Hrows : length (rowsFrom tenantId sid section embeddings 0
                            (c :: chunks) ids) = length (c :: chunks))
    by by apply rowsFrom_length.
  destruct (rowsFrom tenantId sid section embeddings 0 (c :: chunks) ids)
    as [|row rows] eqn:Hrf; [done|].
  change (0 <? length (row :: rows))%nat with true. cbv iota.
  unfold insertMany. rewrite (command_ok _ db3); [|by rewrite Hf3].
  cbv beta iota delta [fst snd]. unfold ret.
  exists {| e_section := section; e_id := sid; e_chunks := c :: chunks;
            e_embeddings := embeddings; e_chunkIds := ids |}.
  eexists _, _. split; [done|]. simpl.
  rewrite Hs3, Hc3, Hf3. unfold rowsOfEntry, docOf. simpl e_id.
  simpl e_section. simpl e_chunks. simpl e_embeddings. simpl e_chunkIds.
  rewrite Hrf.
  repeat split; try done; try lia.
  exists (nextId db). by split.
Qed.

(** The loop, exactly: the entries of the accepted sections, in order. *)
Lemma processSections_writes tenantId :
  forall todo results total db,
    faults db = [] ->
    exists res db' entries,
      processSections generateEmbeddings tenantId todo results total db
      = (res, db')
      /\ e_section <$> entries = acceptedPrefix generateEmbeddings todo
      /\ sectionsCollection db'
         = (sectionsCollection db ++ (docOf tenantId <$> entries))%list
      /\ chunksCollection db'
         = (chunksCollection db ++ concat (rowsOfEntry tenantId <$> entries))%list
      /\ Forall (wellMade generateEmbeddings (nextId db)) entries
      /\ NoDup (e_id <$> entries)
      /\ faults db' = [] /\ (nextId db <= nextId db')%nat
      /\ Forall (fun e => ~ generatedFrom (nextId db') (e_id e)) entries
      /\ (isRet res = true <-> acceptedPrefix generateEmbeddings todo = todo)
      /\ (forall rs n, res = Ret (rs, n) ->
            exists rs', rs = (results ++ rs')%list
                        /\ r_sectionId <$> rs' = e_id <$> entries
                        /\ r_chunkCount <$> rs'
                           = (fun e => length (e_chunks e)) <$> entries).
Proof.
  induction todo as [|section rest IH]; intros results total db Hf.
  - exists (Ret (results, total)), db, []. simpl. rewrite !app_nil_r.
    repeat split; try done; try constructor.
    intros rs n [= <- _]. exists []. by rewrite app_nil_r.
  - simpl. unfold bind.
    destruct (accepts generateEmbeddings section) eqn:Hacc.
    + destruct (processSection_writes tenantId section db Hacc Hf)
        as (e & r & db1 & -> & Hsec & Hid & Hwell & Hs1 & Hc1 & Hf1 & Hn1
            & Hrid & Hrc).
      destruct (IH (results ++ [r])%list (total + r_chunkCount r)%nat db1 Hf1)
        as (res & db' & entries & -> & Hpre & Hs & Hc & Hall & Hnd & Hf'
            & Hn' & Hspent & Hret & Hres).
      exists res, db', (e :: entries). split; [done|].
      rewrite !fmap_cons, concat_cons.
      split; [by rewrite Hsec, Hpre|].
      split; [by rewrite Hs, Hs1, <- app_assoc|].
      split; [by rewrite Hc, Hc1, <- app_assoc|].
      split.
      { constructor; [done|]. eapply Forall_impl; [exact Hall|].
        intros e' (? & ? & ? & ? & Hg). repeat split; try done.
        apply (generatedFrom_mono _ (nextId db1)); [lia|done]. }
      split.
      { constructor; [|done]. intros Hin.
        apply list_elem_of_fmap in Hin as (e' & Heq & Hin).
        pose proof (proj1 (list.Forall_forall _ _) Hall e' Hin)
          as (_ & _ & _ & _ & (n & Hge & Hn)).
        rewrite Hid, Hn in Heq. apply sectionId_inj in Heq. lia. }
      split; [done|]. split; [lia|]. split.
      { constructor; [|done]. rewrite Hid. intros (n & Hge & Heq).
        apply sectionId_inj in Heq. lia. }
      split.
      { rewrite Hret. split; [by intros ->|by intros [= ->]]. }
      intros rs n Hrs. destruct (Hres rs n Hrs) as (rs' & -> & Hids & Hcs).
      exists (r :: rs'). rewrite <- app_assoc, !fmap_cons.
      by rewrite Hids, Hcs, Hrid, Hrc.
    + destruct (processSection_refused generateEmbeddings tenantId section db
                  Hacc Hf) as (err & db1 & -> & Hs1 & Hc1 & Hf1 & Hn1).
      exists (Throw err), db1, []. simpl. rewrite !app_nil_r.
      repeat split; try done; constructor.
Qed.

(** The rows of an entry all carry its identifier and the tenant's. *)
Lemma rowsFrom_owner tenantId sectionId section embeddings chunks :
  forall index ids,
    Forall (fun c => c_tenantId c = tenantId /\ c_sectionId c = sectionId)
      (rowsFrom tenantId sectionId section embeddings index chunks ids).
Proof.
  induction chunks as [|text chunks IH]; intros index [|id ids]; simpl;
    try constructor; [done|apply IH].
Qed.

(** Among the rows written, those of one entry are its own rows. *)
Lemma rowsOf_entries tenantId entries e :
  NoDup (e_id <$> entries) -> e ∈ entries ->
  rowsOf tenantId (e_id e) (concat (rowsOfEntry tenantId <$> entries))
  = rowsOfEntry tenantId e.
Proof.
  induction entries as [|e' entries IH]; intros Hnd Hin;
    [by apply elem_of_nil in Hin|].
  apply NoDup_cons in Hnd as [Hnotin Hnd]. simpl. rewrite rowsOf_app.
  apply elem_of_cons in Hin as [->|Hin].
  - rewrite rowsOf_all by apply rowsFrom_owner.
    rewrite rowsOf_none; [by rewrite app_nil_r|].
    apply Forall_concat, list.Forall_forall. intros rows Hrows.
    apply list_elem_of_fmap in Hrows as (e2 & -> & He2).
    eapply Forall_impl; [apply rowsFrom_owner|]. intros c [_ ->] Heq.
    apply Hnotin. rewrite <- Heq. by apply list_elem_of_fmap_2.
  - rewrite (rowsOf_none _ _ (rowsOfEntry tenantId e')).
    + by apply IH.
    + eapply Forall_impl; [apply rowsFrom_owner|]. intros c [_ ->] Heq.
      apply Hnotin. rewrite Heq. by apply list_elem_of_fmap_2.
Qed.

End IngestFacts.

Section RegisterFacts.
Import Data Ingest.
Variable generateEmbeddings : list string -> Exc (list Embedding).

(** [registerData] on a database that answers, below the section limit:
    the entries of the accepted sections are appended to the two
    collections. *)
Lemma registerData_writes tenantId batch limits db :
  faults db = [] ->
  Z.of_nat (length (filter (fun d => s_tenantId d = tenantId)
                      (sectionsCollection db)))
  + Z.of_nat (length batch) <= sectionsPerTenant limits ->
  exists res db' entries,
    registerData generateEmbeddings tenantId batch limits db = (res, db')
    /\ e_section <$> entries = acceptedPrefix generateEmbeddings batch
    /\ sectionsCollection db'
       = (sectionsCollection db ++ (docOf tenantId <$> entries))%list
    /\ chunksCollection db'
       = (chunksCollection db ++ concat (rowsOfEntry tenantId <$> entries))%list
    /\ Forall (wellMade generateEmbeddings (nextId db)) entries
    /\ NoDup (e_id <$> entries)
    /\ faults db' = []
    /\ (isRet res = true <-> acceptedPrefix generateEmbeddings batch = batch)
    /\ (forall reg, res = Ret reg ->
          sectionsCreated reg = length batch
          /\ r_sectionId <$> sections reg = e_id <$> entries
          /\ r_chunkCount <$> sections reg
             = (fun e => length (e_chunks e)) <$> entries).
Proof.
  intros Hf Hlimit.
  unfold registerData, tryCatch, bind, countDocuments.
  rewrite (command_ok _ db Hf). cbv beta iota delta [fst snd].
  destruct (Z.gtb_spec (Z.of_nat (length (filter (fun d => s_tenantId d = tenantId)
                                            (sectionsCollection db)))
                        + Z.of_nat (length batch))
              (sectionsPerTenant limits)); [lia|].
  destruct (processSections_writes generateEmbeddings tenantId batch [] 0%nat
              db Hf)
    as (res & db' & entries & -> & Hpre & Hs & Hc & Hall & Hnd & Hf'
        & _ & _ & Hret & Hres).
  destruct res as [[rs n]|err].
  - eexists _, db', entries. split; [done|].
    do 6 (split; [done|]). split; [exact Hret|].
    intros reg [= <-]. simpl.
    destruct (Hres rs n eq_refl) as (rs' & -> & Hids & Hcs). done.
  - eexists _, db', entries. split; [done|].
    do 6 (split; [done|]). split; [exact Hret|]. intros reg [=].
Qed.

(** On a fresh database no stored row or document carries the identifier
    of a new entry. *)
Lemma fresh_rows_none tenantId db e :
  fresh db -> generatedFrom (nextId db) (e_id e) ->
  rowsOf tenantId (e_id e) (chunksCollection db) = []
  /\ docsOf tenantId (e_id e) (sectionsCollection db) = [].
Proof.
  intros [Hs Hc] Hgen. split.
  - apply rowsOf_none. eapply Forall_impl; [exact Hc|].
    intros c Hspent Heq. apply (spent_not_generated _ _ Hspent).
    by rewrite Heq.
  - apply docsOf_none. eapply Forall_impl; [exact Hs|].
    intros d Hspent Heq. apply (spent_not_generated _ _ Hspent).
    by rewrite Heq.
Qed.

End RegisterFacts.

Section RowFacts.
Import Ingest SectionChunks.

Lemma rowsFrom_texts tenantId sectionId section embeddings chunks :
  forall index ids,
    length ids = length chunks ->
    c_text <$> rowsFrom tenantId sectionId section embeddings index chunks ids
    = chunks
    /\ c_position
       <$> rowsFrom tenantId sectionId section embeddings index chunks ids
       = seq index (length chunks).
Proof.
  induction chunks as [|text chunks IH]; intros index [|id ids] Hl;
    simpl in *; try done.
  destruct (IH (S index) ids ltac:(lia)) as [Ht Hp].
  split; f_equal; [exact Ht|exact Hp].
Qed.

Lemma rowsFrom_embedding tenantId sectionId section embeddings chunks
    (f : string -> Embedding) :
  forall index ids,
    (forall i text, chunks !! i = Some text ->
                    embeddings !! (index + i)%nat = Some (f text)) ->
    Forall (fun c => c_embedding c = Some (f (c_text c)))
      (rowsFrom tenantId sectionId section embeddings index chunks ids).
Proof.
  induction chunks as [|text chunks IH]; intros index [|id ids] Hemb;
    simpl; try constructor.
  - simpl. rewrite <- (Nat.add_0_r index). by apply Hemb.
  - apply IH. intros i text' Hi.
    replace (S index + i)%nat with (index + S i)%nat by lia. by apply Hemb.
Qed.

(** Sorting rows whose positions already ascend changes nothing. *)
Lemma insertByPosition_head x l :
  Forall (fun y => (c_position x <= c_position y)%nat) l ->
  insertByPosition x l = x :: l.
Proof.
  destruct 1 as [|y l Hy _]; simpl; [done|].
  by destruct (Nat.leb_spec (c_position x) (c_position y)); [|lia].
Qed.

Lemma sortByPosition_sorted_id l :
  StronglySorted (fun a b => (c_position a <= c_position b)%nat) l ->
  sortByPosition l = l.
Proof.
  induction 1 as [|x l _ IH Hall]; simpl; [done|].
  rewrite IH. by apply insertByPosition_head.
Qed.

Lemma rowsFrom_sorted tenantId sectionId section embeddings chunks :
  forall index ids,
    StronglySorted (fun a b => (c_position a <= c_position b)%nat)
      (rowsFrom tenantId sectionId section embeddings index chunks ids)
    /\ Forall (fun c => (index <= c_position c)%nat)
         (rowsFrom tenantId sectionId section embeddings index chunks ids).
Proof.
  induction chunks as [|text chunks IH]; intros index [|id ids]; simpl;
    try (split; constructor).
  - apply IH.
  - eapply Forall_impl; [apply (IH (S index) ids)|]. simpl. intros; lia.
  - simpl. lia.
  - eapply Forall_impl; [apply (IH (S index) ids)|]. simpl. intros; lia.
Qed.







End RowFacts.

(** * Further properties: reading the chunks of a section *)


(** * Further properties: what an ingestion leaves to be read *)

(** X9: after a successful [registerData] on a database that answers and
    whose stored identifiers are not generated again, reading back each
    returned section with [getChunksBySection] gives the chunks of
    [chunkText] on the submitted content, in order, at positions
    0, 1, ..., [chunkCount] - 1. *)
Theorem X9_registered_chunks_read_back
    (generateEmbeddings : list string -> Exc (list Embedding))
    (tenantId : string) (batch : list Data.SectionInput) (limits : Limits)
    (db db' : Data.Db) (reg : Data.Registered) (b : Search.Backend) :
  Data.faults db = [] ->
  Data.fresh db ->
  Data.registerData generateEmbeddings tenantId batch limits db
  = (Ret reg, db') ->
  Search.chunksCollection b = Data.chunksCollection db' ->
  Search.findRejects b = false ->
  Forall2
    (fun section r =>
       exists views,
         SectionChunks.getChunksBySection b tenantId (Data.r_sectionId r)
         = Ret views
         /\ Chunker.chunkText (Data.content section)
              CHUNK_CONFIG.size CHUNK_CONFIG.overlap
            = Some (SectionChunks.v_text <$> views)
         /\ SectionChunks.v_position <$> views
            = seq 0 (Data.r_chunkCount r))
    batch (Data.sections reg).
Proof.
  intros Hf Hfresh Hrun Hb Hfind.
  assert (Hlimit :
    Z.of_nat (length (filter (fun d => s_tenantId d = tenantId)
                        (Data.sectionsCollection db)))
    + Z.of_nat (length batch) <= sectionsPerTenant limits).
  { revert Hrun.
    unfold Data.registerData, tryCatch, bind, Data.countDocuments.
    rewrite (command_ok _ db Hf). cbv beta iota delta [fst snd].
    destruct (Z.gtb_spec
                (Z.of_nat (length (filter (fun d => s_tenantId d = tenantId)
                                     (Data.sectionsCollection db)))
                 + Z.of_nat (length batch))
                (sectionsPerTenant limits)); [|done].
    unfold throw. discriminate. }
  destruct (registerData_writes generateEmbeddings tenantId batch limits db
              Hf Hlimit)
    as (res & db'' & entries & Hrun' & Hpre & _ & Hc & Hall & Hnd & _
        & Hret & Hreg).
  rewrite Hrun in Hrun'. injection Hrun' as <- <-.
  destruct (Hreg reg eq_refl) as (_ & Hids & Hcounts).
  assert (Hbatch : batch = Ingest.e_section <$> entries).
  { rewrite Hpre. symmetry. by apply Hret. }
  apply Forall2_same_length_lookup. split.
  { rewrite Hbatch, length_fmap.
    rewrite <- (length_fmap Data.r_sectionId (Data.sections reg)), Hids.
    by rewrite length_fmap. }
  intros i section r Hsec Hr.
  rewrite Hbatch in Hsec.
  apply list_lookup_fmap_Some in Hsec as (e & -> & He).
  assert (Hid : Data.r_sectionId r = Ingest.e_id e).
  { assert (H1 : (Data.r_sectionId <$> Data.sections reg) !! i
                 = Some (Data.r_sectionId r))
      by (by rewrite list_lookup_fmap, Hr).
    rewrite Hids, list_lookup_fmap, He in H1. by injection H1. }
  assert (Hcount : Data.r_chunkCount r = length (Ingest.e_chunks e)).
  { assert (H1 : (Data.r_chunkCount <$> Data.sections reg) !! i
                 = Some (Data.r_chunkCount r))
      by (by rewrite list_lookup_fmap, Hr).
    rewrite Hcounts, list_lookup_fmap, He in H1. by injection H1. }
  assert (Hin : e ∈ entries) by (by eapply list_elem_of_lookup_2).
  pose proof (proj1 (list.Forall_forall _ _) Hall e Hin)
    as (Hchunks & _ & _ & Hlen & Hgen).
  unfold SectionChunks.getChunksBySection. rewrite Hfind, Hb, Hc, Hid.
  rewrite rowsOf_app.
  rewrite (proj1 (fresh_rows_none tenantId db e Hfresh Hgen)).
  rewrite (rowsOf_entries tenantId entries e Hnd Hin). simpl.
  unfold Ingest.rowsOfEntry.
  rewrite sortByPosition_sorted_id by apply rowsFrom_sorted.
  destruct (rowsFrom_texts tenantId (Ingest.e_id e) (Ingest.e_section e)
              (Ingest.e_embeddings e) (Ingest.e_chunks e) 0%nat
              (Ingest.e_chunkIds e) Hlen) as [Ht Hp].
  eexists. split; [done|].
  rewrite <- !list_fmap_compose.
  split.
  - rewrite Hchunks. f_equal. symmetry. exact Ht.
  - rewrite Hcount. exact Hp.
Qed.

(** One section read back from an empty database. *)
Lemma X9_registered_chunks_read_back_witness :
  exists reg db',
    Data.registerData Data.testEmbeddings "ten_acme"
      [Fixtures.shippingSection] (PLANS FREE) (Fixtures.emptyDb [])
    = (Ret reg, db')
    /\ Forall2
         (fun section r =>
            exists views,
              SectionChunks.getChunksBySection
                (Fixtures.keywordOnly (Data.chunksCollection db')) "ten_acme"
                (Data.r_sectionId r)
              = Ret views
              /\ Chunker.chunkText (Data.content section)
                   CHUNK_CONFIG.size CHUNK_CONFIG.overlap
                 = Some (SectionChunks.v_text <$> views)
              /\ SectionChunks.v_position <$> views
                 = seq 0 (Data.r_chunkCount r))
         [Fixtures.shippingSection] (Data.sections reg).
Proof.
  eexists _, _. split; [vm_compute; reflexivity|].
  eapply (X9_registered_chunks_read_back Data.testEmbeddings "ten_acme"
            [Fixtures.shippingSection] (PLANS FREE) (Fixtures.emptyDb [])).
  - reflexivity.
  - split; constructor.
  - vm_compute. reflexivity.
  - reflexivity.
  - reflexivity.
Defined.

(** * Further properties: blank text and the chunker *)

Section VisibleFacts.
Import Visible Chunker.

Lemma nonEmpty_trimStart s : JS.nonEmpty (JS.trimStart s) = hasVisible s.
Proof.
  induction s as [|c s IH]; simpl; [done|].
  by destruct (JS.isWhitespace c).
Qed.

Lemma hasVisible_trimStart s : hasVisible (JS.trimStart s) = hasVisible s.
Proof.
  induction s as [|c s IH]; simpl; [done|].
  destruct (JS.isWhitespace c) eqn:Hc; simpl; [done|]. by rewrite Hc.
Qed.

Lemma hasVisible_revString s :
  forall acc, hasVisible (JS.revString s acc) = hasVisible s || hasVisible acc.
Proof.
  induction s as [|c s IH]; intros acc; simpl; [done|].
  rewrite IH. simpl. by destruct (JS.isWhitespace c), (hasVisible s).
Qed.

Lemma nonEmpty_revString s :
  forall acc,
    JS.nonEmpty (JS.revString s acc) = JS.nonEmpty s || JS.nonEmpty acc.
Proof.
  induction s as [|c s IH]; intros acc; simpl; [done|].
  rewrite IH. simpl. by rewrite orb_true_r.
Qed.

(** [trim] leaves something exactly when the string is not blank. *)
Lemma nonEmpty_trim s : JS.nonEmpty (JS.trim s) = hasVisible s.
Proof.
  unfold JS.trim.
  rewrite nonEmpty_revString, orb_false_r, nonEmpty_trimStart.
  by rewrite hasVisible_revString, orb_false_r, hasVisible_trimStart.
Qed.

Lemma hasVisible_app a b :
  hasVisible (a +:+ b) = hasVisible a || hasVisible b.
Proof.
  induction a as [|c a IH]; simpl; [done|].
  by rewrite IH, orb_assoc.
Qed.

Lemma hasVisible_join l :
  hasVisible (JS.join " " l) = existsb hasVisible l.
Proof.
  induction l as [|x [|y l] IH]; [done| |].
  - simpl. by rewrite orb_false_r.
  - change (JS.join " " (x :: y :: l))
      with (x +:+ " " +:+ JS.join " " (y :: l)).
    rewrite !hasVisible_app, IH. done.
Qed.

Lemma hasVisible_splitLoop s :
  forall cur inWs,
    existsb hasVisible (JS.splitLoop s cur inWs)
    = hasVisible s || hasVisible cur.
Proof.
  induction s as [|c s IH]; intros cur inWs; simpl.
  - by rewrite hasVisible_revString, !orb_false_r.
  - destruct (JS.isWhitespace c) eqn:Hc; simpl.
    + destruct inWs; simpl; rewrite IH; simpl.
      * done.
      * rewrite hasVisible_revString. simpl.
        rewrite !orb_false_r. apply orb_comm.
    + rewrite IH. simpl. rewrite Hc. simpl. by rewrite orb_true_r.
Qed.

(** A text is blank exactly when all its tokens are. *)
Lemma hasVisible_splitWhitespace text :
  existsb hasVisible (JS.splitWhitespace text) = hasVisible text.
Proof.
  unfold JS.splitWhitespace. rewrite hasVisible_splitLoop. simpl.
  by rewrite orb_false_r.
Qed.

Lemma existsb_take_drop (words : list string) n k j w :
  words !! j = Some w -> hasVisible w = true ->
  (k <= j < k + n)%nat ->
  existsb hasVisible (take n (drop k words)) = true.
Proof.
  intros Hw Hv Hj. apply existsb_exists. exists w. split; [|done].
  apply list_elem_of_In. apply (list_elem_of_lookup_2 _ (j - k)%nat).
  rewrite lookup_take_lt by lia. rewrite lookup_drop.
  by replace (k + (j - k))%nat with j by lia.
Qed.

Lemma existsb_slice_blank (words : list string) a b :
  existsb hasVisible words = false ->
  existsb hasVisible (JS.slice words a b) = false.
Proof.
  intros Hblank. apply not_true_is_false. intros Hex.
  apply existsb_exists in Hex as (w & Hin & Hv).
  assert (Hw : In w words).
  { apply list_elem_of_In. apply list_elem_of_In in Hin.
    unfold JS.slice in Hin.
    by apply subseteq_take, subseteq_drop in Hin. }
  assert (existsb hasVisible words = true)
    by (apply existsb_exists; eauto).
  congruence.
Qed.

Lemma pushWindow_keeps words size i acc :
  acc <> [] -> pushWindow words size i acc <> [].
Proof.
  intros Hacc. unfold pushWindow.
  destruct (JS.nonEmpty _); [|done]. by destruct acc.
Qed.

Lemma chunkLoop_keeps fuel words size overlap :
  forall i acc r,
    acc <> [] -> chunkLoop fuel words size overlap i acc = Some r -> r <> [].
Proof.
  induction fuel as [|fuel IH]; intros i acc r Hacc; simpl; [done|].
  destruct (i <? Z.of_nat (length words)).
  - apply IH. by apply pushWindow_keeps.
  - by intros [= <-].
Qed.

(** A window that holds a token with a visible character is pushed. *)
Lemma pushWindow_visible words size i acc j w :
  0 <= i -> 0 < size ->
  words !! j = Some w -> hasVisible w = true ->
  i <= Z.of_nat j < i + size ->
  pushWindow words size i acc <> [].
Proof.
  intros Hi Hs Hw Hv Hj. unfold pushWindow.
  rewrite nonEmpty_trim, hasVisible_join, slice_window by lia.
  rewrite (existsb_take_drop words _ _ j w Hw Hv) by lia.
  by destruct acc.
Qed.

Lemma chunkLoop_visible fuel words size overlap j w :
  0 <= overlap < size ->
  words !! j = Some w -> hasVisible w = true ->
  forall i acc r,
    0 <= i <= Z.of_nat j ->
    chunkLoop fuel words size overlap i acc = Some r -> r <> [].
Proof.
  intros Hstep Hw Hv.
  induction fuel as [|fuel IH]; intros i acc r Hi; simpl; [done|].
  pose proof (lookup_lt_Some _ _ _ Hw) as Hlt.
  destruct (Z.ltb_spec i (Z.of_nat (length words))); [|lia].
  destruct (Z.lt_ge_cases (Z.of_nat j) (i + size)) as [Hin|Hout].
  - apply chunkLoop_keeps.
    apply (pushWindow_visible words size i acc j w); [lia|lia|done|done|lia].
  - apply IH. lia.
Qed.

Lemma pushWindow_blank words size i :
  existsb hasVisible words = false -> pushWindow words size i [] = [].
Proof.
  intros Hblank. unfold pushWindow.
  by rewrite nonEmpty_trim, hasVisible_join, existsb_slice_blank.
Qed.

Lemma chunkLoop_blank fuel words size overlap :
  existsb hasVisible words = false ->
  forall i r, chunkLoop fuel words size overlap i [] = Some r -> r = [].
Proof.
  intros Hblank. induction fuel as [|fuel IH]; intros i r; simpl; [done|].
  destruct (i <? Z.of_nat (length words)).
  - rewrite pushWindow_blank by done. apply IH.
  - by intros [= <-].
Qed.

Lemma chunkText_blank_iff text size overlap :
  0 <= overlap < size ->
  exists chunks,
    chunkText text size overlap = Some chunks
    /\ (chunks = [] <-> JS.nonEmpty (JS.trim text) = false).
Proof.
  intros Hstep. unfold chunkText, chunkTextFuel.
  destruct (chunkLoop_returns (JS.splitWhitespace text) size overlap
              ltac:(lia) (S (length (JS.splitWhitespace text))) 0 []
              ltac:(lia) ltac:(lia)) as [r Hr].
  exists r. split; [done|]. rewrite nonEmpty_trim.
  rewrite <- hasVisible_splitWhitespace.
  destruct (existsb hasVisible (JS.splitWhitespace text)) eqn:Hex.
  - split; [|done]. intros ->.
    apply existsb_exists in Hex as (w & Hin & Hv).
    apply list_elem_of_In, list_elem_of_lookup in Hin as [j Hj].
    by apply (chunkLoop_visible _ _ _ _ j w Hstep Hj Hv 0 [] [] ltac:(lia)) in Hr.
  - split; [done|]. intros _. by apply chunkLoop_blank in Hr.
Qed.

(** Only strings that are not empty are pushed. *)
Lemma chunkLoop_chunks_nonEmpty fuel words size overlap :
  forall i acc r,
    Forall (fun c => JS.nonEmpty c = true) acc ->
    chunkLoop fuel words size overlap i acc = Some r ->
    Forall (fun c => JS.nonEmpty c = true) r.
Proof.
  induction fuel as [|fuel IH]; intros i acc r Hacc; simpl; [done|].
  destruct (i <? Z.of_nat (length words)).
  - apply IH. unfold pushWindow.
    destruct (JS.nonEmpty (JS.trim _)) eqn:Hne; [|done].
    apply Forall_app. split; [done|]. by constructor.
  - by intros [= <-].
Qed.

End VisibleFacts.

(** X10: with a window larger than a non-negative overlap, [chunkText]
    returns; it returns no chunk exactly when the text is blank (empty
    once trimmed), so a text with a visible character always gives at
    least one chunk; and no chunk it returns is the empty string. *)
Theorem X10_chunkText_empty_iff_blank (text : string) (size overlap : Z) :
  0 <= overlap < size ->
  exists chunks,
    Chunker.chunkText text size overlap = Some chunks
    /\ (chunks = [] <-> JS.nonEmpty (JS.trim text) = false)
    /\ Forall (fun c => JS.nonEmpty c = true) chunks.
Proof.
  intros Hstep.
  destruct (chunkText_blank_iff text size overlap Hstep)
    as (chunks & Hrun & Hblank).
  exists chunks. split; [done|]. split; [done|].
  unfold Chunker.chunkText, Chunker.chunkTextFuel in Hrun.
  by apply chunkLoop_chunks_nonEmpty in Hrun.
Qed.

(** The configured window on a text of tabs and spaces. *)
Lemma X10_chunkText_empty_iff_blank_witness :
  exists chunks,
    Chunker.chunkText (String (ascii_of_N 9) "  ")
      CHUNK_CONFIG.size CHUNK_CONFIG.overlap = Some chunks
    /\ (chunks = []
        <-> JS.nonEmpty (JS.trim (String (ascii_of_N 9) "  ")) = false)
    /\ Forall (fun c => JS.nonEmpty c = true) chunks.
Proof.
  apply (X10_chunkText_empty_iff_blank (String (ascii_of_N 9) "  ")
           CHUNK_CONFIG.size CHUNK_CONFIG.overlap).
  unfold CHUNK_CONFIG.size, CHUNK_CONFIG.overlap. lia.
Defined.

(** * Further properties: ingestion with the embedding service *)

Section MockIngestFacts.
Import Data Ingest.

Lemma acceptedPrefix_all generateEmbeddings batch :
  acceptedPrefix generateEmbeddings batch = batch
  <-> Forall (fun s => accepts generateEmbeddings s = true) batch.
Proof.
  induction batch as [|s batch IH]; simpl.
  - split; [constructor|done].
  - destruct (accepts generateEmbeddings s) eqn:Hacc.
    + rewrite Forall_cons. split.
      * intros [= H]. split; [done|]. by apply IH.
      * intros [_ H]. f_equal. by apply IH.
    + split; [done|]. intros H. apply Forall_cons in H as [H _]. congruence.
Qed.

Lemma generateMockEmbedding_length sineHalf text :
  length (Embedder.generateMockEmbedding sineHalf text) = Embedder.dimension.
Proof.
  unfold Embedder.generateMockEmbedding. by rewrite length_fmap, length_seq.
Qed.

(** With the embedding service, a section is accepted exactly when its
    content is not blank. *)
Lemma accepts_mock sineHalf s :
  accepts (Embedder.generateEmbeddings sineHalf) s
  = JS.nonEmpty (JS.trim (content s)).
Proof.
  unfold accepts.
  destruct (chunkText_blank_iff (content s) CHUNK_CONFIG.size
              CHUNK_CONFIG.overlap
              ltac:(unfold CHUNK_CONFIG.size, CHUNK_CONFIG.overlap; lia))
    as (chunks & -> & Hblank).
  destruct (JS.nonEmpty (JS.trim (content s))) eqn:Htrim.
  - assert (Hne : JS.nonEmpty (content s) = true).
    { destruct (content s); [discriminate Htrim|done]. }
    rewrite Hne. destruct chunks as [|c chunks]; [|done].
    by destruct (proj1 Hblank eq_refl).
  - by rewrite andb_false_r.
Qed.

End MockIngestFacts.

(** X11: [registerData] with the embedding service, on a database that
    answers and below the section limit, succeeds exactly when no section
    of the batch has a blank content (so its test for a content without
    chunks never fires), and every chunk row it writes carries the
    768-number embedding computed from the text of that row. *)
Theorem X11_mock_ingestion (sineHalf : Z -> Q) (tenantId : string)
    (batch : list Data.SectionInput) (limits : Limits) (db : Data.Db) :
  Data.faults db = [] ->
  Z.of_nat (length (filter (fun d => s_tenantId d = tenantId)
                      (Data.sectionsCollection db)))
  + Z.of_nat (length batch) <= sectionsPerTenant limits ->
  exists res db' rows,
    Data.registerData (Embedder.generateEmbeddings sineHalf) tenantId batch
      limits db = (res, db')
    /\ Data.chunksCollection db' = (Data.chunksCollection db ++ rows)%list
    /\ (isRet res = true
        <-> Forall (fun s => JS.nonEmpty (JS.trim (Data.content s)) = true)
              batch)
    /\ Forall (fun c =>
                 exists v,
                   c_embedding c = Some v
                   /\ v = Embedder.generateMockEmbedding sineHalf (c_text c)
                   /\ length v = 768%nat) rows.
Proof.
  intros Hf Hlimit.
  destruct (registerData_writes (Embedder.generateEmbeddings sineHalf)
              tenantId batch limits db Hf Hlimit)
    as (res & db' & entries & Hrun & _ & _ & Hc & Hall & _ & _ & Hret & _).
  exists res, db', (concat (Ingest.rowsOfEntry tenantId <$> entries)).
  split; [done|]. split; [done|]. split.
  - rewrite Hret, acceptedPrefix_all.
    split; intros H; (eapply Forall_impl; [exact H|]); intros s Hs;
      simpl in *;
      [by rewrite <- (accepts_mock sineHalf)|by rewrite accepts_mock].
  - apply Forall_concat, Forall_fmap, list.Forall_forall. intros e He.
    pose proof (proj1 (list.Forall_forall _ _) Hall e He)
      as (_ & _ & Hemb & _ & _).
    injection Hemb as Hemb. unfold Ingest.rowsOfEntry.
    eapply Forall_impl.
    + apply (rowsFrom_embedding tenantId (Ingest.e_id e) (Ingest.e_section e)
               (Ingest.e_embeddings e) (Ingest.e_chunks e)
               (Embedder.generateMockEmbedding sineHalf) 0%nat).
      intros i text Hi. rewrite <- Hemb. simpl.
      by rewrite list_lookup_fmap, Hi.
    + intros c Hc'. eexists. split; [exact Hc'|]. split; [done|].
      apply generateMockEmbedding_length.
Qed.

(** One section on an empty database. *)
Lemma X11_mock_ingestion_witness :
  exists res db' rows,
    Data.registerData (Embedder.generateEmbeddings (fun _ => 0%Q)) "ten_acme"
      [Fixtures.shippingSection] (PLANS FREE) (Fixtures.emptyDb [])
    = (res, db')
    /\ Data.chunksCollection db'
       = (Data.chunksCollection (Fixtures.emptyDb []) ++ rows)%list
    /\ (isRet res = true
        <-> Forall (fun s => JS.nonEmpty (JS.trim (Data.content s)) = true)
              [Fixtures.shippingSection])
    /\ Forall (fun c =>
                 exists v,
                   c_embedding c = Some v
                   /\ v = Embedder.generateMockEmbedding (fun _ => 0%Q)
                            (c_text c)
                   /\ length v = 768%nat) rows.
Proof.
  apply (X11_mock_ingestion (fun _ => 0%Q) "ten_acme"
           [Fixtures.shippingSection] (PLANS FREE) (Fixtures.emptyDb [])).
  - reflexivity.
  - vm_compute. discriminate.
Defined.

(** * Further properties: deleting a section *)

Section DeleteFacts.
Import Data DataOps Ingest.

Lemma rowsOf_deleted t s rows :
  rowsOf t s
    (filter (fun c => ~ (c_tenantId c = t /\ c_sectionId c = s)) rows) = [].
Proof.
  unfold rowsOf. induction rows as [|c rows IH]; [done|].
  rewrite filter_cons. case_decide as Hc; [|done].
  rewrite filter_cons. by case_decide.
Qed.

Lemma rowsOf_kept t s t' s' rows :
  (t', s') <> (t, s) ->
  rowsOf t' s'
    (filter (fun c => ~ (c_tenantId c = t /\ c_sectionId c = s)) rows)
  = rowsOf t' s' rows.
Proof.
  intros Hne. unfold rowsOf. induction rows as [|c rows IH]; [done|].
  rewrite (filter_cons (fun c => ~ _)). case_decide as Hc.
  - rewrite !filter_cons. case_decide; by rewrite IH.
  - rewrite filter_cons. case_decide as Hc'; [|done].
    destruct Hc as [Ht Hs], Hc' as [Ht' Hs'].
    destruct Hne. congruence.
Qed.

Lemma docsOf_removeFirst t s docs :
  docsOf t s (removeFirst t s docs) = tail (docsOf t s docs).
Proof.
  unfold docsOf. induction docs as [|d docs IH]; [done|]. simpl.
  rewrite filter_cons. case_decide as Hd; [done|].
  rewrite filter_cons. by case_decide.
Qed.

Lemma docsOf_removeFirst_other t s t' s' docs :
  (t', s') <> (t, s) ->
  docsOf t' s' (removeFirst t s docs) = docsOf t' s' docs.
Proof.
  intros Hne. unfold docsOf. induction docs as [|d docs IH]; [done|]. simpl.
  case_decide as Hd.
  - rewrite filter_cons. case_decide as Hd'; [|done].
    destruct Hd as [Ht Hs], Hd' as [Ht' Hs']. destruct Hne. congruence.
  - rewrite !filter_cons. case_decide; by rewrite IH.
Qed.

(** [deleteSection] on a database that answers. *)
Lemma deleteSection_healthy t s db :
  faults db = [] ->
  deleteSection t s db
  = (match findSection t s db with
     | Some _ => Ret {| d_sectionId := s;
                        chunksDeleted := length (chunkRows t s db) |}
     | None => Throw "Section not found"
     end,
     {| sectionsCollection := removeFirst t s (sectionsCollection db);
        chunksCollection :=
          filter (fun c => ~ (c_tenantId c = t /\ c_sectionId c = s))
            (chunksCollection db);
        nextId := nextId db; faults := faults db |}).
Proof.
  intros Hf. unfold deleteSection, tryCatch, bind, deleteMany.
  rewrite (command_ok _ db Hf). cbv beta iota delta [fst snd].
  unfold deleteOne. rewrite command_ok by done.
  cbv beta iota delta [fst snd]. unfold findSection. simpl.
  by destruct (head (docsOf t s (sectionsCollection db))).
Qed.

Lemma docsOf_entries tenantId entries e :
  NoDup (e_id <$> entries) -> e ∈ entries ->
  docsOf tenantId (e_id e) (docOf tenantId <$> entries) = [docOf tenantId e].
Proof.
  induction entries as [|e' entries IH]; intros Hnd Hin;
    [by apply elem_of_nil in Hin|].
  apply NoDup_cons in Hnd as [Hnotin Hnd].
  rewrite fmap_cons. change (docOf tenantId e' :: (docOf tenantId <$> entries))
    with ([docOf tenantId e'] ++ (docOf tenantId <$> entries))%list.
  rewrite docsOf_app.
  apply elem_of_cons in Hin as [->|Hin].
  - rewrite (docsOf_none _ _ (docOf tenantId <$> entries)).
    + unfold docsOf. rewrite filter_cons. by case_decide as H; [|destruct H].
    + apply Forall_fmap, list.Forall_forall. intros e2 He2 Heq.
      apply Hnotin. simpl in Heq. rewrite <- Heq.
      by apply list_elem_of_fmap_2.
  - rewrite (docsOf_none _ _ [docOf tenantId e']).
    + by apply IH.
    + constructor; [|constructor]. simpl. intros Heq.
      apply Hnotin. rewrite Heq. by apply list_elem_of_fmap_2.
Qed.

(** What a successful [registerData] has written, by entries. *)
Lemma registerData_ret_entries generateEmbeddings tenantId batch limits
    db db' reg :
  faults db = [] ->
  registerData generateEmbeddings tenantId batch limits db = (Ret reg, db') ->
  exists entries,
    batch = e_section <$> entries
    /\ sectionsCollection db'
       = (sectionsCollection db ++ (docOf tenantId <$> entries))%list
    /\ chunksCollection db'
       = (chunksCollection db ++ concat (rowsOfEntry tenantId <$> entries))%list
    /\ Forall (wellMade generateEmbeddings (nextId db)) entries
    /\ NoDup (e_id <$> entries)
    /\ faults db' = []
    /\ Forall2 (fun r e => r_sectionId r = e_id e
                           /\ r_chunkCount r = length (e_chunks e))
         (sections reg) entries.
Proof.
  intros Hf Hrun.
  assert (Hlimit :
    Z.of_nat (length (filter (fun d => s_tenantId d = tenantId)
                        (sectionsCollection db)))
    + Z.of_nat (length batch) <= sectionsPerTenant limits).
  { revert Hrun.
    unfold registerData, tryCatch, bind, countDocuments.
    rewrite (command_ok _ db Hf). cbv beta iota delta [fst snd].
    destruct (Z.gtb_spec
                (Z.of_nat (length (filter (fun d => s_tenantId d = tenantId)
                                     (sectionsCollection db)))
                 + Z.of_nat (length batch))
                (sectionsPerTenant limits)); [|done].
    unfold throw. discriminate. }
  destruct (registerData_writes generateEmbeddings tenantId batch limits db
              Hf Hlimit)
    as (res & db'' & entries & Hrun' & Hpre & Hs & Hc & Hall & Hnd & Hf'
        & Hret & Hreg).
  rewrite Hrun in Hrun'. injection Hrun' as <- <-.
  destruct (Hreg reg eq_refl) as (_ & Hids & Hcounts).
  exists entries. split; [rewrite Hpre; symmetry; by apply Hret|].
  do 5 (split; [done|]).
  apply Forall2_same_length_lookup. split.
  { rewrite <- (length_fmap r_sectionId (sections reg)), Hids.
    by rewrite length_fmap. }
  intros i r e Hr He. split.
  - assert (H1 : (r_sectionId <$> sections reg) !! i = Some (r_sectionId r))
      by (by rewrite list_lookup_fmap, Hr).
    rewrite Hids, list_lookup_fmap, He in H1. by injection H1.
  - assert (H1 : (r_chunkCount <$> sections reg) !! i
                 = Some (r_chunkCount r))
      by (by rewrite list_lookup_fmap, Hr).
    rewrite Hcounts, list_lookup_fmap, He in H1. by injection H1.
Qed.

End DeleteFacts.

(** X12: [deleteSection] on a database that answers removes every chunk
    row of the tenant's section and the first section document with that
    identifier, and touches no row or document of another tenant or of
    another section.  It reports the number of rows removed; when there is
    no section document it throws [Section not found], the rows of that
    identifier having been removed all the same. *)
Theorem X12_deleteSection_effect (tenantId sectionId : string) (db : Data.Db) :
  Data.faults db = [] ->
  exists res db',
    DataOps.deleteSection tenantId sectionId db = (res, db')
    /\ Data.chunkRows tenantId sectionId db' = []
    /\ Data.docsOf tenantId sectionId (Data.sectionsCollection db')
       = tail (Data.docsOf tenantId sectionId (Data.sectionsCollection db))
    /\ (forall t' s', (t', s') <> (tenantId, sectionId) ->
          Data.chunkRows t' s' db' = Data.chunkRows t' s' db
          /\ Data.findSection t' s' db' = Data.findSection t' s' db)
    /\ match Data.findSection tenantId sectionId db with
       | Some _ =>
           res = Ret {| DataOps.d_sectionId := sectionId;
                        DataOps.chunksDeleted :=
                          length (Data.chunkRows tenantId sectionId db) |}
       | None => res = Throw "Section not found"
       end.
Proof.
  intros Hf. eexists _, _. split; [by apply deleteSection_healthy|].
  unfold Data.chunkRows, Data.findSection. simpl.
  split; [apply rowsOf_deleted|]. split; [apply docsOf_removeFirst|].
  split.
  - intros t' s' Hne. split; [by apply rowsOf_kept|].
    by rewrite docsOf_removeFirst_other.
  - by destruct (head _).
Qed.

(** The rows of a section without a document are removed, and the call
    throws. *)
Lemma X12_deleteSection_effect_witness :
  exists db',
    DataOps.deleteSection "ten_acme" "sec_1"
      {| Data.sectionsCollection := [];
         Data.chunksCollection :=
           [Fixtures.shippingChunk; Fixtures.returnsChunk];
         Data.nextId := 3; Data.faults := [] |}
    = (Throw "Section not found", db')
    /\ Data.chunkRows "ten_acme" "sec_1" db' = [].
Proof.
  destruct (X12_deleteSection_effect "ten_acme" "sec_1"
              {| Data.sectionsCollection := [];
                 Data.chunksCollection :=
                   [Fixtures.shippingChunk; Fixtures.returnsChunk];
                 Data.nextId := 3; Data.faults := [] |} eq_refl)
    as (res & db' & Hrun & Hrows & _ & _ & Hres).
  simpl in Hres. subst res. exists db'. split; [exact Hrun|exact Hrows].
Defined.

(** X13: each section returned by a successful [registerData] (on a
    database that answers and whose stored identifiers are not generated
    again) can be deleted again: [deleteSection] reports as [chunksDeleted]
    the [chunkCount] that [registerData] returned, and leaves neither the
    document nor a chunk row of the section. *)
Theorem X13_registered_section_deleted
    (generateEmbeddings : list string -> Exc (list Embedding))
    (tenantId : string) (batch : list Data.SectionInput) (limits : Limits)
    (db db' : Data.Db) (reg : Data.Registered) :
  Data.faults db = [] ->
  Data.fresh db ->
  Data.registerData generateEmbeddings tenantId batch limits db
  = (Ret reg, db') ->
  Forall
    (fun r =>
       exists db'',
         DataOps.deleteSection tenantId (Data.r_sectionId r) db'
         = (Ret {| DataOps.d_sectionId := Data.r_sectionId r;
                   DataOps.chunksDeleted := Data.r_chunkCount r |}, db'')
         /\ Data.findSection tenantId (Data.r_sectionId r) db'' = None
         /\ Data.chunkRows tenantId (Data.r_sectionId r) db'' = [])
    (Data.sections reg).
Proof.
  intros Hf Hfresh Hrun.
  destruct (registerData_ret_entries _ _ _ _ _ _ _ Hf Hrun)
    as (entries & _ & Hs & Hc & Hall & Hnd & Hf' & Hregs).
  apply list.Forall_forall. intros r Hr.
  apply list_elem_of_lookup in Hr as [i Hr].
  destruct (Forall2_lookup_l _ _ _ _ _ Hregs Hr) as (e & He & Hid & Hcount).
  assert (Hin : e ∈ entries) by (by eapply list_elem_of_lookup_2).
  pose proof (proj1 (list.Forall_forall _ _) Hall e Hin)
    as (_ & _ & _ & Hlen & Hgen).
  destruct (fresh_rows_none tenantId db e Hfresh Hgen) as [Hrows0 Hdocs0].
  assert (Hdocs : Data.docsOf tenantId (Ingest.e_id e)
                    (Data.sectionsCollection db') = [Ingest.docOf tenantId e]).
  { by rewrite Hs, docsOf_app, Hdocs0, docsOf_entries. }
  assert (Hrows : Data.chunkRows tenantId (Ingest.e_id e) db'
                  = Ingest.rowsOfEntry tenantId e).
  { unfold Data.chunkRows. by rewrite Hc, rowsOf_app, Hrows0, rowsOf_entries. }
  eexists. rewrite deleteSection_healthy by done. rewrite Hid.
  unfold Data.findSection at 1. rewrite Hdocs, Hrows. simpl.
  split.
  - do 3 f_equal. rewrite Hcount. by apply rowsFrom_length.
  - unfold Data.findSection, Data.chunkRows. simpl.
    rewrite docsOf_removeFirst, Hdocs, rowsOf_deleted. done.
Qed.

(** One section registered on an empty database, then deleted. *)
Lemma X13_registered_section_deleted_witness :
  exists reg db',
    Data.registerData Data.testEmbeddings "ten_acme"
      [Fixtures.shippingSection] (PLANS FREE) (Fixtures.emptyDb [])
    = (Ret reg, db')
    /\ Forall
         (fun r =>
            exists db'',
              DataOps.deleteSection "ten_acme" (Data.r_sectionId r) db'
              = (Ret {| DataOps.d_sectionId := Data.r_sectionId r;
                        DataOps.chunksDeleted := Data.r_chunkCount r |}, db'')
              /\ Data.findSection "ten_acme" (Data.r_sectionId r) db'' = None
              /\ Data.chunkRows "ten_acme" (Data.r_sectionId r) db'' = [])
         (Data.sections reg).
Proof.
  eexists _, _. split; [vm_compute; reflexivity|].
  eapply (X13_registered_section_deleted Data.testEmbeddings "ten_acme"
            [Fixtures.shippingSection] (PLANS FREE) (Fixtures.emptyDb [])).
  - reflexivity.
  - split; constructor.
  - vm_compute. reflexivity.
Defined.

(** * Further properties: replacing a section *)

Section UpdateFacts.
Import Data DataOps Ingest.

Lemma docsOf_setFirst t s set docs :
  (forall d, s_tenantId (set d) = s_tenantId d
             /\ s_sectionId (set d) = s_sectionId d) ->
  docsOf t s (setFirst t s set docs)
  = match docsOf t s docs with
    | [] => []
    | d :: rest => set d :: rest
    end.
Proof.
  intros Hset. unfold docsOf. induction docs as [|d docs IH]; [done|]. simpl.
  case_decide as Hd.
  - rewrite !filter_cons.
    destruct (Hset d) as [Ht Hs].
    case_decide as Hd'; [|destruct Hd'; by rewrite Ht, Hs].
    by case_decide.
  - rewrite !filter_cons. by case_decide.
Qed.

Lemma docsOf_setFirst_other t s t' s' set docs :
  (forall d, s_tenantId (set d) = s_tenantId d
             /\ s_sectionId (set d) = s_sectionId d) ->
  (t', s') <> (t, s) ->
  docsOf t' s' (setFirst t s set docs) = docsOf t' s' docs.
Proof.
  intros Hset Hne. unfold docsOf.
  induction docs as [|d docs IH]; [done|]. simpl.
  case_decide as Hd.
  - rewrite !filter_cons. destruct (Hset d) as [Ht Hs].
    case_decide as H1.
    { destruct Hd as [? ?], H1 as [? ?]. destruct Hne. congruence. }
    case_decide as H2; [|done].
    destruct Hd as [? ?], H2 as [? ?]. destruct Hne. congruence.
  - rewrite !filter_cons. case_decide; by rewrite IH.
Qed.

Lemma setTitle_keys title d :
  s_tenantId (setTitle title d) = s_tenantId d
  /\ s_sectionId (setTitle title d) = s_sectionId d.
Proof. unfold setTitle. by destruct (truthy title). Qed.

Lemma setTitle_setContent_keys title content n d :
  s_tenantId (setTitle title (setContent content n d)) = s_tenantId d
  /\ s_sectionId (setTitle title (setContent content n d)) = s_sectionId d.
Proof. unfold setTitle. by destruct (truthy title). Qed.

(** [getSection] on a database that answers reads and changes nothing. *)
Lemma getSection_healthy t s db :
  faults db = [] ->
  getSection t s db
  = (match findSection t s db with
     | Some d => Ret d
     | None => Throw "Section not found"
     end, db).
Proof.
  intros Hf. unfold getSection, tryCatch, bind, findOne.
  rewrite (command_ok _ db Hf). cbv beta iota delta [fst snd].
  by destruct (findSection t s db).
Qed.

End UpdateFacts.

Section UpdateContentFacts.
Import Data DataOps Ingest.
Variable generateEmbeddings : list string -> Exc (list Embedding).

Lemma updateSection_content t s updates db content chunks :
  faults db = [] ->
  truthy (u_content updates) = Some content ->
  JS.nonEmpty (JS.trim content) = true ->
  Chunker.chunkText content CHUNK_CONFIG.size CHUNK_CONFIG.overlap
  = Some chunks ->
  match generateEmbeddings chunks, findSection t s db with
  | Throw e, _ =>
      updateSection generateEmbeddings t s updates db
      = (Throw e, emptied t s db)
  | Ret _, None =>
      updateSection generateEmbeddings t s updates db
      = (Throw "Section not found", emptied t s db)
  | Ret embeddings, Some d =>
      exists ids db',
        updateSection generateEmbeddings t s updates db
        = (Ret (setTitle (u_title updates)
                  (setContent content (length chunks) d)), db')
        /\ length ids = length chunks
        /\ sectionsCollection db'
           = setFirst t s
               (fun d => setTitle (u_title updates)
                           (setContent content (length chunks) d))
               (sectionsCollection db)
        /\ chunksCollection db'
           = (chunksCollection (emptied t s db)
              ++ rowsFrom t s
                   {| type := s_type d;
                      title := default (s_title d) (truthy (u_title updates));
                      content := content |}
                   embeddings 0 chunks ids)%list
        /\ faults db' = []
  end.
Proof.
  intros Hf Htruthy Htrim Hchunks.
  destruct (chunkText_blank_iff content CHUNK_CONFIG.size CHUNK_CONFIG.overlap
              ltac:(unfold CHUNK_CONFIG.size, CHUNK_CONFIG.overlap; lia))
    as (chunks' & Hchunks' & Hblank).
  rewrite Hchunks in Hchunks'. injection Hchunks' as <-.
  assert (Hlen : (length chunks =? 0)%nat = false).
  { destruct chunks; [|done]. destruct Hblank as [Hblank _].
    rewrite Hblank in Htrim; done. }
  unfold updateSection, tryCatch, bind.
  rewrite Htruthy, Htrim. cbv beta iota delta [negb].
  unfold deleteMany. rewrite !(command_ok _ db Hf).
  cbv beta iota delta [fst snd]. fold (emptied t s db).
  rewrite Hchunks, Hlen. unfold liftExc.
  destruct (generateEmbeddings chunks) as [embeddings|e].
  2: done.
  rewrite (getSection_healthy t s (emptied t s db)) by done.
  change (findSection t s (emptied t s db)) with (findSection t s db).
  destruct (findSection t s db) as [d|] eqn:Hfind; [|done].
  set (section := {| type := s_type d;
                     title := default (s_title d) (truthy (u_title updates));
                     content := content |}).
  destruct (chunkDocsFrom_exact t s section embeddings chunks 0%nat
              (emptied t s db))
    as (ids & db2 & -> & Hids & Hs2 & Hc2 & Hf2 & _).
  rewrite rowsFrom_length by done.
  assert (Hpos : (0 <? length chunks)%nat = true).
  { apply Nat.ltb_lt. apply Nat.eqb_neq in Hlen. lia. }
  rewrite Hpos. unfold insertMany, updateOne.
  rewrite command_ok by (by rewrite Hf2).
  cbv beta iota delta [fst snd].
  rewrite command_ok by (by simpl; rewrite Hf2).
  cbv beta iota delta [fst snd].
  rewrite getSection_healthy by (by simpl; rewrite Hf2).
  unfold findSection at 1. simpl sectionsCollection.
  rewrite docsOf_setFirst by (intros; apply setTitle_setContent_keys).
  rewrite Hs2. simpl sectionsCollection.
  unfold findSection in Hfind.
  destruct (docsOf t s (sectionsCollection db)) as [|d0 rest]; [done|].
  injection Hfind as ->. simpl.
  eexists ids, _. split; [reflexivity|]. simpl.
  split; [done|]. split; [done|]. split; [by rewrite Hc2|].
  by rewrite Hf2.
Qed.

End UpdateContentFacts.

Section UpdateRowFacts.
Import Data DataOps Ingest.

Lemma rowsOf_other t s t' s' rows :
  Forall (fun c => c_tenantId c = t /\ c_sectionId c = s) rows ->
  (t', s') <> (t, s) ->
  rowsOf t' s' rows = [].
Proof.
  intros Hall Hne. unfold rowsOf.
  induction Hall as [|c rows [Ht Hs] _ IH]; [done|].
  rewrite filter_cons_False; [done|].
  intros [Ht' Hs']. destruct Hne. congruence.
Qed.

Lemma rowsFrom_fields t s section embeddings chunks :
  forall index ids,
    Forall (fun c => c_sectionTitle c = title section
                     /\ c_sectionType c = type section
                     /\ c_embedding c = embeddings !! c_position c)
      (rowsFrom t s section embeddings index chunks ids).
Proof.
  induction chunks as [|text chunks IH]; intros index [|id ids]; simpl;
    try constructor; [done|apply IH].
Qed.

Lemma setTitle_title title d :
  s_title (setTitle title d) = default (s_title d) (truthy title)
  /\ s_type (setTitle title d) = s_type d
  /\ s_content (setTitle title d) = s_content d
  /\ s_chunkCount (setTitle title d) = s_chunkCount d.
Proof. unfold setTitle. by destruct (truthy title). Qed.

End UpdateRowFacts.

(** X14: a content update that goes through.  On a database that answers,
    with a content that is not blank, embeddings that are delivered and an
    existing section, [updateSection] returns the stored document, which
    has the new content, the old type and the new title when one is given;
    the rows of the section are replaced by the chunks of the new content
    in order, at positions 0, 1, ..., each with the title and type of the
    document and the embedding of its position, and [chunkCount] is their
    number; other sections and tenants keep their rows and documents. *)
Theorem X14_update_content_replaces_rows
    (generateEmbeddings : list string -> Exc (list Embedding))
    (tenantId sectionId : string) (updates : DataOps.Updates) (db : Data.Db)
    (content : string) (chunks : list string) (embeddings : list Embedding)
    (d : SectionDoc) :
  Data.faults db = [] ->
  DataOps.truthy (DataOps.u_content updates) = Some content ->
  JS.nonEmpty (JS.trim content) = true ->
  Chunker.chunkText content CHUNK_CONFIG.size CHUNK_CONFIG.overlap
  = Some chunks ->
  generateEmbeddings chunks = Ret embeddings ->
  Data.findSection tenantId sectionId db = Some d ->
  exists doc db',
    DataOps.updateSection generateEmbeddings tenantId sectionId updates db
    = (Ret doc, db')
    /\ Data.findSection tenantId sectionId db' = Some doc
    /\ s_content doc = content
    /\ s_type doc = s_type d
    /\ s_title doc
       = default (s_title d) (DataOps.truthy (DataOps.u_title updates))
    /\ s_chunkCount doc = length (Data.chunkRows tenantId sectionId db')
    /\ c_text <$> Data.chunkRows tenantId sectionId db' = chunks
    /\ c_position <$> Data.chunkRows tenantId sectionId db'
       = seq 0 (length chunks)
    /\ Forall (fun c => c_sectionTitle c = s_title doc
                        /\ c_sectionType c = s_type doc
                        /\ c_embedding c = embeddings !! c_position c)
         (Data.chunkRows tenantId sectionId db')
    /\ (forall t' s', (t', s') <> (tenantId, sectionId) ->
          Data.chunkRows t' s' db' = Data.chunkRows t' s' db
          /\ Data.findSection t' s' db' = Data.findSection t' s' db).
Proof.
  intros Hf Htruthy Htrim Hchunks Hemb Hfind.
  pose proof (updateSection_content generateEmbeddings tenantId sectionId
                updates db content chunks Hf Htruthy Htrim Hchunks) as Hrun.
  rewrite Hemb, Hfind in Hrun.
  destruct Hrun as (ids & db' & Hrun & Hids & Hs & Hc & _).
  set (section := {| Data.type := s_type d;
                     Data.title :=
                       default (s_title d)
                         (DataOps.truthy (DataOps.u_title updates));
                     Data.content := content |}) in *.
  assert (Hrows : Data.chunkRows tenantId sectionId db'
                  = Ingest.rowsFrom tenantId sectionId section embeddings
                      0 chunks ids).
  { unfold Data.chunkRows. rewrite Hc, rowsOf_app. unfold DataOps.emptied.
    simpl. rewrite rowsOf_deleted. simpl.
    apply rowsOf_all, rowsFrom_owner. }
  destruct (setTitle_title (DataOps.u_title updates)
              (DataOps.setContent content (length chunks) d))
    as (Htitle & Htype & Hcontent & Hcount).
  simpl in Htitle, Htype, Hcontent, Hcount.
  destruct (rowsFrom_texts tenantId sectionId section embeddings chunks
              0%nat ids Hids) as [Htexts Hpos].
  eexists _, db'. split; [exact Hrun|].
  split.
  { unfold Data.findSection in *. rewrite Hs.
    rewrite docsOf_setFirst by (intros; apply setTitle_setContent_keys).
    by destruct (Data.docsOf tenantId sectionId (Data.sectionsCollection db));
      [|injection Hfind as ->]. }
  split; [by rewrite Hcontent|]. split; [by rewrite Htype|].
  split; [by rewrite Htitle|].
  split; [by rewrite Hcount, Hrows, rowsFrom_length|].
  split; [by rewrite Hrows|]. split; [by rewrite Hrows|].
  split.
  { rewrite Hrows, Htitle, Htype.
    exact (rowsFrom_fields tenantId sectionId section embeddings chunks
             0%nat ids). }
  intros t' s' Hne. split.
  - unfold Data.chunkRows. rewrite Hc, rowsOf_app. unfold DataOps.emptied.
    simpl. rewrite rowsOf_kept by done.
    rewrite (rowsOf_other tenantId sectionId t' s'
               (Ingest.rowsFrom _ _ _ _ _ _ _))
      by (done || apply rowsFrom_owner).
    by rewrite app_nil_r.
  - unfold Data.findSection. rewrite Hs.
    by rewrite docsOf_setFirst_other
      by (done || (intros; apply setTitle_setContent_keys)).
Qed.

(** The stored section gets a new content and a new title. *)
Lemma X14_update_content_replaces_rows_witness :
  exists doc db',
    DataOps.updateSection Data.testEmbeddings "ten_acme" "sec_1"
      Seeded.newContent (Seeded.db []) = (Ret doc, db')
    /\ s_title doc = "Shipping"
    /\ c_text <$> Data.chunkRows "ten_acme" "sec_1" db'
       = ["Orders ship within two days"].
Proof.
  destruct (X14_update_content_replaces_rows Data.testEmbeddings
              "ten_acme" "sec_1" Seeded.newContent (Seeded.db [])
              "Orders ship within two days" ["Orders ship within two days"]
              [[]] Seeded.shippingDoc
              ltac:(reflexivity) ltac:(reflexivity) ltac:(reflexivity)
              ltac:(vm_compute; reflexivity) ltac:(reflexivity)
              ltac:(reflexivity))
    as (doc & db' & Hrun & _ & _ & _ & Htitle & _ & Htexts & _).
  exists doc, db'. split; [exact Hrun|]. split; [exact Htitle|exact Htexts].
Defined.

(** X15: a content update that fails half-way.  On a database that
    answers, with a content that is not blank, when the embeddings are not
    delivered or the section document does not exist, [updateSection]
    throws after the rows of the section have been deleted: the section
    documents are as before (an existing document still carries its old
    content and [chunkCount]), the section has no row left, and the rows
    of other sections and tenants are untouched. *)
Theorem X15_update_failure_loses_rows
    (generateEmbeddings : list string -> Exc (list Embedding))
    (tenantId sectionId : string) (updates : DataOps.Updates) (db : Data.Db)
    (content : string) (chunks : list string) :
  Data.faults db = [] ->
  DataOps.truthy (DataOps.u_content updates) = Some content ->
  JS.nonEmpty (JS.trim content) = true ->
  Chunker.chunkText content CHUNK_CONFIG.size CHUNK_CONFIG.overlap
  = Some chunks ->
  isRet (generateEmbeddings chunks) = false
  \/ Data.findSection tenantId sectionId db = None ->
  exists e db',
    DataOps.updateSection generateEmbeddings tenantId sectionId updates db
    = (Throw e, db')
    /\ Data.sectionsCollection db' = Data.sectionsCollection db
    /\ Data.chunkRows tenantId sectionId db' = []
    /\ (forall t' s', (t', s') <> (tenantId, sectionId) ->
          Data.chunkRows t' s' db' = Data.chunkRows t' s' db).
Proof.
  intros Hf Htruthy Htrim Hchunks Hfail.
  pose proof (updateSection_content generateEmbeddings tenantId sectionId
                updates db content chunks Hf Htruthy Htrim Hchunks) as Hrun.
  assert (Hdb : Data.sectionsCollection (DataOps.emptied tenantId sectionId db)
                = Data.sectionsCollection db
                /\ Data.chunkRows tenantId sectionId
                     (DataOps.emptied tenantId sectionId db) = []
                /\ (forall t' s', (t', s') <> (tenantId, sectionId) ->
                      Data.chunkRows t' s'
                        (DataOps.emptied tenantId sectionId db)
                      = Data.chunkRows t' s' db)).
  { split; [done|]. split; [apply rowsOf_deleted|].
    intros t' s' Hne. by apply rowsOf_kept. }
  destruct (generateEmbeddings chunks) as [embeddings|e].
  - destruct Hfail as [Hfail|Hfail]; [done|]. rewrite Hfail in Hrun.
    by eexists _, _.
  - by eexists _, _.
Qed.

(** The embedding service fails: the stored section loses its row and
    keeps its document. *)
Lemma X15_update_failure_loses_rows_witness :
  exists e db',
    DataOps.updateSection Seeded.noEmbeddings "ten_acme" "sec_1"
      Seeded.newContent (Seeded.db []) = (Throw e, db')
    /\ Data.sectionsCollection db' = [Seeded.shippingDoc]
    /\ Data.chunkRows "ten_acme" "sec_1" db' = [].
Proof.
  destruct (X15_update_failure_loses_rows Seeded.noEmbeddings
              "ten_acme" "sec_1" Seeded.newContent (Seeded.db [])
              "Orders ship within two days" ["Orders ship within two days"]
              ltac:(reflexivity) ltac:(reflexivity) ltac:(reflexivity)
              ltac:(vm_compute; reflexivity) ltac:(left; reflexivity))
    as (e & db' & Hrun & Hs & Hrows & _).
  exists e, db'. split; [exact Hrun|]. split; [exact Hs|exact Hrows].
Defined.

(** X16: an update without content, which includes a content that is the
    empty string.  On a database that answers, [updateSection] then
    touches no chunk row and no other document; it returns the section
    with its content and [chunkCount] as stored and with the new title
    when one is given, and throws [Section not found] when the section
    does not exist. *)
Theorem X16_update_without_content
    (generateEmbeddings : list string -> Exc (list Embedding))
    (tenantId sectionId : string) (updates : DataOps.Updates) (db : Data.Db) :
  Data.faults db = [] ->
  DataOps.truthy (DataOps.u_content updates) = None ->
  exists res db',
    DataOps.updateSection generateEmbeddings tenantId sectionId updates db
    = (res, db')
    /\ Data.chunksCollection db' = Data.chunksCollection db
    /\ Data.findSection tenantId sectionId db'
       = DataOps.setTitle (DataOps.u_title updates)
         <$> Data.findSection tenantId sectionId db
    /\ (forall t' s', (t', s') <> (tenantId, sectionId) ->
          Data.findSection t' s' db' = Data.findSection t' s' db)
    /\ match Data.findSection tenantId sectionId db with
       | Some d =>
           exists doc,
             res = Ret doc
             /\ s_content doc = s_content d
             /\ s_chunkCount doc = s_chunkCount d
             /\ s_type doc = s_type d
             /\ s_title doc
                = default (s_title d)
                    (DataOps.truthy (DataOps.u_title updates))
       | None => res = Throw "Section not found"
       end.
Proof.
  intros Hf Htruthy.
  unfold DataOps.updateSection, tryCatch, bind. rewrite Htruthy.
  unfold DataOps.updateOne. rewrite (command_ok _ db Hf).
  cbv beta iota delta [fst snd].
  rewrite getSection_healthy by done.
  set (db' := {| Data.sectionsCollection := _ |}).
  assert (Hfind : Data.findSection tenantId sectionId db'
                  = DataOps.setTitle (DataOps.u_title updates)
                    <$> Data.findSection tenantId sectionId db).
  { unfold Data.findSection, db'. simpl.
    rewrite docsOf_setFirst by (intros; apply setTitle_keys).
    by destruct (Data.docsOf tenantId sectionId (Data.sectionsCollection db)). }
  rewrite Hfind.
  exists (match DataOps.setTitle (DataOps.u_title updates)
                  <$> Data.findSection tenantId sectionId db with
          | Some d => Ret d
          | None => Throw "Section not found"
          end), db'.
  split.
  { by destruct (Data.findSection tenantId sectionId db). }
  split; [done|]. split; [done|]. split.
  - intros t' s' Hne. unfold Data.findSection, db'. simpl.
    by rewrite docsOf_setFirst_other
      by (done || (intros; apply setTitle_keys)).
  - destruct (Data.findSection tenantId sectionId db) as [d|]; [|done].
    simpl. eexists. split; [done|].
    destruct (setTitle_title (DataOps.u_title updates) d)
      as (Htitle & Htype & Hcontent & Hcount).
    done.
Qed.

(** An empty string as content: the title changes, the content and the
    rows stay. *)
Lemma X16_update_without_content_witness :
  exists res db',
    DataOps.updateSection Data.testEmbeddings "ten_acme" "sec_1"
      Seeded.emptyContent (Seeded.db []) = (res, db')
    /\ Data.chunksCollection db' = Data.chunksCollection (Seeded.db [])
    /\ s_content <$> Data.findSection "ten_acme" "sec_1" db'
       = Some "We offer free shipping on orders over $50".
Proof.
  destruct (X16_update_without_content Data.testEmbeddings
              "ten_acme" "sec_1" Seeded.emptyContent (Seeded.db [])
              ltac:(reflexivity) ltac:(reflexivity))
    as (res & db' & Hrun & Hc & Hfind & _).
  exists res, db'. split; [exact Hrun|]. split; [exact Hc|].
  rewrite Hfind. reflexivity.
Defined.

(** * Further properties: conversation history *)

Section StoreFacts.
Import Store.
Context {V : Type}.
Implicit Types r : Client V.

Lemma store_get_healthy key r :
  healthy r -> get key r = (Ret (entries r !! key), r).
Proof.
  intros (Hc & Hi & Hf). unfold get, bind, guarded. rewrite Hc, Hi. simpl.
  unfold tryCatch, bind, command. rewrite Hf. simpl.
  unfold ret. by destruct (entries r !! key).
Qed.

Lemma store_set_healthy key value seconds r :
  healthy r -> seconds <> 0 ->
  set key value (Some seconds) r
  = (Ret (Some "OK"),
     {| client := client r; isConnected := isConnected r;
        entries := <[key := value]> (entries r);
        ttl := <[key := seconds]> (ttl r); faults := faults r |}).
Proof.
  intros (Hc & Hi & Hf) Hs. unfold set.
  rewrite (proj2 (Z.eqb_neq seconds 0) Hs).
  unfold guarded. rewrite Hc, Hi. cbv beta iota delta [negb orb].
  unfold tryCatch, bind, command. rewrite Hf.
  unfold serverSet, ret. by rewrite Hc, Hi, Hf.
Qed.

Lemma store_del_healthy key r :
  healthy r ->
  exists n,
    del key r
    = (Ret (Some n),
       {| client := client r; isConnected := isConnected r;
          entries := delete key (entries r); ttl := delete key (ttl r);
          faults := faults r |}).
Proof.
  intros (Hc & Hi & Hf). unfold del, guarded. rewrite Hc, Hi. simpl.
  unfold tryCatch, bind, command. rewrite Hf.
  unfold serverDel, ret. rewrite ?Hc, ?Hi, ?Hf. eauto.
Qed.

Lemma store_get_unavailable key r :
  unavailable r -> get key r = (Ret None, r).
Proof.
  intros Hu. unfold get, bind, guarded.
  by destruct Hu as [-> | ->]; simpl; rewrite ?orb_true_r.
Qed.

Lemma store_set_unavailable key value seconds r :
  unavailable r -> set key value seconds r = (Ret None, r).
Proof.
  intros Hu. unfold set, guarded.
  by destruct Hu as [-> | ->]; simpl; rewrite ?orb_true_r.
Qed.

Lemma store_del_unavailable key r :
  unavailable r -> del key r = (Ret None, r).
Proof.
  intros Hu. unfold del, guarded.
  by destruct Hu as [-> | ->]; simpl; rewrite ?orb_true_r.
Qed.

(** No method of the wrapper throws. *)
Lemma store_guarded_returns {A} (run : Client V -> A * Client V) r :
  exists o r', guarded (command run) r = (Ret o, r').
Proof.
  unfold guarded. destruct (negb (client r) || negb (isConnected r)); [eauto|].
  unfold tryCatch, bind, command.
  destruct (faults r) as [|[] fs]; simpl; eauto;
    destruct (run _); simpl; eauto.
Qed.

Lemma store_get_returns key r : exists o r', get key r = (Ret o, r').
Proof.
  unfold get, bind.
  destruct (store_guarded_returns (serverGet key) r) as (o & r' & ->).
  simpl. eauto.
Qed.

End StoreFacts.

Section HistoryFacts.
Import History.

Lemma slice_last {A} (l : list A) (n : Z) :
  0 < n ->
  JS.slice l (- n) (Z.of_nat (length l)) = drop (length l - Z.to_nat n) l.
Proof.
  intros Hn. unfold JS.slice.
  destruct (Z.ltb_spec (- n) 0); [|lia].
  destruct (Z.ltb_spec (Z.of_nat (length l)) 0); [lia|].
  rewrite Z.min_id.
  replace (Z.to_nat (Z.max (Z.of_nat (length l) + - n) 0))
    with (length l - Z.to_nat n)%nat by lia.
  apply take_ge. rewrite length_drop. lia.
Qed.

Lemma historyKey_inj s s' : historyKey s = historyKey s' -> s = s'.
Proof. unfold historyKey. intros H. simpl in H. by injection H. Qed.

Lemma getHistory_healthy sessionId r :
  Store.healthy r ->
  getHistory sessionId r
  = (Ret (default [] (Store.entries r !! historyKey sessionId)), r).
Proof.
  intros Hh. unfold getHistory, tryCatch, bind.
  rewrite store_get_healthy by done.
  by destruct (Store.entries r !! historyKey sessionId).
Qed.

Lemma saveToHistory_healthy sessionId query response r :
  Store.healthy r ->
  let history :=
    (default [] (Store.entries r !! historyKey sessionId)
     ++ exchange query response)%list in
  saveToHistory sessionId query response r
  = (Ret tt,
     {| Store.client := Store.client r;
        Store.isConnected := Store.isConnected r;
        Store.entries :=
          <[historyKey sessionId := drop (length history - 20) history]>
            (Store.entries r);
        Store.ttl := <[historyKey sessionId := 3600]> (Store.ttl r);
        Store.faults := Store.faults r |}).
Proof.
  intros Hh history. unfold saveToHistory, tryCatch, bind.
  rewrite getHistory_healthy by done. fold history.
  rewrite store_set_healthy by done.
  pose proof (slice_last history 20 ltac:(lia)) as Hslice.
  change (- (20)) with (-20) in Hslice.
  change (Z.to_nat 20) with 20%nat in Hslice.
  cbv zeta. fold history. by rewrite Hslice.
Qed.

End HistoryFacts.

Section ConversationFacts.
Import History.

Lemma drop_last_app {A} (a b : list A) (n : nat) :
  drop (length (drop (length a - n) a ++ b) - n) (drop (length a - n) a ++ b)
  = drop (length (a ++ b) - n) (a ++ b).
Proof.
  rewrite !length_app, length_drop, !drop_app, !length_drop, drop_drop.
  f_equal; f_equal; lia.
Qed.

Lemma transcript_cons query response rest :
  transcript ((query, response) :: rest)
  = (exchange query response ++ transcript rest)%list.
Proof. done. Qed.

Lemma transcript_length exchanges :
  length (transcript exchanges) = (2 * length exchanges)%nat.
Proof.
  induction exchanges as [|[q a] rest IH]; [done|].
  rewrite transcript_cons, length_app, IH. simpl. lia.
Qed.

Lemma saveToHistory_healthy_after sessionId query response r :
  Store.healthy r ->
  exists r',
    saveToHistory sessionId query response r = (Ret tt, r')
    /\ Store.healthy r'
    /\ Store.entries r'
       = <[historyKey sessionId :=
             let history :=
               (default [] (Store.entries r !! historyKey sessionId)
                ++ exchange query response)%list in
             drop (length history - 20) history]> (Store.entries r)
    /\ Store.ttl r' = <[historyKey sessionId := 3600]> (Store.ttl r).
Proof.
  intros Hh. eexists. split; [by apply saveToHistory_healthy|].
  by destruct Hh as (? & ? & ?).
Qed.

(** A conversation on a store that answers keeps the last twenty
    messages. *)
Lemma saveAll_healthy sessionId exchanges :
  forall r,
    Store.healthy r ->
    (length (default [] (Store.entries r !! historyKey sessionId)) <= 20)%nat ->
    exists r',
      saveAll sessionId exchanges r = (Ret tt, r')
      /\ Store.healthy r'
      /\ default [] (Store.entries r' !! historyKey sessionId)
         = (let all :=
              (default [] (Store.entries r !! historyKey sessionId)
               ++ transcript exchanges)%list in
            drop (length all - 20) all)
      /\ (forall s', s' <> sessionId ->
            Store.entries r' !! historyKey s'
            = Store.entries r !! historyKey s').
Proof.
  induction exchanges as [|[query response] rest IH]; intros r Hh Hlen.
  - exists r. split; [done|]. split; [done|]. split; [|done].
    cbv zeta. rewrite app_nil_r.
    replace (length _ - 20)%nat with 0%nat by lia. done.
  - destruct (saveToHistory_healthy_after sessionId query response r Hh)
      as (r1 & Hsave & Hh1 & He1 & _).
    cbv zeta in He1.
    set (h := default [] (Store.entries r !! historyKey sessionId)) in *.
    assert (Hstored : default [] (Store.entries r1 !! historyKey sessionId)
                      = drop (length (h ++ exchange query response) - 20)
                          (h ++ exchange query response)).
    { by rewrite He1, lookup_insert_eq. }
    destruct (IH r1 Hh1) as (r' & Hrest & Hh' & He' & Hothers).
    { rewrite Hstored, length_drop. lia. }
    exists r'. split.
    { simpl. unfold bind. by rewrite Hsave. }
    split; [done|]. split.
    + rewrite He', Hstored. cbv zeta.
      rewrite length_app, length_drop.
      rewrite transcript_cons.
      pose proof (drop_last_app (h ++ exchange query response)
                    (transcript rest) 20) as Hdrop.
      rewrite !length_app, length_drop in Hdrop.
      rewrite <- !app_assoc in Hdrop. rewrite !length_app.
      rewrite !length_app in Hdrop.
      rewrite Hdrop. f_equal. lia.
    + intros s' Hs'. rewrite (Hothers s' Hs'), He1.
      apply lookup_insert_ne. intros Heq. by apply historyKey_inj in Heq.
Qed.

End ConversationFacts.



(** X18: a conversation of any length, saved exchange by exchange in a
    new session on a store that answers, leaves as history the last twenty
    messages of the conversation (all of them up to ten exchanges), oldest
    first. *)
Theorem X18_history_keeps_last_twenty
    (sessionId : string) (exchanges : list (string * string))
    (r : Store.Client (list History.Message)) :
  Store.healthy r ->
  Store.entries r !! History.historyKey sessionId = None ->
  exists r',
    History.saveAll sessionId exchanges r = (Ret tt, r')
    /\ History.getHistory sessionId r'
       = (Ret (drop (2 * length exchanges - 20)
                 (History.transcript exchanges)), r').
Proof.
  intros Hh Hnew.
  destruct (saveAll_healthy sessionId exchanges r Hh) as
    (r' & Hrun & Hh' & He & _).
  { rewrite Hnew. simpl. lia. }
  exists r'. split; [done|].
  rewrite getHistory_healthy by done. rewrite He, Hnew. simpl.
  by rewrite transcript_length.
Qed.

(** Two exchanges in a new session. *)
Lemma X18_history_keeps_last_twenty_witness :
  exists r',
    History.saveAll "s1" [("Hello", "Hi!"); ("Do you ship abroad?", "Yes.")]
      (History.sessions ∅ []) = (Ret tt, r')
    /\ History.getHistory "s1" r'
       = (Ret (History.exchange "Hello" "Hi!"
               ++ History.exchange "Do you ship abroad?" "Yes.")%list, r').
Proof.
  destruct (X18_history_keeps_last_twenty "s1"
              [("Hello", "Hi!"); ("Do you ship abroad?", "Yes.")]
              (History.sessions ∅ []) ltac:(done) ltac:(reflexivity))
    as (r' & Hsave & Hget).
  exists r'. split; [exact Hsave|exact Hget].
Defined.

(** X19: the history never fails a chat.  Whatever the state of the
    store, [getHistory], [saveToHistory] and [clearHistory] return without
    throwing; and when the wrapper has no connection they leave the store
    alone, [getHistory] giving the empty history. *)
Theorem X19_history_never_throws
    (sessionId query response : string)
    (r : Store.Client (list History.Message)) :
  (exists history r', History.getHistory sessionId r = (Ret history, r'))
  /\ (exists r',
        History.saveToHistory sessionId query response r = (Ret tt, r'))
  /\ (exists r', History.clearHistory sessionId r = (Ret tt, r'))
  /\ (Store.unavailable r ->
        History.getHistory sessionId r = (Ret [], r)
        /\ History.saveToHistory sessionId query response r = (Ret tt, r)
        /\ History.clearHistory sessionId r = (Ret tt, r)).
Proof.
  assert (Hget : forall r0 : Store.Client (list History.Message),
            exists history r', History.getHistory sessionId r0
                               = (Ret history, r')).
  { intros r0. unfold History.getHistory, tryCatch, bind.
    destruct (store_get_returns (History.historyKey sessionId) r0)
      as (o & r' & ->).
    destruct o; eauto. }
  split; [apply Hget|]. split.
  { unfold History.saveToHistory, tryCatch, bind.
    destruct (Hget r) as (history & r1 & ->). cbv zeta.
    unfold Store.set.
    destruct (store_guarded_returns
                (Store.serverSet (History.historyKey sessionId)
                   (JS.slice (history ++ History.exchange query response)
                      (-20)
                      (Z.of_nat
                         (length (history
                                  ++ History.exchange query response))))
                   (Some 3600)) r1) as (o & r' & Hset).
    simpl Z.eqb. cbv iota. rewrite Hset. eauto. }
  split.
  { unfold History.clearHistory, tryCatch, bind, Store.del.
    destruct (store_guarded_returns
                (Store.serverDel (V := list History.Message)
                   (History.historyKey sessionId)) r) as (o & r' & ->).
    eauto. }
  intros Hu.
  assert (Hget0 : History.getHistory sessionId r = (Ret [], r)).
  { unfold History.getHistory, tryCatch, bind.
    by rewrite store_get_unavailable. }
  split; [done|]. split.
  - unfold History.saveToHistory, tryCatch, bind. rewrite Hget0.
    cbv zeta. by rewrite store_set_unavailable.
  - unfold History.clearHistory, tryCatch, bind.
    by rewrite store_del_unavailable.
Qed.

(** X20: a read that the store rejects while saving costs the
    conversation.  When the wrapper is connected and the store rejects the
    next command only, [saveToHistory] takes the failed read for an empty
    history and writes the new exchange over whatever was stored for the
    session. *)
Theorem X20_rejected_read_drops_history
    (sessionId query response : string)
    (r : Store.Client (list History.Message)) :
  Store.client r = true ->
  Store.isConnected r = true ->
  Store.faults r = [true] ->
  exists r',
    History.saveToHistory sessionId query response r = (Ret tt, r')
    /\ Store.entries r'
       = <[History.historyKey sessionId := History.exchange query response]>
           (Store.entries r)
    /\ Store.healthy r'.
Proof.
  intros Hc Hi Hf.
  unfold History.saveToHistory, History.getHistory, tryCatch, bind.
  unfold Store.get, bind, Store.guarded at 1. rewrite Hc, Hi.
  cbv beta iota delta [negb orb].
  unfold tryCatch, bind, Store.command at 1. rewrite Hf.
  cbv beta iota zeta delta [ret mjoin option_join].
  set (r1 := Store.withFaults [] r).
  assert (Hh1 : Store.healthy r1) by done.
  rewrite (store_set_healthy _ _ 3600 r1 Hh1) by done.
  eexists. split; [done|]. simpl. split; [|done].
  f_equal.
Qed.

(** A stored conversation is replaced by the new exchange. *)
Lemma X20_rejected_read_drops_history_witness :
  exists r',
    History.saveToHistory "s1" "Do you ship abroad?" "Yes."
      (History.sessions
         {[ History.historyKey "s1" := History.exchange "Hello" "Hi!" ]}
         [true])
    = (Ret tt, r')
    /\ Store.entries r' !! History.historyKey "s1"
       = Some (History.exchange "Do you ship abroad?" "Yes.").
Proof.
  destruct (X20_rejected_read_drops_history "s1" "Do you ship abroad?" "Yes."
              (History.sessions
                 {[ History.historyKey "s1"
                    := History.exchange "Hello" "Hi!" ]} [true])
              ltac:(reflexivity) ltac:(reflexivity) ltac:(reflexivity))
    as (r' & Hsave & He & _).
  exists r'. split; [exact Hsave|]. rewrite He. apply lookup_insert_eq.
Defined.

(** X21: [clearHistory] on a connected wrapper.  When the store answers,
    the session and its expiry are removed, [getHistory] then gives the
    empty history, and other sessions keep theirs.  When the store rejects
    the command, [clearHistory] returns as if nothing had happened and the
    history stays. *)
Theorem X21_clearHistory_effect
    (sessionId : string) (r : Store.Client (list History.Message)) :
  Store.client r = true ->
  Store.isConnected r = true ->
  (Store.faults r = [] ->
     exists r',
       History.clearHistory sessionId r = (Ret tt, r')
       /\ History.getHistory sessionId r' = (Ret [], r')
       /\ Store.ttl r' !! History.historyKey sessionId = None
       /\ (forall s', s' <> sessionId ->
             Store.entries r' !! History.historyKey s'
             = Store.entries r !! History.historyKey s'))
  /\ (Store.faults r = [true] ->
        exists r',
          History.clearHistory sessionId r = (Ret tt, r')
          /\ Store.entries r' = Store.entries r
          /\ History.getHistory sessionId r'
             = (Ret (default []
                       (Store.entries r !! History.historyKey sessionId)),
                r')).
Proof.
  intros Hc Hi. split; intros Hf.
  - assert (Hh : Store.healthy r) by done.
    destruct (store_del_healthy (History.historyKey sessionId) r Hh)
      as (n & Hdel).
    unfold History.clearHistory, tryCatch, bind. rewrite Hdel.
    eexists. split; [done|].
    rewrite getHistory_healthy by done. simpl.
    rewrite lookup_delete_eq. split; [done|].
    split; [apply lookup_delete_eq|].
    intros s' Hs'. apply lookup_delete_ne.
    intros Heq. by apply historyKey_inj in Heq.
  - unfold History.clearHistory, tryCatch, bind, Store.del, Store.guarded.
    rewrite Hc, Hi. cbv beta iota delta [negb orb].
    unfold tryCatch, bind, Store.command. rewrite Hf.
    cbv beta iota zeta delta [ret].
    eexists. split; [done|]. split; [done|].
    by rewrite getHistory_healthy by done.
Qed.

(** A stored conversation is cleared. *)
Lemma X21_clearHistory_effect_witness :
  exists r',
    History.clearHistory "s1"
      (History.sessions
         {[ History.historyKey "s1" := History.exchange "Hello" "Hi!" ]} [])
    = (Ret tt, r')
    /\ History.getHistory "s1" r' = (Ret [], r').
Proof.
  destruct (X21_clearHistory_effect "s1"
              (History.sessions
                 {[ History.historyKey "s1"
                    := History.exchange "Hello" "Hi!" ]} [])
              ltac:(reflexivity) ltac:(reflexivity)) as [Hok _].
  destruct (Hok ltac:(reflexivity)) as (r' & Hclear & Hget & _).
  exists r'. split; [exact Hclear|exact Hget].
Defined.

(** * Further properties: the chat service *)

Section ChatFacts.
Import Chat.
Context {engine : Search.RegexEngine}.
Variable CHAT_MODEL : option string.
Variable groq : nat -> Completion -> Exc (option string).
Variable fadd fdiv : Q -> Q -> Q.

Lemma callGroq_first_answer request content w :
  groq (length (asked w)) request = Ret content ->
  callGroq groq request w
  = (Ret content,
     {| sessions := sessions w; asked := asked w ++ [request];
        slept := slept w |}).
Proof.
  intros Hgroq. unfold callGroq, Helpers.retryWithBackoff.
  change (Z.to_nat 3) with 3%nat. cbn [Helpers.retryLoop].
  rewrite Nat.add_0_r, Hgroq. simpl. by rewrite app_nil_r.
Qed.

Lemma callGroq_exhausted request w :
  (forall i, (i < 3)%nat ->
             exists e, groq (length (asked w) + i) request = Throw e) ->
  exists e,
    groq (length (asked w) + 2) request = Throw e
    /\ callGroq groq request w
       = (Throw e,
          {| sessions := sessions w;
             asked := asked w ++ [request; request; request];
             slept := slept w ++ [1000; 2000] |}).
Proof.
  intros Hfail.
  destruct (Hfail 0%nat ltac:(lia)) as [e0 H0].
  destruct (Hfail 1%nat ltac:(lia)) as [e1 H1].
  destruct (Hfail 2%nat ltac:(lia)) as [e2 H2].
  exists e2. split; [done|].
  unfold callGroq, Helpers.retryWithBackoff.
  change (Z.to_nat 3) with 3%nat. cbn [Helpers.retryLoop].
  rewrite H0. cbn [Helpers.retryLoop]. rewrite H1.
  cbn [Helpers.retryLoop]. rewrite H2. done.
Qed.

(** A query with search results, in a session, on a session store that
    answers, when the model answers at once. *)
Lemma processQuery_in_session b tenantId tenant query options w
    results session content :
  Search.search b tenantId query searchOptions = Ret results ->
  results <> [] ->
  DataOps.truthy (sessionId options) = Some session ->
  Store.healthy (sessions w) ->
  let history :=
    default [] (Store.entries (sessions w) !! History.historyKey session) in
  let request := requestFor CHAT_MODEL tenant query results history in
  let response := default noResponse (DataOps.truthy content) in
  let saved := (history ++ History.exchange query response)%list in
  groq (length (asked w)) request = Ret content ->
  exists reply stored,
    processQuery CHAT_MODEL groq fadd fdiv b tenantId tenant query options w
    = (Ret reply,
       {| sessions := stored; asked := asked w ++ [request];
          slept := slept w |})
    /\ answer reply = response
    /\ sources reply = toSource <$> results
    /\ confidence reply = confidenceOf (averageOf fadd fdiv results)
    /\ Store.healthy stored
    /\ Store.entries stored
       = <[History.historyKey session := drop (length saved - 20) saved]>
           (Store.entries (sessions w)).
Proof.
  intros Hsearch Hne Hsession Hh history request response saved Hgroq.
  unfold processQuery, tryCatch, bind, liftExc. rewrite Hsearch.
  destruct results as [|p ps]; [done|].
  change (length (p :: ps) =? 0)%nat with false. cbv iota.
  rewrite Hsession. unfold liftSessions at 1.
  rewrite getHistory_healthy by done. fold history. fold request.
  rewrite (callGroq_first_answer request content) by done.
  fold response. unfold liftSessions. cbn [sessions asked slept].
  rewrite saveToHistory_healthy by done. fold history. fold saved.
  eexists _, _. split; [reflexivity|]. cbn.
  split; [done|]. split; [done|]. split; [done|].
  split; [by destruct Hh as (? & ? & ?)|done].
Qed.

End ChatFacts.

(** X22: when no tier of the search gives a passage, whether because
    nothing matches or because the index, the text query or the database
    fails, [processQuery] returns the fixed low-confidence answer without
    sources and without metadata (even if asked for), and it does nothing
    else: no request goes to the model and the history of the session is
    neither read nor written.  An outage of the database is thus answered
    like a question without matching content. *)
Theorem X22_no_sources_no_completion {engine : Search.RegexEngine}
    (CHAT_MODEL : option string)
    (groq : nat -> Chat.Completion -> Exc (option string))
    (fadd fdiv : Q -> Q -> Q)
    (b : Search.Backend) (tenantId : string) (tenant : Chat.Tenant)
    (query : string) (options : Chat.QueryOptions) (w : Chat.World) :
  let vector :=
    Search.vectorTier b tenantId query 5%nat (70 # 100) None in
  let fullText := Search.textTier b tenantId query 5%nat None in
  let keyword := Search.regexTier b tenantId query 5%nat None in
  (vector = Ret [] \/ exists e, vector = Throw e) ->
  (fullText = Ret [] \/ exists e, fullText = Throw e) ->
  (keyword = Ret [] \/ exists e, keyword = Throw e) ->
  Chat.processQuery CHAT_MODEL groq fadd fdiv b tenantId tenant query
    options w
  = (Ret {| Chat.answer := Chat.noInformation; Chat.confidence := "low";
            Chat.sources := []; Chat.metadata := None |}, w).
Proof.
  intros vector fullText keyword Hv Ht Hk.
  assert (Hsearch :
    Search.search b tenantId query Chat.searchOptions = Ret []).
  { rewrite (search_keyword_tier b tenantId query Chat.searchOptions Hv Ht).
    unfold keyword in Hk.
    change (default VECTOR_SEARCH.limit
              (Search.optLimit Chat.searchOptions)) with 5%nat.
    change (Search.optSectionType Chat.searchOptions) with (@None string).
    by destruct Hk as [Hk|[e Hk]]; rewrite Hk. }
  unfold Chat.processQuery, tryCatch, bind, liftExc.
  by rewrite Hsearch.
Qed.

(** The database does not answer: the model is not asked, nothing is
    stored, and the reply is the fixed answer. *)
Lemma X22_no_sources_no_completion_witness :
  Chat.processQuery (engine := literalEngine) None Chat.answers Qplus Qdiv
    (Fixtures.unreachable [Fixtures.shippingChunk]) "ten_acme" Chat.acme
    "Do you offer free shipping?"
    {| Chat.sessionId := Some "s1"; Chat.includeMetadata := true |}
    Chat.quiet
  = (Ret {| Chat.answer := Chat.noInformation; Chat.confidence := "low";
            Chat.sources := []; Chat.metadata := None |}, Chat.quiet).
Proof.
  apply (X22_no_sources_no_completion (engine := literalEngine)).
  - right. exists "server selection timed out". reflexivity.
  - right. exists "server selection timed out". reflexivity.
  - right. exists "find rejected". vm_compute. reflexivity.
Defined.



(** X24: the model is down.  With search results and a session store that
    answers, when the three attempts are rejected, [processQuery] throws
    the error of the third, having sent the same request three times and
    waited 1000 and then 2000 ms; the history of the session is not
    written. *)
Theorem X24_chat_model_down {engine : Search.RegexEngine}
    (CHAT_MODEL : option string)
    (groq : nat -> Chat.Completion -> Exc (option string))
    (fadd fdiv : Q -> Q -> Q)
    (b : Search.Backend) (tenantId : string) (tenant : Chat.Tenant)
    (query : string) (options : Chat.QueryOptions) (w : Chat.World)
    (results : list Search.Passage) :
  Search.search b tenantId query Chat.searchOptions = Ret results ->
  results <> [] ->
  Store.healthy (Chat.sessions w) ->
  let history :=
    match DataOps.truthy (Chat.sessionId options) with
    | Some session =>
        default []
          (Store.entries (Chat.sessions w) !! History.historyKey session)
    | None => []
    end in
  let request := Chat.requestFor CHAT_MODEL tenant query results history in
  (forall i, (i < 3)%nat ->
             exists e, groq (length (Chat.asked w) + i)%nat request
                       = Throw e) ->
  exists e,
    groq (length (Chat.asked w) + 2)%nat request = Throw e
    /\ Chat.processQuery CHAT_MODEL groq fadd fdiv b tenantId tenant query
         options w
       = (Throw e,
          {| Chat.sessions := Chat.sessions w;
             Chat.asked := Chat.asked w ++ [request; request; request];
             Chat.slept := Chat.slept w ++ [1000; 2000] |}).
Proof.
  intros Hsearch Hne Hh history request Hfail.
  unfold Chat.processQuery, tryCatch, bind, liftExc. rewrite Hsearch.
  destruct results as [|p ps]; [done|].
  change (length (p :: ps) =? 0)%nat with false. cbv iota.
  destruct (callGroq_exhausted groq request w Hfail) as (e & He & Hcall).
  exists e. split; [done|]. unfold request, history in Hcall.
  destruct (DataOps.truthy (Chat.sessionId options)) as [session|].
  - unfold Chat.liftSessions at 1. rewrite getHistory_healthy by done.
    replace {| Chat.sessions := Chat.sessions w; Chat.asked := Chat.asked w;
               Chat.slept := Chat.slept w |} with w by (by destruct w).
    by rewrite Hcall.
  - unfold ret at 1. by rewrite Hcall.
Qed.

(** Three rejections. *)
Lemma X24_chat_model_down_witness :
  exists w',
    Chat.processQuery (engine := literalEngine) None Chat.overloaded
      Qplus Qdiv Chat.indexed "ten_acme" Chat.acme "Do you ship abroad?"
      {| Chat.sessionId := Some "s1"; Chat.includeMetadata := false |}
      Chat.quiet = (Throw "rate limit reached", w')
    /\ length (Chat.asked w') = 3%nat
    /\ Chat.slept w' = [1000; 2000].
Proof.
  destruct (X24_chat_model_down (engine := literalEngine) None
              Chat.overloaded Qplus Qdiv Chat.indexed "ten_acme" Chat.acme
              "Do you ship abroad?"
              {| Chat.sessionId := Some "s1";
                 Chat.includeMetadata := false |}
              Chat.quiet [Chat.shippingPassage]
              ltac:(reflexivity) ltac:(discriminate) ltac:(done)
              ltac:(intros i _; exists "rate limit reached"; reflexivity))
    as (e & He & Hrun).
  injection He as <-.
  eexists. split; [exact Hrun|]. split; reflexivity.
Defined.

(** X25: the history of a session is kept under the session identifier
    alone.  When a tenant has chatted in a new session and a request of
    another tenant then carries the same session identifier (the session
    store and the model answering), the exchange of the first tenant is
    sent to the model among the messages of the second. *)
Theorem X25_session_shared_between_tenants {engine : Search.RegexEngine}
    (CHAT_MODEL : option string)
    (groq : nat -> Chat.Completion -> Exc (option string))
    (fadd fdiv : Q -> Q -> Q)
    (b : Search.Backend) (tenantIdA tenantIdB : string)
    (tenantA tenantB : Chat.Tenant) (queryA queryB : string)
    (options : Chat.QueryOptions) (w : Chat.World)
    (resultsA resultsB : list Search.Passage) (session : string)
    (contentA contentB : option string) :
  Search.search b tenantIdA queryA Chat.searchOptions = Ret resultsA ->
  Search.search b tenantIdB queryB Chat.searchOptions = Ret resultsB ->
  resultsA <> [] -> resultsB <> [] ->
  DataOps.truthy (Chat.sessionId options) = Some session ->
  Store.healthy (Chat.sessions w) ->
  Store.entries (Chat.sessions w) !! History.historyKey session = None ->
  let requestA := Chat.requestFor CHAT_MODEL tenantA queryA resultsA [] in
  let responseA := default Chat.noResponse (DataOps.truthy contentA) in
  let requestB :=
    Chat.requestFor CHAT_MODEL tenantB queryB resultsB
      (History.exchange queryA responseA) in
  groq (length (Chat.asked w)) requestA = Ret contentA ->
  groq (S (length (Chat.asked w))) requestB = Ret contentB ->
  exists replyA wA replyB wB,
    Chat.processQuery CHAT_MODEL groq fadd fdiv b tenantIdA tenantA queryA
      options w = (Ret replyA, wA)
    /\ Chat.processQuery CHAT_MODEL groq fadd fdiv b tenantIdB tenantB queryB
         options wA = (Ret replyB, wB)
    /\ Chat.asked wB = (Chat.asked w ++ [requestA; requestB])%list
    /\ Chat.answer replyA = responseA
    /\ History.content <$> Chat.messages requestB
       = [Chat.buildSystemPrompt (Chat.businessName tenantB);
          queryA; responseA;
          Chat.buildUserPrompt queryB (Chat.contextOf resultsB)].
Proof.
  intros HsearchA HsearchB HneA HneB Hsession Hh Hnew
    requestA responseA requestB HgroqA HgroqB.
  destruct (processQuery_in_session CHAT_MODEL groq fadd fdiv b tenantIdA
              tenantA queryA options w resultsA session contentA
              HsearchA HneA Hsession Hh)
    as (replyA & storedA & HrunA & HanswerA & _ & _ & HhA & HeA).
  { cbv zeta. by rewrite Hnew. }
  rewrite Hnew in HrunA, HeA. cbn [default app] in HrunA, HeA.
  fold requestA in HrunA. fold responseA in HeA.
  change (drop (length (History.exchange queryA responseA) - 20)
            (History.exchange queryA responseA))
    with (History.exchange queryA responseA) in HeA.
  set (wA := {| Chat.sessions := storedA;
                Chat.asked := Chat.asked w ++ [requestA];
                Chat.slept := Chat.slept w |}) in *.
  assert (HstoredA :
    default [] (Store.entries (Chat.sessions wA) !! History.historyKey session)
    = History.exchange queryA responseA).
  { cbn [Chat.sessions wA]. by rewrite HeA, lookup_insert_eq. }
  destruct (processQuery_in_session CHAT_MODEL groq fadd fdiv b tenantIdB
              tenantB queryB options wA resultsB session contentB
              HsearchB HneB Hsession HhA)
    as (replyB & storedB & HrunB & _).
  { cbv zeta. rewrite HstoredA. fold requestB.
    cbn [Chat.asked wA]. rewrite length_app. cbn [length].
    by rewrite Nat.add_1_r. }
  rewrite HstoredA in HrunB. fold requestB in HrunB.
  eexists replyA, wA, replyB, _.
  split; [exact HrunA|]. split; [exact HrunB|].
  cbn [Chat.asked wA]. split; [by rewrite <- app_assoc|].
  split; [exact HanswerA|]. done.
Qed.

(** Acme's question reaches the model again with Globex's. *)
Lemma X25_session_shared_between_tenants_witness :
  exists replyA wA replyB wB,
    Chat.processQuery (engine := literalEngine) None Chat.answers Qplus Qdiv
      Chat.indexed "ten_acme" Chat.acme "Do you ship abroad?"
      {| Chat.sessionId := Some "s1"; Chat.includeMetadata := false |}
      Chat.quiet = (Ret replyA, wA)
    /\ Chat.processQuery (engine := literalEngine) None Chat.answers
         Qplus Qdiv Chat.indexed "ten_globex" Chat.globex "What is new?"
         {| Chat.sessionId := Some "s1"; Chat.includeMetadata := false |}
         wA = (Ret replyB, wB)
    /\ (History.content <$> Chat.messages
          (Chat.requestFor None Chat.globex "What is new?"
             [Chat.shippingPassage]
             (History.exchange "Do you ship abroad?"
                "We ship worldwide."))) !! 1%nat
       = Some "Do you ship abroad?".
Proof.
  destruct (X25_session_shared_between_tenants (engine := literalEngine)
              None Chat.answers Qplus Qdiv Chat.indexed
              "ten_acme" "ten_globex" Chat.acme Chat.globex
              "Do you ship abroad?" "What is new?"
              {| Chat.sessionId := Some "s1";
                 Chat.includeMetadata := false |}
              Chat.quiet [Chat.shippingPassage] [Chat.shippingPassage] "s1"
              (Some "We ship worldwide.") (Some "We ship worldwide.")
              ltac:(reflexivity) ltac:(reflexivity)
              ltac:(discriminate) ltac:(discriminate)
              ltac:(reflexivity) ltac:(done) ltac:(reflexivity)
              ltac:(reflexivity) ltac:(reflexivity))
    as (replyA & wA & replyB & wB & HrunA & HrunB & _ & _ & Hmessages).
  exists replyA, wA, replyB, wB.
  split; [exact HrunA|]. split; [exact HrunB|].
  exact (f_equal (fun l => l !! 1%nat) Hmessages).
Defined.

(** * Further properties: tenants and their cache *)

Section TenantFacts.
Import Tenants.

Lemma dbCommand_ok {A} (run : list TenantDoc -> A * list TenantDoc) w :
  dbFaults w = [] ->
  dbCommand run w
  = (Ret (fst (run (tenants w))),
     {| tenants := snd (run (tenants w)); dbFaults := [];
        cache := cache w |}).
Proof. intros Hf. unfold dbCommand. rewrite Hf. by destruct (run _). Qed.


Lemma find_setFirst_other sel sel' set docs :
  (forall t, sel t = true -> sel' t = false /\ sel' (set t) = false) ->
  List.find sel' (setFirst sel set docs) = List.find sel' docs.
Proof.
  intros Hother. induction docs as [|t docs IH]; [done|]. simpl.
  destruct (sel t) eqn:Ht; simpl.
  - destruct (Hother t Ht) as [-> ->]. done.
  - by rewrite IH.
Qed.

Lemma find_absent id docs :
  id ∉ tenantId <$> docs -> List.find (activeWithId id) docs = None.
Proof.
  induction docs as [|t docs IH]; [done|]. simpl. intros Hnotin.
  apply not_elem_of_cons in Hnotin as [Hne Hnotin].
  unfold activeWithId at 1. rewrite bool_decide_eq_false_2 by done.
  by apply IH.
Qed.

(** Once the document with a given identifier is marked as deleted, no
    active document has this identifier. *)
Lemma find_deleted id docs :
  uniqueIds docs ->
  List.find (activeWithId id)
    (setFirst (withId id) (setStatus "deleted") docs) = None.
Proof.
  unfold uniqueIds. induction docs as [|t docs IH]; [done|].
  rewrite fmap_cons. intros Hnd. apply NoDup_cons in Hnd as [Hnotin Hnd].
  simpl. unfold withId at 1. case_bool_decide as Hid; simpl.
  - unfold activeWithId at 1. simpl.
    rewrite andb_false_r. apply find_absent. by rewrite <- Hid.
  - unfold activeWithId at 1. rewrite bool_decide_eq_false_2 by done.
    by apply IH.
Qed.

Lemma getTenant_cached id t w :
  Store.client (cache w) = true ->
  Store.isConnected (cache w) = true ->
  Store.faults (cache w) = [] ->
  Store.entries (cache w) !! tenantKey id = Some (CachedTenant t) ->
  getTenant id w = (Ret t, w).
Proof.
  intros Hc Hi Hf Hentry. unfold getTenant, tryCatch, bind, liftCache.
  rewrite store_get_healthy by done. rewrite Hentry. simpl.
  by destruct w.
Qed.

Lemma getTenant_miss id w :
  healthy w ->
  Store.entries (cache w) !! tenantKey id = None ->
  getTenant id w
  = match List.find (activeWithId id) (tenants w) with
    | Some t =>
        (Ret t,
         {| tenants := tenants w; dbFaults := [];
            cache :=
              {| Store.client := Store.client (cache w);
                 Store.isConnected := Store.isConnected (cache w);
                 Store.entries :=
                   <[tenantKey id := CachedTenant t]>
                     (Store.entries (cache w));
                 Store.ttl := <[tenantKey id := 3600]> (Store.ttl (cache w));
                 Store.faults := Store.faults (cache w) |} |})
    | None => (Throw "Tenant not found",
               {| tenants := tenants w; dbFaults := [];
                  cache := cache w |})
    end.
Proof.
  intros [Hdb Hh] Hentry. unfold getTenant, tryCatch, bind.
  unfold liftCache at 1. rewrite store_get_healthy by done.
  rewrite Hentry. cbn [truthyCached]. cbv beta iota.
  unfold findOne. rewrite dbCommand_ok by (by destruct w).
  cbn [fst snd tenants cache].
  destruct (List.find (activeWithId id) (tenants w)) as [t|].
  - unfold liftCache. cbn [cache tenants dbFaults].
    by rewrite (store_set_healthy _ _ tenantTtl) by done.
  - by destruct w.
Qed.

End TenantFacts.

Section TenantRunFacts.
Import Tenants.

Lemma updateOne_ok sel set w :
  dbFaults w = [] ->
  exists n,
    updateOne sel set w
    = (Ret n, {| tenants := setFirst sel set (tenants w); dbFaults := [];
                 cache := cache w |}).
Proof.
  intros Hf. unfold updateOne. rewrite dbCommand_ok by done. simpl. eauto.
Qed.

Lemma activeWithId_setPlan id newPlan newLimits t :
  activeWithId id (setPlan newPlan newLimits t) = activeWithId id t.
Proof. done. Qed.

(** A rejected [DEL] leaves the cache as it is. *)
Lemma del_rejected key (c : Store.Client Cached) :
  Store.client c = true -> Store.isConnected c = true ->
  Store.faults c = [true] ->
  Store.del key c = (Ret None, Store.withFaults [] c).
Proof.
  intros Hc Hi Hf. unfold Store.del, Store.guarded. rewrite Hc, Hi.
  cbv beta iota delta [negb orb].
  unfold tryCatch, bind, Store.command. by rewrite Hf.
Qed.

End TenantRunFacts.



(** X27: a failed invalidation goes unnoticed.  When the tenant is in
    the cache and the store rejects the [DEL] (the database answering),
    [changePlan] writes the new plan to the database and returns the
    cached tenant, with the old plan and limits; and [deleteTenant] marks
    the tenant as deleted and returns, after which [getTenant] still
    answers with the cached tenant. *)
Theorem X27_failed_invalidation_is_silent (id newPlan : string) (p : Plan)
    (old : Tenants.TenantDoc) (w : Tenants.World) :
  Tenants.dbFaults w = [] ->
  Store.client (Tenants.cache w) = true ->
  Store.isConnected (Tenants.cache w) = true ->
  Store.faults (Tenants.cache w) = [true] ->
  Store.entries (Tenants.cache w) !! Tenants.tenantKey id
  = Some (Tenants.CachedTenant old) ->
  Tenants.planConfig (Tenants.toUpperCase newPlan) = Some p ->
  (exists w',
     Tenants.changePlan id newPlan w = (Ret old, w')
     /\ Tenants.tenants w'
        = Tenants.setFirst (Tenants.activeWithId id)
            (Tenants.setPlan newPlan (PLANS p)) (Tenants.tenants w))
  /\ (exists w',
        Tenants.deleteTenant id w = (Ret tt, w')
        /\ Tenants.tenants w'
           = Tenants.setFirst (Tenants.withId id)
               (Tenants.setStatus "deleted") (Tenants.tenants w)
        /\ Tenants.getTenant id w' = (Ret old, w')).
Proof.
  intros Hdb Hc Hi Hf Hentry Hplan. split.
  - unfold Tenants.changePlan, tryCatch, bind. rewrite Hplan.
    destruct (updateOne_ok (Tenants.activeWithId id)
                (Tenants.setPlan newPlan (PLANS p)) w Hdb) as (n & ->).
    unfold Tenants.liftCache at 1. cbn [Tenants.cache].
    rewrite del_rejected by done.
    cbn [Tenants.tenants Tenants.dbFaults].
    rewrite (getTenant_cached id old) by done.
    eexists. split; reflexivity.
  - unfold Tenants.deleteTenant, tryCatch, bind.
    destruct (updateOne_ok (Tenants.withId id)
                (Tenants.setStatus "deleted") w Hdb) as (n & ->).
    unfold Tenants.liftCache. cbn [Tenants.cache].
    rewrite del_rejected by done.
    cbn [Tenants.tenants Tenants.dbFaults].
    eexists. split; [reflexivity|]. split; [reflexivity|].
    by apply getTenant_cached.
Qed.

(** Acme is cached on the free plan and the store rejects the [DEL]. *)
Lemma X27_failed_invalidation_is_silent_witness :
  exists w',
    Tenants.changePlan "ten_acme" "pro"
      (Tenants.world [Tenants.acme]
         {[ Tenants.tenantKey "ten_acme"
            := Tenants.CachedTenant Tenants.acme ]} [true])
    = (Ret Tenants.acme, w')
    /\ Tenants.plan <$> Tenants.tenants w' = ["pro"].
Proof.
  destruct (X27_failed_invalidation_is_silent "ten_acme" "pro" PRO
              Tenants.acme
              (Tenants.world [Tenants.acme]
                 {[ Tenants.tenantKey "ten_acme"
                    := Tenants.CachedTenant Tenants.acme ]} [true])
              ltac:(reflexivity) ltac:(reflexivity) ltac:(reflexivity)
              ltac:(reflexivity) ltac:(reflexivity) ltac:(reflexivity))
    as [(w' & Hrun & Htenants) _].
  exists w'. split; [exact Hrun|]. rewrite Htenants. reflexivity.
Defined.

(** X28: a deleted tenant is gone.  When the database and the cache
    answer and tenant identifiers are unique, [deleteTenant] returns, and
    afterwards [getTenant] throws [Tenant not found] for this tenant while
    the active tenants with other identifiers are found as before. *)
Theorem X28_deleted_tenant_is_gone (id : string) (w : Tenants.World) :
  Tenants.healthy w ->
  Tenants.uniqueIds (Tenants.tenants w) ->
  exists w',
    Tenants.deleteTenant id w = (Ret tt, w')
    /\ Tenants.getTenant id w' = (Throw "Tenant not found", w')
    /\ (forall id', id' <> id ->
          List.find (Tenants.activeWithId id') (Tenants.tenants w')
          = List.find (Tenants.activeWithId id') (Tenants.tenants w)).
Proof.
  intros [Hdb Hh] Hunique.
  unfold Tenants.deleteTenant, tryCatch, bind.
  destruct (updateOne_ok (Tenants.withId id)
              (Tenants.setStatus "deleted") w Hdb) as (n & ->).
  unfold Tenants.liftCache. cbn [Tenants.cache].
  destruct (store_del_healthy (Tenants.tenantKey id) (Tenants.cache w) Hh)
    as (m & ->).
  cbn [Tenants.tenants Tenants.dbFaults].
  set (w1 := {| Tenants.tenants := _ |}).
  assert (Hh1 : Tenants.healthy w1).
  { split; [done|]. by destruct Hh as (? & ? & ?). }
  exists w1. split; [done|]. split.
  - rewrite (getTenant_miss id w1 Hh1) by apply lookup_delete_eq.
    cbn [Tenants.tenants w1]. by rewrite find_deleted.
  - intros id' Hne. cbn [Tenants.tenants w1].
    apply find_setFirst_other. intros t Ht.
    unfold Tenants.withId in Ht. apply bool_decide_eq_true in Ht.
    unfold Tenants.activeWithId. simpl.
    rewrite !(bool_decide_eq_false_2 (Tenants.tenantId t = id')); [done|].
    congruence.
Qed.

(** Acme is deleted. *)
Lemma X28_deleted_tenant_is_gone_witness :
  exists w',
    Tenants.deleteTenant "ten_acme" (Tenants.world [Tenants.acme] ∅ [])
    = (Ret tt, w')
    /\ Tenants.getTenant "ten_acme" w' = (Throw "Tenant not found", w').
Proof.
  destruct (X28_deleted_tenant_is_gone "ten_acme"
              (Tenants.world [Tenants.acme] ∅ []) ltac:(done))
    as (w' & Hrun & Hget & _).
  - unfold Tenants.uniqueIds. simpl. apply NoDup_singleton.
  - exists w'. split; [exact Hrun|exact Hget].
Defined.

(** * Further properties: uploaded documents *)

Section TrimFacts.
Import Visible.

Lemma trimStart_starts s : startsVisible (JS.trimStart s) = true.
Proof.
  induction s as [|c s IH]; simpl; [done|].
  destruct (JS.isWhitespace c) eqn:Hc; [done|]. simpl. by rewrite Hc.
Qed.

Lemma trimStart_id s : startsVisible s = true -> JS.trimStart s = s.
Proof.
  destruct s as [|c s]; simpl; [done|].
  by destruct (JS.isWhitespace c).
Qed.

Lemma revString_swap s :
  forall acc acc',
    JS.revString (JS.revString s acc) acc' = JS.revString acc (s +:+ acc').
Proof.
  induction s as [|c s IH]; intros acc acc'; simpl; [done|].
  by rewrite IH.
Qed.

Lemma append_empty_r (s : string) : s +:+ "" = s.
Proof.
  induction s as [|c s IH]; [done|].
  change (String c (s +:+ "") = String c s). by rewrite IH.
Qed.

Lemma revString_invol s : JS.revString (JS.revString s "") "" = s.
Proof. by rewrite revString_swap, append_empty_r. Qed.

Lemma append_snoc (r : string) c acc :
  (r +:+ String c "") +:+ acc = r +:+ String c acc.
Proof.
  induction r as [|d r IH]; [done|].
  change (String d ((r +:+ String c "") +:+ acc)
          = String d (r +:+ String c acc)).
  by rewrite IH.
Qed.

Lemma revString_acc s :
  forall acc, JS.revString s acc = JS.revString s "" +:+ acc.
Proof.
  induction s as [|c s IH]; intros acc; [done|].
  change (JS.revString s (String c acc)
          = JS.revString s (String c "") +:+ acc).
  by rewrite (IH (String c acc)), (IH (String c "")), append_snoc.
Qed.

Lemma startsVisible_app a b :
  JS.nonEmpty a = true -> startsVisible (a +:+ b) = startsVisible a.
Proof. by destruct a. Qed.

(** Trimming the start of a string keeps its end. *)
Lemma trimStart_keeps_end s :
  startsVisible (JS.revString s "") = true ->
  startsVisible (JS.revString (JS.trimStart s) "") = true.
Proof.
  induction s as [|c s IH]; [done|]. simpl.
  destruct (JS.isWhitespace c) eqn:Hc; [|done].
  rewrite (revString_acc s (String c "")). intros Hend.
  destruct (JS.nonEmpty (JS.revString s "")) eqn:Hne.
  - rewrite startsVisible_app in Hend by done. by apply IH.
  - destruct (JS.revString s ""); [|done]. simpl in Hend.
    by rewrite Hc in Hend.
Qed.

(** What [trim] returns is trimmed. *)
Lemma trim_idempotent s : JS.trim (JS.trim s) = JS.trim s.
Proof.
  unfold JS.trim.
  set (t := JS.trimStart s).
  set (u := JS.trimStart (JS.revString t "")).
  assert (Hu : startsVisible u = true) by apply trimStart_starts.
  assert (Hr : startsVisible (JS.revString u "") = true).
  { apply trimStart_keeps_end. rewrite revString_invol.
    apply trimStart_starts. }
  rewrite (trimStart_id (JS.revString u "")) by done.
  rewrite revString_invol. by rewrite (trimStart_id u).
Qed.

Lemma trim_length_nonEmpty s :
  (0 < String.length (JS.trim s))%nat -> JS.nonEmpty (JS.trim s) = true.
Proof. destruct (JS.trim s); simpl; [lia|done]. Qed.

End TrimFacts.

Section SpaceFacts.
Import Parser.

Lemma startsWith_app c a b :
  JS.nonEmpty a = true -> startsWith c (a +:+ b) = startsWith c a.
Proof. by destruct a. Qed.

Lemma startsWith_collapseSpaces x s :
  startsWith x (collapseSpaces s) = startsWith x s.
Proof.
  induction s as [|c s IH]; [done|]. simpl.
  destruct (Ascii.eqb_spec c space) as [->|Hc]; simpl; [|done].
  destruct s as [|d s]; [done|].
  change (startsWith space (String d s)) with (Ascii.eqb d space).
  destruct (Ascii.eqb_spec d space) as [->|Hd]; [|done].
  by rewrite IH.
Qed.

Lemma collapseSpaces_noDouble s : noDoubleSpace (collapseSpaces s) = true.
Proof.
  induction s as [|c s IH]; [done|]. simpl.
  destruct (Ascii.eqb c space && startsWith space s) eqn:Hrun; [done|].
  simpl. by rewrite startsWith_collapseSpaces, Hrun, IH.
Qed.

Lemma startsWith_collapseNewlines x s :
  startsWith x (collapseNewlines s) = startsWith x s.
Proof.
  induction s as [|c s IH]; [done|]. simpl.
  destruct (Ascii.eqb_spec c newline) as [->|Hc]; simpl; [|done].
  destruct s as [|d s]; [done|].
  change (startsWith newline (String d s)) with (Ascii.eqb d newline).
  destruct (Ascii.eqb_spec d newline) as [->|Hd]; [|done].
  cbn [andb tailOf]. destruct (startsWith newline s); [|done].
  by rewrite IH.
Qed.

Lemma collapseNewlines_noDouble s :
  noDoubleSpace s = true -> noDoubleSpace (collapseNewlines s) = true.
Proof.
  induction s as [|c s IH]; [done|]. simpl.
  intros [Hhead Hrest]%andb_true_iff.
  destruct (Ascii.eqb c newline && startsWith newline s
            && startsWith newline (tailOf s)); [by apply IH|].
  simpl. by rewrite startsWith_collapseNewlines, Hhead, IH.
Qed.

Lemma noDoubleSpace_app a b :
  noDoubleSpace (a +:+ b) = true ->
  noDoubleSpace a = true /\ noDoubleSpace b = true.
Proof.
  induction a as [|c a IH]; [done|].
  change (String c a +:+ b) with (String c (a +:+ b)). simpl.
  intros [Hhead Hrest]%andb_true_iff.
  destruct (IH Hrest) as [Ha Hb]. split; [|done].
  rewrite Ha, andb_true_r.
  destruct a as [|d a]; [by rewrite andb_false_r|].
  by rewrite startsWith_app in Hhead.
Qed.

Lemma noDoubleSpace_line a b :
  noDoubleSpace a = true -> noDoubleSpace b = true ->
  noDoubleSpace (a +:+ String newline b) = true.
Proof.
  intros Ha Hb. induction a as [|c a IH]; [done|].
  change (String c a +:+ String newline b)
    with (String c (a +:+ String newline b)).
  simpl in *. apply andb_true_iff in Ha as [Hhead Ha].
  rewrite (IH Ha), andb_true_r.
  destruct a as [|d a]; [by rewrite andb_false_r|].
  by rewrite startsWith_app.
Qed.

Lemma trimStart_suffix s : exists a, s = a +:+ JS.trimStart s.
Proof.
  induction s as [|c s [a IH]]; [by exists ""|]. simpl.
  destruct (JS.isWhitespace c); [|by exists ""].
  exists (String c a).
  change (String c s = String c (a +:+ JS.trimStart s)). by rewrite <- IH.
Qed.

Lemma revString_app a :
  forall b acc,
    JS.revString (a +:+ b) acc = JS.revString b (JS.revString a acc).
Proof.
  induction a as [|c a IH]; intros b acc; [done|].
  change (String c a +:+ b) with (String c (a +:+ b)). simpl. apply IH.
Qed.

(** [trim] returns a part of the string. *)
Lemma trim_infix s : exists a b, s = a +:+ (JS.trim s +:+ b).
Proof.
  unfold JS.trim.
  destruct (trimStart_suffix s) as [a Ha].
  destruct (trimStart_suffix (JS.revString (JS.trimStart s) ""))
    as [a' Ha'].
  exists a, (JS.revString a' "").
  rewrite <- revString_acc, <- revString_app, <- Ha'.
  by rewrite revString_invol.
Qed.

Lemma trim_noDouble s :
  noDoubleSpace s = true -> noDoubleSpace (JS.trim s) = true.
Proof.
  intros Hs. destruct (trim_infix s) as (a & b & Heq).
  rewrite Heq in Hs. apply noDoubleSpace_app in Hs as [_ Hs].
  by apply noDoubleSpace_app in Hs as [Hs _].
Qed.

Lemma splitLines_noDouble s :
  forall cur,
    noDoubleSpace (JS.revString cur "" +:+ s) = true ->
    Forall (fun line => noDoubleSpace line = true) (splitLines s cur).
Proof.
  induction s as [|c s IH]; intros cur Hs; simpl.
  - rewrite append_empty_r in Hs. by constructor.
  - destruct (Ascii.eqb_spec c newline) as [->|Hc].
    + apply noDoubleSpace_app in Hs as [Hcur Hs]. constructor; [done|].
      apply IH. simpl in Hs. exact Hs.
    + apply IH. simpl. by rewrite revString_acc, append_snoc.
Qed.

Lemma join_noDouble lines :
  Forall (fun line => noDoubleSpace line = true) lines ->
  noDoubleSpace (JS.join (String newline "") lines) = true.
Proof.
  induction 1 as [|x lines Hx Hlines IH]; [done|].
  destruct lines as [|y lines]; [done|].
  change (JS.join (String newline "") (x :: y :: lines))
    with (x +:+ String newline "" +:+ JS.join (String newline "") (y :: lines)).
  change (String newline ""
          +:+ JS.join (String newline "") (y :: lines))
    with (String newline (JS.join (String newline "") (y :: lines))).
  by apply noDoubleSpace_line.
Qed.

(** What [cleanText] returns has no two spaces in a row. *)
Lemma cleanText_noDouble text : noDoubleSpace (cleanText text) = true.
Proof.
  unfold cleanText. destruct (negb (JS.nonEmpty text)); [done|].
  apply trim_noDouble, join_noDouble, Forall_fmap.
  eapply Forall_impl.
  - apply splitLines_noDouble. simpl.
    apply collapseNewlines_noDouble, collapseSpaces_noDouble.
  - intros line Hline. by apply trim_noDouble.
Qed.

End SpaceFacts.

Section ParserFacts.
Import Parser.

Lemma cleanText_trimmed text : JS.trim (cleanText text) = cleanText text.
Proof.
  unfold cleanText. destruct (negb (JS.nonEmpty text)); [done|].
  apply trim_idempotent.
Qed.

Lemma validateContent_cleanText text filename :
  isRet (validateContent (cleanText text) filename)
  = (10 <=? String.length (cleanText text))%nat.
Proof.
  unfold validateContent. rewrite cleanText_trimmed.
  destruct (cleanText text) as [|c s] eqn:Hclean; [done|].
  cbn [JS.nonEmpty negb orb].
  change (String.length (String c s) =? 0)%nat with false. cbv iota.
  destruct (Nat.ltb_spec (String.length (String c s)) 10);
    destruct (Nat.leb_spec 10 (String.length (String c s))); try done; lia.
Qed.

End ParserFacts.

(** X29: a parsed document is ingested.  What [cleanText] returns is
    trimmed and has no two spaces in a row, and [validateContent] accepts
    it exactly when it has at least ten characters.  The section that the
    upload route builds from an accepted text is then never refused by
    [registerData] for its content: with the embedding service, a database
    that answers and room for one more section, it is created, with at
    least one chunk. *)
Theorem X29_parsed_document_is_ingested (sineHalf : Z -> Q)
    (text filename tenantId : string) (limits : Limits) (db : Data.Db) :
  Parser.validateContent (Parser.cleanText text) filename = Ret true ->
  Data.faults db = [] ->
  Z.of_nat (length (filter (fun d => s_tenantId d = tenantId)
                      (Data.sectionsCollection db))) + 1
  <= sectionsPerTenant limits ->
  let content := Parser.cleanText text in
  JS.trim content = content
  /\ Parser.noDoubleSpace content = true
  /\ (10 <= String.length content)%nat
  /\ (forall other name,
        isRet (Parser.validateContent (Parser.cleanText other) name)
        = (10 <=? String.length (Parser.cleanText other))%nat)
  /\ exists reg db' r doc,
       Data.registerData (Embedder.generateEmbeddings sineHalf) tenantId
         [Parser.sectionOf filename content] limits db = (Ret reg, db')
       /\ Data.sections reg = [r]
       /\ (0 < Data.r_chunkCount r)%nat
       /\ Data.sectionsCollection db'
          = (Data.sectionsCollection db ++ [doc])%list
       /\ s_sectionId doc = Data.r_sectionId r
       /\ s_type doc = "document"
       /\ s_title doc = filename
       /\ s_content doc = content
       /\ s_chunkCount doc = Data.r_chunkCount r.
Proof.
  intros Hvalid Hf Hlimit content.
  pose proof (validateContent_cleanText text filename) as Hlen.
  rewrite Hvalid in Hlen. symmetry in Hlen. apply Nat.leb_le in Hlen.
  fold content in Hlen.
  split; [apply cleanText_trimmed|]. split; [apply cleanText_noDouble|].
  split; [done|]. split; [intros; apply validateContent_cleanText|].
  destruct (registerData_writes (Embedder.generateEmbeddings sineHalf)
              tenantId [Parser.sectionOf filename content] limits db Hf)
    as (res & db' & entries & Hrun & Hpre & Hs & _ & Hall & _ & _
        & Hret & Hreg).
  { simpl length. lia. }
  assert (Hacc : Data.acceptedPrefix (Embedder.generateEmbeddings sineHalf)
                   [Parser.sectionOf filename content]
                 = [Parser.sectionOf filename content]).
  { apply acceptedPrefix_all. constructor; [|constructor].
    rewrite accepts_mock. cbn [Parser.sectionOf Data.content].
    unfold content. rewrite cleanText_trimmed. fold content.
    destruct content; [simpl in Hlen; lia|done]. }
  destruct res as [reg|e]; [|by apply Hret in Hacc].
  destruct (Hreg reg eq_refl) as (_ & Hids & Hcounts).
  rewrite Hacc in Hpre.
  destruct entries as [|e [|e' entries]]; try done.
  destruct (Data.sections reg) as [|r [|r' rs]] eqn:Hsections; try done.
  injection Hpre as Hsection. injection Hcounts as Hcount.
  injection Hids as Hid.
  apply Forall_cons in Hall as [(_ & Hne & _) _].
  exists reg, db', r, (Ingest.docOf tenantId e).
  split; [done|]. split; [done|]. split.
  { rewrite Hcount. destruct (Ingest.e_chunks e); [done|simpl; lia]. }
  split; [done|]. unfold Ingest.docOf. cbn. rewrite Hsection.
  by rewrite Hid, Hcount.
Qed.

(** A short note uploaded as a text file. *)
Lemma X29_parsed_document_is_ingested_witness :
  exists reg db',
    Data.registerData (Embedder.generateEmbeddings (fun _ => 0%Q))
      "ten_acme"
      [Parser.sectionOf "note.txt"
         (Parser.cleanText "  Orders  ship within two days.  ")]
      (PLANS FREE) (Fixtures.emptyDb []) = (Ret reg, db')
    /\ s_content <$> Data.sectionsCollection db'
       = ["Orders ship within two days."].
Proof.
  destruct (X29_parsed_document_is_ingested (fun _ => 0%Q)
              "  Orders  ship within two days.  " "note.txt" "ten_acme"
              (PLANS FREE) (Fixtures.emptyDb [])
              ltac:(vm_compute; reflexivity) ltac:(reflexivity)
              ltac:(vm_compute; discriminate))
    as (_ & _ & _ & _ & reg & db' & r & doc & Hrun & _ & _ & Hs & _ & _ & _
        & Hcontent & _).
  exists reg, db'. split; [exact Hrun|].
  rewrite Hs, fmap_app. cbn. rewrite Hcontent. vm_compute. reflexivity.
Defined.

(** * Further properties: API keys *)

Section ApiKeyFacts.
Import Tenants ApiKeys.

Lemma setFirst_same sel docs : setFirst sel (fun d => d) docs = docs.
Proof.
  induction docs as [|t docs IH]; [done|]. simpl.
  destruct (sel t); [done|]. by rewrite IH.
Qed.

Lemma find_none (sel : TenantDoc -> bool) docs :
  Forall (fun t => sel t = false) docs -> List.find sel docs = None.
Proof.
  induction 1 as [|t docs Ht _ IH]; [done|]. simpl. by rewrite Ht.
Qed.

Lemma find_elem (sel : TenantDoc -> bool) docs t :
  List.find sel docs = Some t -> t ∈ docs /\ sel t = true.
Proof.
  intros Hfind. apply List.find_some in Hfind as [Hin Hsel].
  split; [by apply list_elem_of_In|done].
Qed.

(** Once the key is pulled from its tenant, no active tenant has it. *)
Lemma pulled_key_unknown id keyHash docs :
  uniqueIds docs -> keyOf id keyHash docs ->
  Forall (fun t => activeWithKey keyHash t = false)
    (setFirst (activeWithId id) (pullKey keyHash) docs).
Proof.
  unfold uniqueIds, keyOf. induction docs as [|t docs IH]; [constructor|].
  rewrite fmap_cons. intros Hnd Hkey.
  apply NoDup_cons in Hnd as [Hnotin Hnd]. simpl.
  destruct (activeWithId id t) eqn:Hsel.
  - apply andb_true_iff in Hsel as [Hid _].
    apply bool_decide_eq_true in Hid.
    constructor.
    + unfold activeWithKey. simpl.
      rewrite bool_decide_eq_false_2; [done|].
      intros Hin. apply list_elem_of_filter in Hin as [Hne _]. done.
    + apply list.Forall_forall. intros t' Hin'.
      unfold activeWithKey. rewrite bool_decide_eq_false_2; [done|].
      intros Hk. apply Hnotin. rewrite Hid.
      rewrite <- (Hkey t' ltac:(by right) Hk).
      by apply list_elem_of_fmap_2.
  - constructor.
    + unfold activeWithKey.
      destruct (decide (keyHash ∈ apiKeys t)) as [Hk|Hk].
      * pose proof (Hkey t ltac:(by left) Hk) as Hid.
        unfold activeWithId in Hsel.
        rewrite (bool_decide_eq_true_2 _ Hid) in Hsel. simpl in Hsel.
        by rewrite Hsel, andb_false_r.
      * by rewrite bool_decide_eq_false_2.
    + apply IH; [done|]. intros t' Hin'. apply Hkey. by right.
Qed.

(** [getTenantByApiKey] for a key that is not in the cache. *)
Lemma getTenantByApiKey_miss hashApiKey stringify apiKey w :
  healthy w ->
  Store.entries (cache w) !! apiKeyCacheKey (hashApiKey apiKey) = None ->
  getTenantByApiKey hashApiKey stringify apiKey w
  = match List.find (activeWithKey (hashApiKey apiKey)) (tenants w) with
    | Some t =>
        (Ret (Part (project (hashApiKey apiKey) t)),
         {| tenants := tenants w; dbFaults := [];
            cache :=
              {| Store.client := Store.client (cache w);
                 Store.isConnected := Store.isConnected (cache w);
                 Store.entries :=
                   <[apiKeyCacheKey (hashApiKey apiKey)
                     := CachedId (tenantId t)]> (Store.entries (cache w));
                 Store.ttl :=
                   <[apiKeyCacheKey (hashApiKey apiKey) := 300]>
                     (Store.ttl (cache w));
                 Store.faults := Store.faults (cache w) |} |})
    | None =>
        (Throw "Invalid API key",
         {| tenants := tenants w; dbFaults := []; cache := cache w |})
    end.
Proof.
  intros [Hdb Hh] Hmiss. unfold getTenantByApiKey, tryCatch, bind.
  cbv zeta. unfold liftCache at 1. rewrite store_get_healthy by done.
  rewrite Hmiss. cbn [truthyCached]. cbv beta iota.
  unfold findOne. rewrite dbCommand_ok by (by destruct w).
  cbn [fst snd tenants cache].
  destruct (List.find (activeWithKey (hashApiKey apiKey)) (tenants w))
    as [t|]; [|done].
  destruct (updateOne_ok (withIdAndKey (tenantId t) (hashApiKey apiKey))
              (fun d => d)
              {| tenants := tenants w; dbFaults := []; cache := cache w |}
              eq_refl) as (n & ->).
  cbn [tenants cache]. rewrite setFirst_same.
  unfold liftCache. cbn [cache tenants dbFaults].
  by rewrite (store_set_healthy _ _ apiKeyTtl) by done.
Qed.

Lemma authenticate_miss hashApiKey stringify apiKey w :
  healthy w ->
  JS.nonEmpty apiKey = true ->
  Store.entries (cache w) !! apiKeyCacheKey (hashApiKey apiKey) = None ->
  authenticate hashApiKey stringify (Some apiKey) w
  = match getTenantByApiKey hashApiKey stringify apiKey w with
    | (Ret tenant, w') => (Ret (Attached tenant (foundId tenant)), w')
    | (Throw _, w') => (Ret (Send 401 "Unauthorized" "Invalid API key"), w')
    end.
Proof.
  intros Hh Hkey Hmiss. unfold authenticate, tryCatch, bind.
  unfold DataOps.truthy. rewrite Hkey.
  by destruct (getTenantByApiKey hashApiKey stringify apiKey w) as [[?|?] ?].
Qed.

Lemma revokeApiKey_healthy hashApiKey id apiKey w :
  healthy w ->
  revokeApiKey hashApiKey id apiKey w
  = (Ret tt,
     {| tenants :=
          setFirst (activeWithId id) (pullKey (hashApiKey apiKey))
            (tenants w);
        dbFaults := [];
        cache :=
          {| Store.client := Store.client (cache w);
             Store.isConnected := Store.isConnected (cache w);
             Store.entries :=
               delete (apiKeyCacheKey (hashApiKey apiKey))
                 (Store.entries (cache w));
             Store.ttl :=
               delete (apiKeyCacheKey (hashApiKey apiKey))
                 (Store.ttl (cache w));
             Store.faults := Store.faults (cache w) |} |}).
Proof.
  intros [Hdb Hh]. unfold revokeApiKey, tryCatch, bind. cbv zeta.
  destruct (updateOne_ok (activeWithId id) (pullKey (hashApiKey apiKey))
              w Hdb) as (m & ->).
  unfold liftCache. cbn [cache].
  by destruct (store_del_healthy (apiKeyCacheKey (hashApiKey apiKey))
                 (cache w) Hh) as (k & ->).
Qed.

End ApiKeyFacts.

(** X30: a revoked key is refused at once.  With the database and the
    cache answering, tenant identifiers unique and a key that belongs to
    one tenant: [authenticate] attaches this tenant (its projection, with
    its identifier and limits) to a request that carries the key and
    remembers the key for 300 seconds; after [revokeApiKey] the next
    request with the key is answered with 401 [Invalid API key]. *)
Theorem X30_revoked_key_is_refused
    (hashApiKey : string -> string)
    (stringify : Tenants.TenantDoc -> string)
    (id apiKey : string) (t : Tenants.TenantDoc) (w : Tenants.World) :
  Tenants.healthy w ->
  Tenants.uniqueIds (Tenants.tenants w) ->
  JS.nonEmpty apiKey = true ->
  let keyHash := hashApiKey apiKey in
  ApiKeys.keyOf id keyHash (Tenants.tenants w) ->
  List.find (ApiKeys.activeWithKey keyHash) (Tenants.tenants w) = Some t ->
  Store.entries (Tenants.cache w) !! ApiKeys.apiKeyCacheKey keyHash = None ->
  exists w1 w2 w3,
    ApiKeys.authenticate hashApiKey stringify (Some apiKey) w
    = (Ret (ApiKeys.Attached (ApiKeys.Part (ApiKeys.project keyHash t)) id),
       w1)
    /\ ApiKeys.foundLimits (ApiKeys.Part (ApiKeys.project keyHash t))
       = Tenants.limits t
    /\ Store.entries (Tenants.cache w1) !! ApiKeys.apiKeyCacheKey keyHash
       = Some (Tenants.CachedId id)
    /\ Store.ttl (Tenants.cache w1) !! ApiKeys.apiKeyCacheKey keyHash
       = Some 300
    /\ ApiKeys.revokeApiKey hashApiKey id apiKey w1 = (Ret tt, w2)
    /\ ApiKeys.authenticate hashApiKey stringify (Some apiKey) w2
       = (Ret (ApiKeys.Send 401 "Unauthorized" "Invalid API key"), w3).
Proof.
  intros Hhealthy Hunique Hkey keyHash Hown Hfind Hmiss.
  pose proof Hhealthy as [Hdb Hh].
  destruct (find_elem _ _ _ Hfind) as [Hin Hactive].
  assert (Hid : Tenants.tenantId t = id).
  { apply Hown; [done|].
    apply andb_true_iff in Hactive as [Hk _].
    by apply bool_decide_eq_true in Hk. }
  pose proof (authenticate_miss hashApiKey stringify apiKey w
                Hhealthy Hkey Hmiss) as Hfirst.
  rewrite (getTenantByApiKey_miss hashApiKey stringify apiKey w
             Hhealthy Hmiss) in Hfirst.
  fold keyHash in Hfirst. rewrite Hfind in Hfirst.
  cbn [ApiKeys.foundId ApiKeys.project ApiKeys.p_tenantId] in Hfirst.
  rewrite Hid in Hfirst.
  set (w1 := {| Tenants.tenants := Tenants.tenants w |}) in Hfirst.
  assert (Hhealthy1 : Tenants.healthy w1).
  { split; [done|]. by destruct Hh as (? & ? & ?). }
  pose proof (revokeApiKey_healthy hashApiKey id apiKey w1 Hhealthy1)
    as Hrevoke.
  fold keyHash in Hrevoke.
  set (w2 := {| Tenants.tenants := Tenants.setFirst _ _ _ |}) in Hrevoke.
  assert (Hhealthy2 : Tenants.healthy w2).
  { split; [done|]. by destruct Hh as (? & ? & ?). }
  assert (Hmiss2 : Store.entries (Tenants.cache w2)
                   !! ApiKeys.apiKeyCacheKey keyHash = None)
    by apply lookup_delete_eq.
  pose proof (authenticate_miss hashApiKey stringify apiKey w2
                Hhealthy2 Hkey Hmiss2) as Hsecond.
  rewrite (getTenantByApiKey_miss hashApiKey stringify apiKey w2
             Hhealthy2 Hmiss2) in Hsecond.
  fold keyHash in Hsecond.
  assert (Hfind2 : List.find (ApiKeys.activeWithKey keyHash)
                     (Tenants.tenants w2) = None)
    by exact (find_none _ _ (pulled_key_unknown id keyHash _ Hunique Hown)).
  rewrite Hfind2 in Hsecond.
  eexists w1, w2, _. split; [exact Hfirst|]. split; [done|].
  split; [apply lookup_insert_eq|]. split; [apply lookup_insert_eq|].
  split; [exact Hrevoke|exact Hsecond].
Qed.

(** Acme's key, used, revoked and used again. *)
Lemma X30_revoked_key_is_refused_witness :
  exists w1 w2 w3,
    ApiKeys.authenticate ApiKeys.testHash ApiKeys.testStringify
      (Some "sk_live_acme") (Tenants.world [Tenants.acme] ∅ [])
    = (Ret (ApiKeys.Attached
              (ApiKeys.Part (ApiKeys.project "3f2a" Tenants.acme))
              "ten_acme"), w1)
    /\ ApiKeys.revokeApiKey ApiKeys.testHash "ten_acme" "sk_live_acme" w1
       = (Ret tt, w2)
    /\ ApiKeys.authenticate ApiKeys.testHash ApiKeys.testStringify
         (Some "sk_live_acme") w2
       = (Ret (ApiKeys.Send 401 "Unauthorized" "Invalid API key"), w3).
Proof.
  destruct (X30_revoked_key_is_refused ApiKeys.testHash
              ApiKeys.testStringify "ten_acme" "sk_live_acme" Tenants.acme
              (Tenants.world [Tenants.acme] ∅ [])
              ltac:(done)
              ltac:(unfold Tenants.uniqueIds; simpl; apply NoDup_singleton)
              ltac:(reflexivity))
    as (w1 & w2 & w3 & Hfirst & _ & _ & _ & Hrevoke & Hsecond).
  - intros t Ht _. apply list_elem_of_singleton in Ht. by subst t.
  - vm_compute. reflexivity.
  - reflexivity.
  - exists w1, w2, w3. split; [exact Hfirst|]. split; [exact Hrevoke|].
    exact Hsecond.
Defined.
